(** * Clock Kanban: task re-anchoring, interval annotations, status mapping
      and the per-file modification queue

    A shallow embedding of the reconciliation core of the Clock Kanban
    plugin (main plugin class and [KanbanView]).

    Conventions.
    - A JavaScript string is a [string]: a sequence of code units, each an
      [ascii] (code units below 256).  The regular expressions of the plugin
      carry no [u] flag, so they work on code units as well.
    - A line index is a [Z] where the code compares it with [-1] or with the
      bounds of the array, and a [nat] once it is known to be in range.
    - The vault is a finite map from paths to file contents; the plugin's
      [modificationQueue] is a finite map from paths to promises. *)

From Stdlib Require Import ZArith Lia String Ascii List Bool DecimalString.
From stdpp Require Import gmap strings list.
Import ListNotations.
Open Scope string_scope.

#[local] Arguments String.append !s1 s2 : simpl nomatch.

(** ** JavaScript string primitives *)

Module Js.

(** [s.startsWith(p)]; also the way a literal prefix of a regular
    expression is matched at the current position. *)
Fixpoint startsWith (s p : string) {struct p} : bool :=
  match p with
  | EmptyString => true
  | String c p' =>
      match s with
      | EmptyString => false
      | String d s' => if Ascii.eqb c d then startsWith s' p' else false
      end
  end.

(** [s.includes(sub)]: [sub] occurs at some position of [s]. *)
Fixpoint includes (s sub : string) : bool :=
  startsWith s sub ||
  match s with
  | EmptyString => false
  | String _ s' => includes s' sub
  end.

(** [s.substring(0, n)] *)
Fixpoint substringTo (n : nat) (s : string) : string :=
  match n, s with
  | S k, String c s' => String c (substringTo k s')
  | _, _ => EmptyString
  end.

(** [s.substring(n)] *)
Fixpoint substringFrom (n : nat) (s : string) : string :=
  match n, s with
  | S k, String _ s' => substringFrom k s'
  | _, _ => s
  end.

Definition LF : ascii := ascii_of_nat 10.
Definition CR : ascii := ascii_of_nat 13.

(** [content.split('\n')] *)
Fixpoint split (s : string) : list string :=
  match s with
  | EmptyString => [EmptyString]
  | String c s' =>
      if Ascii.eqb c LF then EmptyString :: split s'
      else match split s' with
           | l :: ls => String c l :: ls
           | [] => [String c EmptyString]
           end
  end.

(** [lines.join('\n')] *)
Fixpoint join (ls : list string) : string :=
  match ls with
  | [] => EmptyString
  | [l] => l
  | l :: rest => l +:+ String LF (join rest)
  end.

(** [c.toUpperCase()] and [c.toLowerCase()] on one code unit: the letters
    a-z and A-Z are exchanged, every other code unit below 128 is left
    alone.  The results are only ever compared with ASCII constants. *)
Definition upperChar (c : ascii) : ascii :=
  let n := nat_of_ascii c in
  if (97 <=? n)%nat && (n <=? 122)%nat then ascii_of_nat (n - 32) else c.

Definition lowerChar (c : ascii) : ascii :=
  let n := nat_of_ascii c in
  if (65 <=? n)%nat && (n <=? 90)%nat then ascii_of_nat (n + 32) else c.

Fixpoint mapChars (f : ascii -> ascii) (s : string) : string :=
  match s with
  | EmptyString => EmptyString
  | String c s' => String (f c) (mapChars f s')
  end.

Definition toUpperCase : string -> string := mapChars upperChar.
Definition toLowerCase : string -> string := mapChars lowerChar.

(** [a || b] on strings: the empty string is falsy. *)
Definition orElse (a b : string) : string :=
  if String.eqb a EmptyString then b else a.

(** What [moment()] reads off the clock, for the years 0 to 9999. *)
Record Moment := {
  year : nat; month : nat; day : nat; hour : nat; minute : nat; second : nat
}.

Definition digit (n : nat) : ascii := ascii_of_nat (48 + n mod 10).

Definition pad2 (n : nat) : string :=
  String (digit (n / 10)) (String (digit n) EmptyString).

Definition pad4 (n : nat) : string :=
  String (digit (n / 1000)) (String (digit (n / 100)) (pad2 n)).

(** [moment().format('YYYY-MM-DDTHH:mm:ss')] *)
Definition formatStamp (m : Moment) : string :=
  pad4 (year m) +:+ "-" +:+ pad2 (month m) +:+ "-" +:+ pad2 (day m) +:+ "T"
  +:+ pad2 (hour m) +:+ ":" +:+ pad2 (minute m) +:+ ":" +:+ pad2 (second m).

End Js.

(** ** Task Locator: [findTaskInLines] *)

Module Locator.

(** The test both loops of [findTaskInLines] apply to a line:
    [line.includes(description) && line.includes('- [')]. *)
Definition isTaskLine (description line : string) : bool :=
  Js.includes line description && Js.includes line "- [".

(** The [for] loop of step 2, started at index [i] on the remaining lines. *)
Fixpoint scanFrom (description : string) (lines : list string) (i : Z) : Z :=
  match lines with
  | [] => (-1)%Z
  | l :: rest =>
      if isTaskLine description l then i
      else scanFrom description rest (i + 1)%Z
  end.

Definition findTaskInLines
    (lines : list string) (description : string) (startIndex : Z) : Z :=
  if (0 <=? startIndex)%Z && (startIndex <? Z.of_nat (length lines))%Z
     && match lines !! Z.to_nat startIndex with
        | Some l => isTaskLine description l
        | None => false
        end
  then startIndex
  else scanFrom description lines 0.

End Locator.

(** ** Interval Annotator: the two regular expressions and the edits of
    [manageClockProperty] *)

Module Annotator.

(** [\s] on code units below 256: tab, line feed, vertical tab, form feed,
    carriage return, space and the no-break space. *)
Definition isSpace (c : ascii) : bool :=
  match nat_of_ascii c with
  | 9 | 10 | 11 | 12 | 13 | 32 | 160 => true
  | _ => false
  end.

(** The line terminators [.] refuses, on code units below 256. *)
Definition isLineTerminator (c : ascii) : bool :=
  Ascii.eqb c Js.LF || Ascii.eqb c Js.CR.

Definition closeBracket : ascii := "]"%char.

(** [\s*] at the head of [s]: what is left after the white space. *)
Fixpoint skipSpaces (s : string) : string :=
  match s with
  | EmptyString => EmptyString
  | String c s' => if isSpace c then skipSpaces s' else s
  end.

(** [[^\]]*\]] at the head of [s]: what is left after the first [']']. *)
Fixpoint afterBracket (s : string) : option string :=
  match s with
  | EmptyString => None
  | String c s' => if Ascii.eqb c closeBracket then Some s' else afterBracket s'
  end.

(** [\[clock::[^\]]+\]] at the head of [s]: what is left after the token.
    The class [[^\]]] leaves no choice: the token ends at the first [']'],
    and at least one code unit stands before it. *)
Definition clockToken (s : string) : option string :=
  if Js.startsWith s "[clock::" then
    match Js.substringFrom 8 s with
    | EmptyString => None
    | String c s' => if Ascii.eqb c closeBracket then None else afterBracket s'
    end
  else None.

(** The group [(\[clock::[^\]]+\]\s* )+] followed by [$], at the head of
    [s].  Each round consumes a token, so [String.length s] rounds are
    enough.  (In the expressions quoted here a blank separates a star from
    a closing parenthesis; it is not part of the expression.) *)
Fixpoint clockTokens (fuel : nat) (s : string) : bool :=
  match fuel with
  | O => false
  | S fuel' =>
      match clockToken s with
      | None => false
      | Some rest =>
          match skipSpaces rest with
          | EmptyString => true
          | rest' => clockTokens fuel' rest'
          end
      end
  end.

(** [/^\s*(\[clock::[^\]]+\]\s* )+$/.test(line)] *)
Definition isClockLine (line : string) : bool :=
  clockTokens (String.length line) (skipSpaces line).

(** [(?:(?!\]|--).)] at the head of [s]: one code unit that is no [']'],
    does not start ["--"] and is no line terminator. *)
Definition openBodyChar (s : string) : bool :=
  match s with
  | EmptyString => false
  | String c _ =>
      negb (Js.startsWith s "]") && negb (Js.startsWith s "--")
      && negb (isLineTerminator c)
  end.

(** [((?:(?!\]|--).)+)\]] at the head of [s]: the captured group and what
    is left after the [']'].  The group is greedy; every code unit it takes
    is no [']'], so giving some back never lets the final [\]] match and the
    longest run is the only candidate. *)
Fixpoint openBody (s : string) : option (string * string) :=
  match s with
  | EmptyString => None
  | String c s' =>
      if openBodyChar s then
        match s' with
        | String d rest =>
            if Ascii.eqb d closeBracket then Some (String c EmptyString, rest)
            else match openBody s' with
                 | Some (cap, rest') => Some (String c cap, rest')
                 | None => None
                 end
        | EmptyString => None
        end
      else None
  end.

(** [openClockRegex] anchored at the head of [s]:
    [\[clock::((?:(?!\]|--).)+)\]]. *)
Definition matchOpenAt (s : string) : option (string * string) :=
  if Js.startsWith s "[clock::" then openBody (Js.substringFrom 8 s) else None.

(** [openClockRegex.test(line)]: a match at some position. *)
Fixpoint openClockTest (s : string) : bool :=
  match matchOpenAt s with
  | Some _ => true
  | None =>
      match s with
      | EmptyString => false
      | String _ s' => openClockTest s'
      end
  end.

(** A [RegExpExecArray] of [openClockRegex]: [index], group 1 and the
    length of [match[0]]. *)
Record ExecMatch := { index : nat; group1 : string; matchLength : nat }.

(** The loop [while ((match = regex.exec(line)) !== null) lastMatch = match]
    with the global flag: [pos] is the position of [s] in the line, [skip]
    the number of code units still covered by the previous match (the
    distance to [lastIndex]), [lastMatch] the last match so far. *)
Fixpoint lastOpenMatch
    (s : string) (pos skip : nat) (lastMatch : option ExecMatch)
  : option ExecMatch :=
  match s with
  | EmptyString => lastMatch
  | String _ s' =>
      match skip with
      | S k => lastOpenMatch s' (S pos) k lastMatch
      | O =>
          match matchOpenAt s with
          | Some (cap, _) =>
              let len := 8 + String.length cap + 1 in
              lastOpenMatch s' (S pos) (len - 1)
                (Some {| index := pos; group1 := cap; matchLength := len |})
          | None => lastOpenMatch s' (S pos) 0 lastMatch
          end
      end
  end.

(** The 6 spaces every new clock line starts with. *)
Definition indentation : string := "      ".

(** The first [while] loop: the index after the run of clock lines that
    starts at [insertIndex], [rest] being the lines from [insertIndex] on. *)
Fixpoint skipClockLines (rest : list string) (insertIndex : nat) : nat :=
  match rest with
  | l :: rest' =>
      if isClockLine l then skipClockLines rest' (S insertIndex) else insertIndex
  | [] => insertIndex
  end.

(** [lines.splice(i, 0, x)] *)
Definition splice (lines : list string) (i : nat) (x : string) : list string :=
  take i lines ++ x :: drop i lines.

(** The branch [type === 'start']. *)
Definition clockStart
    (lines : list string) (currentLine : nat) (timestamp : string)
  : list string :=
  let newClock := "[clock::" +:+ timestamp +:+ "]" in
  let insertIndex :=
    skipClockLines (drop (currentLine + 1) lines) (currentLine + 1) in
  splice lines insertIndex (indentation +:+ newClock).

(** The second [while] loop: [lastOpenClockIndex] after the run of clock
    lines that starts at [searchIndex]; [None] stands for [-1]. *)
Fixpoint lastOpenClockLine
    (rest : list string) (searchIndex : nat) (lastOpenClockIndex : option nat)
  : option nat :=
  match rest with
  | l :: rest' =>
      if isClockLine l then
        lastOpenClockLine rest' (S searchIndex)
          (if openClockTest l then Some searchIndex else lastOpenClockIndex)
      else lastOpenClockIndex
  | [] => lastOpenClockIndex
  end.

(** The rewrite of the last open token of a line. *)
Definition closeLastToken (line timestamp : string) : string :=
  match lastOpenMatch line 0 0 None with
  | Some m =>
      let closedClock := "[clock::" +:+ group1 m +:+ "--" +:+ timestamp +:+ "]" in
      let before := Js.substringTo (index m) line in
      let after := Js.substringFrom (index m + matchLength m) line in
      before +:+ closedClock +:+ after
  | None => line
  end.

(** The branch [type === 'end']. *)
Definition clockEnd
    (lines : list string) (currentLine : nat) (timestamp : string)
  : list string :=
  match lastOpenClockLine (drop (currentLine + 1) lines) (currentLine + 1) None with
  | Some i =>
      match lines !! i with
      | Some line => <[i := closeLastToken line timestamp]> lines
      | None => lines
      end
  | None => lines
  end.

End Annotator.

(** ** The regular expressions as written, and what they can match

    The functions of [Annotator] follow the search a backtracking matcher
    makes.  Here the two expressions of the plugin are written down as
    they stand in the source, with the set of matches each one allows;
    the theorems of [RegexFacts] show that the functions find exactly
    these matches. *)

Module Regex.

Inductive Re :=
| Class (p : ascii -> bool)   (* a class, or [.] *)
| Str (s : string)            (* literal text *)
| Cat (r1 r2 : Re)
| Alt (r1 r2 : Re)
| Star (r : Re)
| Plus (r : Re)
| NotAhead (r : Re)           (* [(?!r)] *)
| AtEnd.                      (* [$] *)

(** Zero or more rounds of [R], each starting where the last one stopped. *)
Inductive iter (R : string -> string -> Prop) : string -> string -> Prop :=
| iter_stop s : iter R s s
| iter_round s mid rest : R s mid -> iter R mid rest -> iter R s rest.

(** [matches r s rest]: at the head of [s], [r] can match the text that
    stands before [rest]. *)
Fixpoint matches (r : Re) (s rest : string) : Prop :=
  match r with
  | Class p => exists c, s = String c rest /\ p c = true
  | Str l => s = l +:+ rest
  | Cat r1 r2 => exists mid, matches r1 s mid /\ matches r2 mid rest
  | Alt r1 r2 => matches r1 s rest \/ matches r2 s rest
  | Star r1 => iter (matches r1) s rest
  | Plus r1 => exists mid, matches r1 s mid /\ iter (matches r1) mid rest
  | NotAhead r1 => s = rest /\ forall rest', ~ matches r1 s rest'
  | AtEnd => s = EmptyString /\ rest = EmptyString
  end.

Definition space : Re := Class Annotator.isSpace.

Definition notCloseBracket : Re :=
  Class (fun c => negb (Ascii.eqb c Annotator.closeBracket)).

Definition dot : Re := Class (fun c => negb (Annotator.isLineTerminator c)).

(** [\[clock::[^\]]+\]] *)
Definition token : Re :=
  Cat (Str "[clock::") (Cat (Plus notCloseBracket) (Str "]")).

(** [\[clock::[^\]]+\]\s*]: one round of the group. *)
Definition round : Re := Cat token (Star space).

(** [^\s*(\[clock::[^\]]+\]\s* )+$]; the match starts at the head of the
    line, which is what [^] asks for. *)
Definition clockLineRegex : Re :=
  Cat (Star space) (Cat (Plus round) AtEnd).

(** [(?!\]|--).] *)
Definition unit : Re := Cat (NotAhead (Alt (Str "]") (Str "--"))) dot.

(** [(?:(?!\]|--).)+] *)
Definition openBodyRegex : Re := Plus unit.

(** [\[clock::((?:(?!\]|--).)+)\]] *)
Definition openClockRegex : Re :=
  Cat (Str "[clock::") (Cat openBodyRegex (Str "]")).

End Regex.

(** ** Data model: tasks, columns, settings, raw records *)

Inductive TaskStatus := todo | in_progress | done | cancelled.

(** A column of the board as the settings tab builds it:
    [{ type, name, color, symbol }]. *)
Record KanbanColumnConfig := {
  colType : string;
  name : string;
  color : string;
  symbol : string
}.

Record ClockKanbanSettings := {
  autoClockInOut : bool;
  clockColumn : string;
  showCompletedTasks : bool;
  timeFormat : string;
  columns : list KanbanColumnConfig
}.

Record KanbanTask := {
  id : string;
  description : string;
  column : string;
  status : TaskStatus;
  startTime : option string;
  endTime : option string;
  sourcePath : string;
  lineNumber : Z;
  priority : option string;
  tags : list string;
  dueDate : option string;
  isClockedIn : bool
}.

Definition setLineNumber (n : Z) (t : KanbanTask) : KanbanTask :=
  {| id := id t; description := description t; column := column t;
     status := status t; startTime := startTime t; endTime := endTime t;
     sourcePath := sourcePath t; lineNumber := n; priority := priority t;
     tags := tags t; dueDate := dueDate t; isClockedIn := isClockedIn t |}.

Definition setColumn (c : string) (t : KanbanTask) : KanbanTask :=
  {| id := id t; description := description t; column := c;
     status := status t; startTime := startTime t; endTime := endTime t;
     sourcePath := sourcePath t; lineNumber := lineNumber t;
     priority := priority t; tags := tags t; dueDate := dueDate t;
     isClockedIn := isClockedIn t |}.

Definition setIsClockedIn (b : bool) (t : KanbanTask) : KanbanTask :=
  {| id := id t; description := description t; column := column t;
     status := status t; startTime := startTime t; endTime := endTime t;
     sourcePath := sourcePath t; lineNumber := lineNumber t;
     priority := priority t; tags := tags t; dueDate := dueDate t;
     isClockedIn := b |}.

Definition setStartTime (s : string) (t : KanbanTask) : KanbanTask :=
  {| id := id t; description := description t; column := column t;
     status := status t; startTime := Some s; endTime := endTime t;
     sourcePath := sourcePath t; lineNumber := lineNumber t;
     priority := priority t; tags := tags t; dueDate := dueDate t;
     isClockedIn := isClockedIn t |}.

Definition setEndTime (s : string) (t : KanbanTask) : KanbanTask :=
  {| id := id t; description := description t; column := column t;
     status := status t; startTime := startTime t; endTime := Some s;
     sourcePath := sourcePath t; lineNumber := lineNumber t;
     priority := priority t; tags := tags t; dueDate := dueDate t;
     isClockedIn := isClockedIn t |}.

(** What [task.status] of a record of the Tasks plugin can be, as far as
    [parseTasks] can tell: an object with or without a string [symbol], a
    string, or anything else ([undefined], [null], ...). *)
Inductive RawStatus :=
| StatusObject (sym : option string)
| StatusString (s : string)
| StatusOther.

(** A record of the Tasks plugin ([task: any]): every property may be
    missing. *)
Record RawTask := {
  raw_id : option string;
  raw_path : option string;
  raw_sourcePath : option string;
  raw_lineNumber : option Z;
  raw_description : option string;
  raw_text : option string;
  raw_status : RawStatus;
  raw_priority : option string;
  raw_tags : option (list string);
  raw_dueDate : option string;
  raw_isClockedIn : bool;
  raw_startTime : option string;
  raw_endTime : option string
}.

(** The vault: the content of every path that resolves to a [TFile]. *)
Abbreviation Vault := (gmap string string).

(** ** Status Mapper and Task Ingestion: [parseTasks], [mapStatus],
    [checkIfTaskIsClockedIn], [loadTasks] *)

Module Ingestion.

(** A possibly missing string in a [||] chain: [undefined] is the empty
    string as far as truthiness goes. *)
Definition str (o : option string) : string :=
  match o with Some s => s | None => EmptyString end.

(** A possibly missing string inside a template literal. *)
Definition template (o : option string) : string :=
  match o with Some s => s | None => "undefined" end.

(** The decimal digits of an integer. *)
Definition decimal (z : Z) : string :=
  DecimalString.NilZero.string_of_int (Z.to_int z).

(** The Number nearest to a positive integer: 53 significant bits, a tie
    goes to the even significand.  Integers below [2^53] are Numbers
    themselves. *)
Definition toDouble (z : Z) : Z :=
  let b := Z.log2 z in
  if (b <? 53)%Z then z
  else
    let sh := (b - 52)%Z in
    let q := Z.shiftr z sh in
    let r := Z.land z (Z.ones sh) in
    let half := Z.shiftl 1 (sh - 1) in
    Z.shiftl (if (half <? r)%Z || ((r =? half)%Z && Z.odd q) then (q + 1)%Z else q) sh.

(** The integer [s * 10^(n-k)] of [Number::toString]: [k] as small as
    possible such that the integer is read back as the Number [x], and
    among two candidates the one closer to [x] (the even [s] on a tie).
    The candidates with [k] digits are the multiples of [p] on both sides
    of [x]; [p] starts at the power of ten of the first digit of [x] and
    goes down by one digit per round. *)
Fixpoint shortest (fuel : nat) (x p : Z) : Z :=
  let lo := (x / p * p)%Z in
  let hi := (lo + p)%Z in
  let pick :=
    match (toDouble lo =? x)%Z, (toDouble hi =? x)%Z with
    | true, true =>
        Some (if (x - lo <? hi - x)%Z then lo
              else if (hi - x <? x - lo)%Z then hi
              else if Z.even (lo / p) then lo else hi)
    | true, false => Some lo
    | false, true => Some hi
    | false, false => None
    end in
  match pick, fuel with
  | Some v, _ => v
  | None, S fuel' => shortest fuel' x (p / 10)
  | None, O => x
  end.

(** A string of digits without the zeros at its end. *)
Fixpoint stripZeros (s : string) : string :=
  match s with
  | EmptyString => EmptyString
  | String c r =>
      match stripZeros r with
      | EmptyString => if Ascii.eqb c "0" then EmptyString else String c EmptyString
      | r' => String c r'
      end
  end.

(** [Number::toString] of a positive, finite, integral Number: all its
    digits up to 21 of them, the exponent form from 22 digits on. *)
Definition positiveToString (x : Z) : string :=
  let nd := String.length (decimal x) in
  let digits := decimal (shortest (nd - 1) x (10 ^ (Z.of_nat nd - 1))) in
  let n := String.length digits in
  if (n <=? 21)%nat then digits
  else
    match stripZeros digits with
    | String d rest =>
        String d (match rest with
                  | EmptyString => EmptyString
                  | _ => "." +:+ rest
                  end)
        +:+ "e+" +:+ decimal (Z.of_nat n - 1)
    | EmptyString => digits
    end.

(** A number inside a template literal: [Number::toString] in radix 10.
    An integer stands for the Number nearest to it, which from [2^1024]
    on (and for the integers that round up to it) is [Infinity]. *)
Definition numberToString (z : Z) : string :=
  if (z =? 0)%Z then "0"
  else
    let x := toDouble (Z.abs z) in
    (if (z <? 0)%Z then "-" else EmptyString)
    +:+ (if (1024 <=? Z.log2 x)%Z then "Infinity" else positiveToString x).

(** [columns.find(c => c.symbol === symbol)] *)
Definition findBySymbol (cols : list KanbanColumnConfig) (sym : string)
  : option KanbanColumnConfig :=
  List.find (fun c => String.eqb (symbol c) sym) cols.

(** [columns.find(c => c.name === n)] *)
Definition findByName (cols : list KanbanColumnConfig) (n : string)
  : option KanbanColumnConfig :=
  List.find (fun c => String.eqb (name c) n) cols.

(** [columns.find(c => c.name.toLowerCase() === 'done')] *)
Definition findDone (cols : list KanbanColumnConfig) : option KanbanColumnConfig :=
  List.find (fun c => String.eqb (Js.toLowerCase (name c)) "done") cols.

(** [task.status?.symbol || (typeof task.status === 'string' ? task.status : ' ')] *)
Definition rawSymbol (st : RawStatus) : string :=
  match st with
  | StatusObject (Some s) => Js.orElse s " "
  | StatusObject None => " "
  | StatusString s => s
  | StatusOther => " "
  end.

Definition isX (sym : string) : bool :=
  String.eqb sym "x" || String.eqb sym "X".

(** The column [parseTasks] gives a status symbol: the lines from
    [const matchingCol] to the end of the [if] on the symbol [x]. *)
Definition symbolToColumn (cols : list KanbanColumnConfig) (sym : string) : string :=
  let matchingCol := findBySymbol cols sym in
  let column :=
    match matchingCol with
    | Some c => name c
    | None =>
        Js.orElse (match cols with c0 :: _ => name c0 | [] => EmptyString end) "TODO"
    end in
  match matchingCol with
  | None =>
      if isX sym then
        match findDone cols with
        | Some doneCol => name doneCol
        | None => column
        end
      else column
  | Some _ => column
  end.

(** [mapStatus] on a string argument. *)
Definition mapStatus (settings : ClockKanbanSettings) (tasksStatus : string)
  : TaskStatus :=
  let sym := tasksStatus in
  let st := Js.toUpperCase sym in
  if String.eqb st "X" then done
  else if String.eqb st "/" then in_progress
  else if String.eqb st "-" then cancelled
  else
    match findByName (columns settings) (clockColumn settings) with
    | Some clockCol =>
        if String.eqb sym (symbol clockCol) then in_progress else todo
    | None => todo
    end.

(** The callback of [rawTasks.map].  The argument of [mapStatus] is the
    identifier [status], which nothing in [parseTasks] declares: it
    denotes the global [status] of the window, a string, given here as
    [windowStatus]. *)
Definition parseTask
    (settings : ClockKanbanSettings) (windowStatus : string)
    (index : nat) (task : RawTask) : KanbanTask :=
  let sym := rawSymbol (raw_status task) in
  let column := symbolToColumn (columns settings) sym in
  let line :=
    match raw_lineNumber task with
    | Some n => if (n =? 0)%Z then None else Some n
    | None => None
    end in
  {| id :=
       Js.orElse (str (raw_id task))
         (template (raw_path task) +:+ "-" +:+
          numberToString (match line with Some n => n | None => Z.of_nat index end));
     description :=
       Js.orElse (str (raw_description task))
         (Js.orElse (str (raw_text task)) "Untitled Task");
     column := column;
     status := mapStatus settings windowStatus;
     sourcePath := Js.orElse (str (raw_path task)) (str (raw_sourcePath task));
     lineNumber := match line with Some n => n | None => 0%Z end;
     priority := raw_priority task;
     tags := match raw_tags task with Some ts => ts | None => [] end;
     dueDate := raw_dueDate task;
     isClockedIn := raw_isClockedIn task || String.eqb column (clockColumn settings);
     startTime := raw_startTime task;
     endTime := raw_endTime task |}.

(** The callback of [.filter]. *)
Definition keepTask (settings : ClockKanbanSettings) (task : KanbanTask) : bool :=
  let isDone :=
    match findByName (columns settings) (column task) with
    | Some colConfig => isX (symbol colConfig)
    | None => false
    end in
  if negb (showCompletedTasks settings) && isDone then false else true.

Definition parseTasks
    (settings : ClockKanbanSettings) (windowStatus : string)
    (rawTasks : list RawTask) : list KanbanTask :=
  List.filter (keepTask settings)
    (imap (parseTask settings windowStatus) rawTasks).

(** The loop of [checkIfTaskIsClockedIn] on the lines below the task. *)
Fixpoint hasOpenClock (rest : list string) : bool :=
  match rest with
  | l :: rest' =>
      if Annotator.isClockLine l then
        if Annotator.openClockTest l then true else hasOpenClock rest'
      else false
  | [] => false
  end.

Definition checkIfTaskIsClockedIn (vault : Vault) (task : KanbanTask) : bool :=
  match vault !! sourcePath task with
  | None => false
  | Some content =>
      let lines := Js.split content in
      if (lineNumber task <? 0)%Z || (Z.of_nat (length lines) <=? lineNumber task)%Z
      then false
      else hasOpenClock (drop (Z.to_nat (lineNumber task) + 1) lines)
  end.

(** The body of the second pass of [loadTasks] for one task. *)
Definition forceClockColumn
    (settings : ClockKanbanSettings) (vault : Vault) (task : KanbanTask)
  : KanbanTask :=
  if checkIfTaskIsClockedIn vault task
  then setColumn (clockColumn settings) (setIsClockedIn true task)
  else task.

(** [loadTasks]: [tasksPlugin] is [None] when the Tasks plugin is not
    installed, and otherwise what [getTasks] returns. *)
Definition loadTasks
    (settings : ClockKanbanSettings) (windowStatus : string) (vault : Vault)
    (tasksPlugin : option (list RawTask)) : list KanbanTask :=
  match tasksPlugin with
  | None => []
  | Some rawTasks =>
      List.map (forceClockColumn settings vault)
        (parseTasks settings windowStatus rawTasks)
  end.

End Ingestion.

(** ** The file actions of the plugin and the Transition Controller:
    [manageClockProperty], [updateTaskStatus], [clockIn], [clockOut],
    [handleTaskMove] *)

Module Plugin.

(** ['start' | 'end'] *)
Inductive ClockType := clockStartType | clockEndType.

(** The body of the action of [manageClockProperty] once the file is read
    and split: locate the task, then edit the lines.  [None] is the early
    [return] on a task that is not found (nothing is written). *)
Definition manageClockLines
    (lines : list string) (task : KanbanTask) (type : ClockType)
    (timestamp : string) : option (list string * KanbanTask) :=
  let currentLine :=
    Locator.findTaskInLines lines (description task) (lineNumber task) in
  if (currentLine =? -1)%Z then None
  else
    let task' := setLineNumber currentLine task in
    let lines' :=
      match type with
      | clockStartType => Annotator.clockStart lines (Z.to_nat currentLine) timestamp
      | clockEndType => Annotator.clockEnd lines (Z.to_nat currentLine) timestamp
      end in
    Some (lines', task').

(** The action [manageClockProperty] queues, on the vault and the task
    object it shares with its caller. *)
Definition manageClockAction
    (type : ClockType) (timestamp : string)
    (vault : Vault) (task : KanbanTask) : Vault * KanbanTask :=
  match vault !! sourcePath task with
  | None => (vault, task)
  | Some content =>
      match manageClockLines (Js.split content) task type timestamp with
      | None => (vault, task)
      | Some (lines', task') =>
          (<[sourcePath task := Js.join lines']> vault, task')
      end
  end.

(** [/- \[([^\]])\]/] at the head of [s]: the captured code unit. *)
Definition matchStatusAt (s : string) : option ascii :=
  if Js.startsWith s "- [" then
    match Js.substringFrom 3 s with
    | String c (String d _) =>
        if negb (Ascii.eqb c Annotator.closeBracket) && Ascii.eqb d Annotator.closeBracket
        then Some c else None
    | _ => None
    end
  else None.

(** The first match of [/- \[([^\]])\]/] in the line: its index and group. *)
Fixpoint findStatus (s : string) (pos : nat) : option (nat * ascii) :=
  match matchStatusAt s with
  | Some c => Some (pos, c)
  | None =>
      match s with
      | EmptyString => None
      | String _ s' => findStatus s' (S pos)
      end
  end.

(** The replacement patterns of [String.prototype.replace] for an
    expression with one group: [$$], [$&], [$1], [$01], and the text before
    and after the match. *)
Fixpoint expand (repl matched group before after : string) : string :=
  match repl with
  | EmptyString => EmptyString
  | String c r =>
      if Ascii.eqb c "$"%char then
        match r with
        | String d r' =>
            if Ascii.eqb d "$"%char then
              String "$"%char (expand r' matched group before after)
            else if Ascii.eqb d "&"%char then
              matched +:+ expand r' matched group before after
            else if Ascii.eqb d "`"%char then
              before +:+ expand r' matched group before after
            else if Ascii.eqb d "'"%char then
              after +:+ expand r' matched group before after
            else if Ascii.eqb d "1"%char then
              group +:+ expand r' matched group before after
            else if Ascii.eqb d "0"%char then
              match r' with
              | String e r'' =>
                  if Ascii.eqb e "1"%char then
                    group +:+ expand r'' matched group before after
                  else String c (expand r matched group before after)
              | EmptyString => String c (expand r matched group before after)
              end
            else String c (expand r matched group before after)
        | EmptyString => String c EmptyString
        end
      else String c (expand r matched group before after)
  end.

(** [line.replace(/- \[([^\]])\]/, `- [${newStatus}]`)] *)
Definition replaceStatus (line newStatus : string) : string :=
  match findStatus line 0 with
  | None => line
  | Some (i, c) =>
      let matched := "- [" +:+ String c "]" in
      let before := Js.substringTo i line in
      let after := Js.substringFrom (i + 5) line in
      before +:+
      expand ("- [" +:+ newStatus +:+ "]") matched (String c EmptyString) before after
      +:+ after
  end.

(** The action [updateTaskStatus] queues. *)
Definition updateStatusAction
    (settings : ClockKanbanSettings) (column : string)
    (vault : Vault) (task : KanbanTask) : Vault * KanbanTask :=
  match vault !! sourcePath task with
  | None => (vault, task)
  | Some content =>
      let lines := Js.split content in
      let currentLine :=
        Locator.findTaskInLines lines (description task) (lineNumber task) in
      if (currentLine =? -1)%Z then (vault, task)
      else
        let task' := setLineNumber currentLine task in
        match lines !! Z.to_nat currentLine with
        | None => (vault, task')
        | Some line =>
            let newStatus :=
              Js.orElse
                (match Ingestion.findByName (columns settings) column with
                 | Some colConfig => symbol colConfig
                 | None => EmptyString
                 end) " " in
            let updatedLine := replaceStatus line newStatus in
            if String.eqb updatedLine line then (vault, task')
            else
              (<[sourcePath task :=
                   Js.join (<[Z.to_nat currentLine := updatedLine]> lines)]> vault,
               task')
        end
  end.

(** What [queueFileAction] is given. *)
Inductive FileAction :=
| ClockProperty (type : ClockType)
| StatusSymbol (column : string).

(** The state a transition works on: the vault, the task object shared by
    [handleTaskMove] and the actions it queues, and the calls of
    [queueFileAction] so far, oldest first, each with its path. *)
Record World := {
  vault : Vault;
  task : KanbanTask;
  queued : list (string * FileAction)
}.

(** An [async] method, seen from a caller that awaits it. *)
Definition Async (A : Type) : Type := World -> A * World.

Definition ret {A} (a : A) : Async A := fun w => (a, w).

Definition bind {A B} (m : Async A) (k : A -> Async B) : Async B :=
  fun w => let '(a, w') := m w in k a w'.

Notation "'await' m ;; k" := (bind m (fun _ => k))
  (at level 100, m at next level, k at level 200, right associativity).

Definition whenA (b : bool) (m : Async unit) : Async unit :=
  if b then m else ret tt.

(** An assignment to a field of the task object. *)
Definition updateTask (f : KanbanTask -> KanbanTask) : Async unit :=
  fun w => (tt, {| vault := vault w; task := f (task w); queued := queued w |}).

(** [await this.queueFileAction(path, action)]: the call puts the action at
    the end of the chain of [path], and the promise it returns settles after
    the action has run (theorem [awaited_action_has_run] on the chain of
    the module [Queue]), so the caller resumes on the vault the action
    left. *)
Definition queueFileAction
    (path : string) (what : FileAction)
    (action : Vault -> KanbanTask -> Vault * KanbanTask) : Async unit :=
  fun w =>
    let '(v, t) := action (vault w) (task w) in
    (tt, {| vault := v; task := t; queued := queued w ++ [(path, what)] |}).

Definition manageClockProperty (type : ClockType) (timestamp : string) : Async unit :=
  fun w =>
    queueFileAction (sourcePath (task w)) (ClockProperty type)
      (manageClockAction type timestamp) w.

Definition updateTaskStatus (settings : ClockKanbanSettings) (column : string)
  : Async unit :=
  fun w =>
    queueFileAction (sourcePath (task w)) (StatusSymbol column)
      (updateStatusAction settings column) w.

Definition clockIn (settings : ClockKanbanSettings) (timestamp : string) : Async unit :=
  if negb (autoClockInOut settings) then ret tt
  else manageClockProperty clockStartType timestamp.

Definition clockOut (settings : ClockKanbanSettings) (timestamp : string) : Async unit :=
  if negb (autoClockInOut settings) then ret tt
  else manageClockProperty clockEndType timestamp.

(** [handleTaskMove].  [timestamp] is what [moment().format(...)] gives
    inside the queued action, [shown] what
    [moment().format(settings.timeFormat)] gives for the cached times. *)
Definition handleTaskMove
    (settings : ClockKanbanSettings) (timestamp shown : string)
    (sourceColumn targetColumn : string) : Async unit :=
  await whenA
    (String.eqb sourceColumn (clockColumn settings)
     && negb (String.eqb targetColumn (clockColumn settings))
     && autoClockInOut settings)
    (await clockOut settings timestamp ;;
     await updateTask (setIsClockedIn false) ;;
     updateTask (setEndTime shown)) ;;
  await whenA
    (String.eqb targetColumn (clockColumn settings)
     && negb (String.eqb sourceColumn (clockColumn settings))
     && autoClockInOut settings)
    (await clockIn settings timestamp ;;
     await updateTask (setIsClockedIn true) ;;
     updateTask (setStartTime shown)) ;;
  await updateTask (setColumn targetColumn) ;;
  updateTaskStatus settings targetColumn.

End Plugin.

(** ** Document Mutation Queue: [queueFileAction] on a model of promises

    A promise of the chain is [Pending] or settled.  A reaction registered
    by [then] or [catch] on a promise runs, as a job of its own, at some
    time after that promise has settled; an action that was started
    finishes, fulfilled or rejected, at some later time.  The steps below
    let these jobs and the calls of [queueFileAction] interleave in every
    order, which covers the order the event loop chooses. *)

Module Queue.

Inductive Settlement := Fulfilled | Rejected.

Inductive PromiseState := Pending | Settled (o : Settlement).

(** What runs when the promise a reaction is registered on has settled. *)
Inductive Reaction :=
| ThenAction (action : nat)   (* [.then(action)] *)
| CatchLog (path : string)    (* [.catch(err => console.error(...))] *)
| Adopt.                      (* the promise [then] returned follows the
                                 promise the action returned *)

Record Registered := {
  source : nat;
  reaction : Reaction;
  derived : nat
}.

Inductive Event :=
| Started (action : nat)
| Finished (action : nat) (o : Settlement)
| Skipped (action : nat)
| Logged (path : string).

(** Promises and actions are numbered in the order they are created.
    [running] pairs each started, unfinished action with the promise its
    [async] body returned; [submitted] holds the path of every action
    given to [queueFileAction], in submission order; [trace] is oldest
    first. *)
Record Runtime := {
  promises : list PromiseState;
  reactions : list Registered;
  running : list (nat * nat);
  modificationQueue : gmap string nat;
  submitted : list string;
  trace : list Event
}.

Definition initial : Runtime :=
  {| promises := []; reactions := []; running := [];
     modificationQueue := ∅; submitted := []; trace := [] |}.

Definition Op (A : Type) : Type := Runtime -> A * Runtime.

Definition ret {A} (a : A) : Op A := fun rt => (a, rt).

Definition bind {A B} (m : Op A) (k : A -> Op B) : Op B :=
  fun rt => let '(a, rt') := m rt in k a rt'.

Notation "x <- m ;; k" := (bind m (fun x => k))
  (at level 100, m at next level, k at level 200, right associativity).

(** A new promise in the given state; its number is returned. *)
Definition newPromise (st : PromiseState) : Op nat :=
  fun rt =>
    (length (promises rt),
     {| promises := promises rt ++ [st]; reactions := reactions rt;
        running := running rt; modificationQueue := modificationQueue rt;
        submitted := submitted rt; trace := trace rt |}).

Definition register (r : Registered) : Op unit :=
  fun rt =>
    (tt,
     {| promises := promises rt; reactions := reactions rt ++ [r];
        running := running rt; modificationQueue := modificationQueue rt;
        submitted := submitted rt; trace := trace rt |}).

(** [Promise.resolve()] *)
Definition promiseResolve : Op nat := newPromise (Settled Fulfilled).

(** [p.then(...)] and [p.catch(...)]: a new pending promise, settled later
    by the reaction. *)
Definition promiseReact (p : nat) (r : Reaction) : Op nat :=
  q <- newPromise Pending ;;
  _ <- register {| source := p; reaction := r; derived := q |} ;;
  ret q.

(** [this.modificationQueue.get(path)] *)
Definition queueGet (path : string) : Op (option nat) :=
  fun rt => (modificationQueue rt !! path, rt).

(** [this.modificationQueue.set(path, p)] *)
Definition queueSet (path : string) (p : nat) : Op unit :=
  fun rt =>
    (tt,
     {| promises := promises rt; reactions := reactions rt;
        running := running rt;
        modificationQueue := <[path := p]> (modificationQueue rt);
        submitted := submitted rt; trace := trace rt |}).

(** The action given to [queueFileAction] gets the next number. *)
Definition submit (path : string) : Op nat :=
  fun rt =>
    (length (submitted rt),
     {| promises := promises rt; reactions := reactions rt;
        running := running rt; modificationQueue := modificationQueue rt;
        submitted := submitted rt ++ [path]; trace := trace rt |}).

(** [queueFileAction(path, action)]; the result is [nextAction]. *)
Definition queueFileAction (path : string) : Op nat :=
  action <- submit path ;;
  tail <- queueGet path ;;
  currentAction <- match tail with
                   | Some p => ret p
                   | None => promiseResolve
                   end ;;
  thenPromise <- promiseReact currentAction (ThenAction action) ;;
  nextAction <- promiseReact thenPromise (CatchLog path) ;;
  _ <- queueSet path nextAction ;;
  ret nextAction.

Definition settle (p : nat) (o : Settlement) : Op unit :=
  fun rt =>
    (tt,
     {| promises := <[p := Settled o]> (promises rt); reactions := reactions rt;
        running := running rt; modificationQueue := modificationQueue rt;
        submitted := submitted rt; trace := trace rt |}).

Definition emit (e : Event) : Op unit :=
  fun rt =>
    (tt,
     {| promises := promises rt; reactions := reactions rt;
        running := running rt; modificationQueue := modificationQueue rt;
        submitted := submitted rt; trace := trace rt ++ [e] |}).

Definition setReactions (rs : list Registered) : Op unit :=
  fun rt =>
    (tt,
     {| promises := promises rt; reactions := rs;
        running := running rt; modificationQueue := modificationQueue rt;
        submitted := submitted rt; trace := trace rt |}).

Definition setRunning (rn : list (nat * nat)) : Op unit :=
  fun rt =>
    (tt,
     {| promises := promises rt; reactions := reactions rt;
        running := rn; modificationQueue := modificationQueue rt;
        submitted := submitted rt; trace := trace rt |}).

(** The job of a reaction whose source promise settled as [o].
    - [then(action)] on a fulfilled promise calls the action: the action
      starts, and the promise [then] returned follows the promise of the
      action; on a rejected promise the action is not called and the
      rejection is passed on.
    - [catch(handler)] passes a fulfilment on; on a rejection the handler
      logs and returns, which fulfils the promise [catch] returned. *)
Definition runReaction (r : Registered) (o : Settlement) : Op unit :=
  match reaction r, o with
  | ThenAction action, Fulfilled =>
      _ <- emit (Started action) ;;
      p <- newPromise Pending ;;
      _ <- (fun rt => setRunning (running rt ++ [(action, p)])%list rt) ;;
      register {| source := p; reaction := Adopt; derived := derived r |}
  | ThenAction action, Rejected =>
      _ <- emit (Skipped action) ;;
      settle (derived r) Rejected
  | CatchLog path, Fulfilled => settle (derived r) Fulfilled
  | CatchLog path, Rejected =>
      _ <- emit (Logged path) ;;
      settle (derived r) Fulfilled
  | Adopt, _ => settle (derived r) o
  end.

(** A started action finishes: its promise settles. *)
Definition finishAction (action p : nat) (o : Settlement) : Op unit :=
  _ <- emit (Finished action o) ;;
  settle p o.

Inductive step : Runtime -> Runtime -> Prop :=
| step_queue rt path :
    step rt (snd (queueFileAction path rt))
| step_react rt (before : list Registered) r after o :
    reactions rt = (before ++ r :: after)%list ->
    promises rt !! source r = Some (Settled o) ->
    step rt (snd ((_ <- setReactions (before ++ after)%list ;; runReaction r o) rt))
| step_finish rt (before : list (nat * nat)) action p after o :
    running rt = (before ++ (action, p) :: after)%list ->
    step rt (snd ((_ <- setRunning (before ++ after)%list ;; finishAction action p o) rt)).

Inductive reachable : Runtime -> Prop :=
| reachable_initial : reachable initial
| reachable_step rt rt' : reachable rt -> step rt rt' -> reachable rt'.

(** A schedule names the steps of a run: a call of [queueFileAction], the
    job of the [i]-th registered reaction, the end of the [i]-th running
    action. *)
Inductive Command :=
| Call (path : string)
| React (i : nat)
| Finish (i : nat) (o : Settlement).

Definition exec (c : Command) (rt : Runtime) : option Runtime :=
  match c with
  | Call path => Some (snd (queueFileAction path rt))
  | React i =>
      match reactions rt !! i with
      | Some r =>
          match promises rt !! source r with
          | Some (Settled o) =>
              Some (snd ((_ <- setReactions
                                 (take i (reactions rt) ++ drop (S i) (reactions rt))%list ;;
                          runReaction r o) rt))
          | _ => None
          end
      | None => None
      end
  | Finish i o =>
      match running rt !! i with
      | Some (action, p) =>
          Some (snd ((_ <- setRunning
                             (take i (running rt) ++ drop (S i) (running rt))%list ;;
                      finishAction action p o) rt))
      | None => None
      end
  end.

Fixpoint run (schedule : list Command) (rt : Runtime) : option Runtime :=
  match schedule with
  | [] => Some rt
  | c :: rest =>
      match exec c rt with
      | Some rt' => run rest rt'
      | None => None
      end
  end.

End Queue.

(** ** The invariant of the chains

    Every promise of a reachable runtime has one of four origins, its
    role; the invariant ties the state of a promise to the trace through
    its role, and every registered reaction to the chain it belongs to. *)

Module QueueInv.

Import Queue.

Inductive Role :=
| RoleInit            (* [Promise.resolve()], the head of a chain *)
| RoleThen (a : nat)  (* [currentAction.then(action)] for action [a] *)
| RoleNext (a : nat)  (* [nextAction] for action [a]: the tail after [a] *)
| RoleBody (a : nat). (* the promise the body of action [a] returned *)

Definition finished (tr : list Event) (a : nat) : Prop :=
  exists o, Finished a o ∈ tr.

(** In every occurrence of [Started a2], every earlier action of the same
    path has finished before. *)
Definition ordered (sub : list string) (tr : list Event) : Prop :=
  forall (before after : list Event) a1 a2 path,
    tr = (before ++ Started a2 :: after)%list ->
    (a1 < a2)%nat -> sub !! a1 = Some path -> sub !! a2 = Some path ->
    exists o, Finished a1 o ∈ before.

Definition promiseOk (tr : list Event) (role : Role) (st : PromiseState) : Prop :=
  match role with
  | RoleInit => st = Settled Fulfilled
  | RoleNext a => st = Pending \/ (st = Settled Fulfilled /\ finished tr a)
  | RoleThen a => st = Pending \/ finished tr a
  | RoleBody a => st = Pending \/ finished tr a
  end.

(** The promise [then(action)] of action [a] is registered on: the head of
    a new chain, when no earlier action has the path of [a]; or the tail
    left by the last earlier action [b] with that path. *)
Definition chainSource (roles : list Role) (sub : list string) (s a : nat) : Prop :=
  (roles !! s = Some RoleInit
   /\ forall b, (b < a)%nat -> sub !! b <> sub !! a)
  \/ (exists b, roles !! s = Some (RoleNext b) /\ (b < a)%nat
                /\ sub !! b = sub !! a
                /\ forall c, (c < a)%nat -> sub !! c = sub !! a -> (c <= b)%nat).

Definition reactionOk (roles : list Role) (sub : list string) (r : Registered) : Prop :=
  match reaction r with
  | ThenAction a =>
      roles !! derived r = Some (RoleThen a) /\ (a < length sub)%nat
      /\ chainSource roles sub (source r) a
  | CatchLog _ =>
      exists a, roles !! source r = Some (RoleThen a)
                /\ roles !! derived r = Some (RoleNext a)
  | Adopt =>
      exists a, roles !! source r = Some (RoleBody a)
                /\ roles !! derived r = Some (RoleThen a)
  end.

Definition runningOk (roles : list Role) (tr : list Event) (ap : nat * nat) : Prop :=
  roles !! ap.2 = Some (RoleBody ap.1) /\ Started ap.1 ∈ tr.

Definition queueOk (roles : list Role) (sub : list string)
    (queue : gmap string nat) (path : string) : Prop :=
  match queue !! path with
  | Some p =>
      exists b, roles !! p = Some (RoleNext b) /\ sub !! b = Some path
                /\ forall c, sub !! c = Some path -> (c <= b)%nat
  | None => forall c, sub !! c <> Some path
  end.

(** The reactions of the chain of one action. *)
Definition thenReaction (s a pThen : nat) : Registered :=
  {| source := s; reaction := ThenAction a; derived := pThen |}.

Definition adoptReaction (pBody pThen : nat) : Registered :=
  {| source := pBody; reaction := Adopt; derived := pThen |}.

Definition catchReaction (path : string) (pThen pNext : nat) : Registered :=
  {| source := pThen; reaction := CatchLog path; derived := pNext |}.

Definition settled (rt : Runtime) (p : nat) : Prop :=
  exists o, promises rt !! p = Some (Settled o).

(** How far action [a] of [path] has come: its tail is fulfilled; or its
    [catch] is still registered and its [then] promise has settled, or its
    body has been started (and has settled or is running), or its
    [then(action)] is still registered. *)
Definition phase (rt : Runtime) (roles : list Role) (a : nat) (path : string) : Prop :=
  exists pThen pNext,
    roles !! pThen = Some (RoleThen a) /\ roles !! pNext = Some (RoleNext a)
    /\ (promises rt !! pNext = Some (Settled Fulfilled)
        \/ (catchReaction path pThen pNext ∈ reactions rt
            /\ (settled rt pThen
                \/ (exists pBody,
                      roles !! pBody = Some (RoleBody a)
                      /\ adoptReaction pBody pThen ∈ reactions rt
                      /\ (settled rt pBody \/ (a, pBody) ∈ running rt))
                \/ (exists s, thenReaction s a pThen ∈ reactions rt)))).

Definition actionOf (role : Role) : option nat :=
  match role with
  | RoleInit => None
  | RoleThen a | RoleNext a | RoleBody a => Some a
  end.

Record Inv (rt : Runtime) (roles : list Role) : Prop := {
  inv_promises : Forall2 (promiseOk (trace rt)) roles (promises rt);
  inv_reactions : Forall (reactionOk roles (submitted rt)) (reactions rt);
  inv_running : Forall (runningOk roles (trace rt)) (running rt);
  inv_queue : forall path, queueOk roles (submitted rt) (modificationQueue rt) path;
  inv_ordered : ordered (submitted rt) (trace rt);
  inv_started : forall a, Started a ∈ trace rt -> (a < length (submitted rt))%nat;
  inv_finished : forall a, finished (trace rt) a -> Started a ∈ trace rt;
  inv_noskip : forall a, Skipped a ∉ trace rt
}.

(** The second half of the invariant: every promise of an action is the
    only one with its role, and every submitted action is in one of the
    phases of its chain. *)
Record Live (rt : Runtime) (roles : list Role) : Prop := {
  live_roles_inj :
    forall p q role, role <> RoleInit ->
                     roles !! p = Some role -> roles !! q = Some role -> p = q;
  live_roles_bound :
    forall p role a, roles !! p = Some role -> actionOf role = Some a ->
                     (a < length (submitted rt))%nat;
  live_body_started :
    forall p a, roles !! p = Some (RoleBody a) -> Started a ∈ trace rt;
  live_waiting :
    forall r a, r ∈ reactions rt -> reaction r = ThenAction a ->
                Started a ∉ trace rt;
  live_derived : NoDup (derived <$> reactions rt);
  live_phase :
    forall a path, submitted rt !! a = Some path -> phase rt roles a path
}.

(** The roles of the promises a step creates. *)
Definition callRoles (rt : Runtime) (path : string) : list Role :=
  match modificationQueue rt !! path with
  | Some _ => [RoleThen (length (submitted rt)); RoleNext (length (submitted rt))]
  | None => [RoleInit; RoleThen (length (submitted rt)); RoleNext (length (submitted rt))]
  end.

Definition reactRoles (r : Registered) (o : Settlement) : list Role :=
  match reaction r, o with
  | ThenAction a, Fulfilled => [RoleBody a]
  | _, _ => []
  end.

(** An event that belongs to the chain of [path]. *)
Definition eventOn (sub : list string) (path : string) (e : Event) : Prop :=
  match e with
  | Started a | Finished a _ | Skipped a => sub !! a = Some path
  | Logged p => p = path
  end.

Definition Full (rt : Runtime) (roles : list Role) : Prop :=
  Inv rt roles /\ Live rt roles.

Definition tailSettled (rt : Runtime) (roles : list Role) (a : nat) : Prop :=
  exists pNext, roles !! pNext = Some (RoleNext a)
                /\ promises rt !! pNext = Some (Settled Fulfilled).

(** From [rt] a schedule without [Call] leads to [rt'], adding only events
    of the chain of [path]; the roles are extended. *)
Definition Advance (path : string) (rt : Runtime) (roles : list Role)
    (rt' : Runtime) (roles' : list Role) : Prop :=
  exists (schedule : list Command) (more : list Role) (new : list Event),
    run schedule rt = Some rt'
    /\ Forall (fun c => forall p, c <> Call p) schedule
    /\ roles' = (roles ++ more)%list
    /\ submitted rt' = submitted rt
    /\ trace rt' = (trace rt ++ new)%list
    /\ Forall (eventOn (submitted rt) path) new.

(** The action is ready: its [then(action)], if still registered, is
    registered on a settled promise. *)
Definition ready (rt : Runtime) (a : nat) : Prop :=
  forall s pThen, thenReaction s a pThen ∈ reactions rt -> settled rt s.

End QueueInv.

(** ** Predicates the statements below are written with *)

Module Spec.

(** Line [i] of the document contains the task marker and the description. *)
Definition matchesAt (lines : list string) (description : string) (i : nat) : Prop :=
  exists l, lines !! i = Some l /\ Locator.isTaskLine description l = true.

(** The hint is in bounds and points at a matching line. *)
Definition hintHolds (lines : list string) (description : string) (hint : Z) : Prop :=
  (0 <= hint < Z.of_nat (length lines))%Z
  /\ matchesAt lines description (Z.to_nat hint).

(** [i] is the first matching line. *)
Definition firstMatch (lines : list string) (description : string) (i : nat) : Prop :=
  matchesAt lines description i
  /\ forall j, (j < i)%nat -> ~ matchesAt lines description j.

(** The annotation run at the head of [rest]: the lines up to the first
    one that is no annotation-only line. *)
Fixpoint annotationRun (rest : list string) : list string :=
  match rest with
  | l :: rest' => if Annotator.isClockLine l then l :: annotationRun rest' else []
  | [] => []
  end.

(** What a timestamp of the format [YYYY-MM-DDTHH:mm:ss] never has: it is
    not empty and contains no [']'], no ["--"] and no line terminator. *)
Definition validStamp (t : string) : bool :=
  negb (String.eqb t EmptyString)
  && negb (Js.includes t "]")
  && negb (Js.includes t "--")
  && negb (Js.includes t (String Js.LF EmptyString))
  && negb (Js.includes t (String Js.CR EmptyString)).

(** A line as [split] yields it: without a line feed. *)
Definition noLineFeed (l : string) : Prop :=
  Js.includes l (String Js.LF EmptyString) = false.

(** The open token [[clock::t0]] on a line of its own. *)
Definition openLine (t0 : string) : string :=
  Annotator.indentation +:+ "[clock::" +:+ t0 +:+ "]".

(** The closed token [[clock::t0--t1]] on a line of its own. *)
Definition closedLine (t0 t1 : string) : string :=
  Annotator.indentation +:+ "[clock::" +:+ t0 +:+ "--" +:+ t1 +:+ "]".

(** The interval action a transition queues: a close when the task leaves
    the clock column, an open when it enters it. *)
Definition intervalType (settings : ClockKanbanSettings) (sourceColumn : string)
  : Plugin.ClockType :=
  if String.eqb sourceColumn (clockColumn settings)
  then Plugin.clockEndType else Plugin.clockStartType.

(** What [handleTaskMove] does to the task object between the two actions. *)
Definition betweenActions
    (settings : ClockKanbanSettings) (shown sourceColumn targetColumn : string)
    (t : KanbanTask) : KanbanTask :=
  setColumn targetColumn
    (if String.eqb sourceColumn (clockColumn settings)
     then setEndTime shown (setIsClockedIn false t)
     else setStartTime shown (setIsClockedIn true t)).

(** [c] is the first element of [cols] that [test] accepts. *)
Definition firstWith
    (test : KanbanColumnConfig -> bool) (cols : list KanbanColumnConfig)
    (c : KanbanColumnConfig) : Prop :=
  exists before after : list KanbanColumnConfig,
    cols = (before ++ c :: after)%list
    /\ test c = true
    /\ Forall (fun c' => test c' = false) before.

(** No element of [cols] is accepted by [test]. *)
Definition noneWith
    (test : KanbanColumnConfig -> bool) (cols : list KanbanColumnConfig) : Prop :=
  Forall (fun c => test c = false) cols.

Definition hasSymbol (s : string) (c : KanbanColumnConfig) : bool :=
  String.eqb (symbol c) s.

Definition hasName (n : string) (c : KanbanColumnConfig) : bool :=
  String.eqb (name c) n.

Definition namedDone (c : KanbanColumnConfig) : bool :=
  String.eqb (Js.toLowerCase (name c)) "done".

(** An open interval marker stands in the annotation run directly below
    line [lineNumber task] of the file of the task. *)
Definition openMarkerBelow (vault : Vault) (task : KanbanTask) : Prop :=
  exists content,
    vault !! sourcePath task = Some content
    /\ (0 <= lineNumber task < Z.of_nat (length (Js.split content)))%Z
    /\ Exists (fun l => Annotator.openClockTest l = true)
         (annotationRun (drop (Z.to_nat (lineNumber task) + 1) (Js.split content))).

(** The line the Task Locator resolves the task to: what [findTaskInLines]
    returns on the lines of the file of the task, the way
    [manageClockProperty] and [updateTaskStatus] anchor the task before
    they edit.  [None] when the file is not in the vault or the locator
    finds no line. *)
Definition resolvedLine (vault : Vault) (task : KanbanTask) : option nat :=
  match vault !! sourcePath task with
  | None => None
  | Some content =>
      let found :=
        Locator.findTaskInLines (Js.split content) (description task)
          (lineNumber task) in
      if (found <? 0)%Z then None else Some (Z.to_nat found)
  end.

(** An open interval marker stands in the annotation run directly below
    line [i] of the file of the task. *)
Definition openMarkerBelowLine (vault : Vault) (task : KanbanTask) (i : nat) : Prop :=
  exists content,
    vault !! sourcePath task = Some content
    /\ Exists (fun l => Annotator.openClockTest l = true)
         (annotationRun (drop (i + 1) (Js.split content))).

End Spec.

(** ** The board of the scenario: TODO, Working (the clock column), Done *)

Module Scenario.

Definition todoColumn : KanbanColumnConfig :=
  {| colType := "TODO"; name := "TODO"; color := "#6b7280"; symbol := " " |}.

Definition workingColumn : KanbanColumnConfig :=
  {| colType := "Working"; name := "Working"; color := "#3b82f6"; symbol := "/" |}.

Definition doneColumn : KanbanColumnConfig :=
  {| colType := "Done"; name := "Done"; color := "#10b981"; symbol := "x" |}.

Definition settingsWith (cols : list KanbanColumnConfig) : ClockKanbanSettings :=
  {| autoClockInOut := true; clockColumn := "Working";
     showCompletedTasks := false; timeFormat := "HH:mm"; columns := cols |}.

Definition settings : ClockKanbanSettings :=
  settingsWith [todoColumn; workingColumn; doneColumn].

(** The record of the task "Buy milk" on line 1 of [a.md], with the given
    status symbol. *)
Definition buyMilk (sym : string) : RawTask :=
  {| raw_id := None; raw_path := Some "a.md"; raw_sourcePath := None;
     raw_lineNumber := Some 1%Z; raw_description := Some "Buy milk";
     raw_text := None; raw_status := StatusObject (Some sym);
     raw_priority := None; raw_tags := None; raw_dueDate := None;
     raw_isClockedIn := false; raw_startTime := None; raw_endTime := None |}.

(** A vault with the one file [a.md]. *)
Definition vaultWith (content : string) : Vault := {[ "a.md" := content ]}.

(** What [parseTask] makes of [buyMilk "/"] on the board above. *)
Definition workingTask : KanbanTask :=
  {| id := "a.md-1"; description := "Buy milk"; column := "Working";
     status := todo; startTime := None; endTime := None;
     sourcePath := "a.md"; lineNumber := 1; priority := None;
     tags := []; dueDate := None; isClockedIn := true |}.

(** A document where the task has no annotation line below it. *)
Definition plainDocument : string :=
  Js.join ["# Today"; "- [/] Buy milk"; "- [ ] Other"].

(** The task "Buy milk" in the column TODO, with the plain document in the
    vault and nothing queued yet. *)
Definition world : Plugin.World :=
  {| Plugin.vault := vaultWith (Js.join ["# Today"; "- [ ] Buy milk"; "- [ ] Other"]);
     Plugin.task :=
       {| id := "a.md-1"; description := "Buy milk"; column := "TODO";
          status := todo; startTime := None; endTime := None;
          sourcePath := "a.md"; lineNumber := 1; priority := None;
          tags := []; dueDate := None; isClockedIn := false |};
     Plugin.queued := [] |}.

(** A document where the task has an open interval below it. *)
Definition clockedDocument : string :=
  Js.join ["# Today"; "- [ ] Buy milk"; "      [clock::2026-01-01T10:00:00]"].

End Scenario.

(** ** What a file action may do to the vault and to the task object *)

Module Effect.

(** The vault [v'] is [v], or [v] with new content for the file [path],
    which was there before. *)
Definition writesOnly (path : string) (v v' : Vault) : Prop :=
  v' = v \/ exists old new, v !! path = Some old /\ v' = <[path := new]> v.

(** The task object [t'] is [t] up to its line number. *)
Definition relocated (t t' : KanbanTask) : Prop :=
  exists n, t' = setLineNumber n t.

(** The two occasions on which [handleTaskMove] calls for an interval
    action. *)
Definition leaving (settings : ClockKanbanSettings) (sourceColumn targetColumn : string)
  : bool :=
  String.eqb sourceColumn (clockColumn settings)
  && negb (String.eqb targetColumn (clockColumn settings))
  && autoClockInOut settings.

Definition entering (settings : ClockKanbanSettings) (sourceColumn targetColumn : string)
  : bool :=
  String.eqb targetColumn (clockColumn settings)
  && negb (String.eqb sourceColumn (clockColumn settings))
  && autoClockInOut settings.

End Effect.

(** ** Records of the Tasks plugin for the examples *)

Module Records.

(** A record of the file [a.md] without an id, on the given line. *)
Definition onLine (n : Z) (text : string) : RawTask :=
  {| raw_id := None; raw_path := Some "a.md"; raw_sourcePath := None;
     raw_lineNumber := Some n; raw_description := Some text;
     raw_text := None; raw_status := StatusObject (Some " ");
     raw_priority := None; raw_tags := None; raw_dueDate := None;
     raw_isClockedIn := false; raw_startTime := None; raw_endTime := None |}.

End Records.

(** ** The view and the commands: drag and drop, [moveTaskToColumn],
    [manualClockIn], [manualClockOut]

    The handlers and commands are taken as the sequential methods they
    are for a caller that awaits them, as [handleTaskMove] is in [Plugin].
    Rendering, notices and console output are left out. *)

Module View.

(** The fields of [KanbanView] the handlers read and write. *)
Record KanbanView := {
  tasks : list KanbanTask;
  draggedTaskId : option string;
  draggedSourceColumn : option string
}.

(** The plugin with its view; [kanbanView] is [None] for [null]. *)
Record State := {
  vault : Vault;
  queued : list (string * Plugin.FileAction);
  kanbanView : option KanbanView
}.

(** A [string | null] in a condition: [null] and the empty string are
    falsy. *)
Definition truthy (o : option string) : option string :=
  match o with
  | Some s => if String.eqb s EmptyString then None else Some s
  | None => None
  end.

(** [tasks.find(t => t.id === taskId)], with the index of the task found. *)
Definition findById (taskId : string) (ts : list KanbanTask)
  : option (nat * KanbanTask) :=
  list_find (fun t => id t = taskId) ts.

(** [tasks.filter(t => t.column === 'Working')[0]], with its index. *)
Definition firstWorking (ts : list KanbanTask) : option (nat * KanbanTask) :=
  list_find (fun t => column t = "Working") ts.

(** A method of the plugin called on the task object at index [k] of the
    list: the object is shared with the list, so what the method does to
    it shows there. *)
Definition onTask
    (k : nat) (t : KanbanTask) (m : Plugin.Async unit)
    (view : KanbanView) (s : State) : State :=
  let w := snd (m {| Plugin.vault := vault s; Plugin.task := t;
                     Plugin.queued := queued s |}) in
  {| vault := Plugin.vault w;
     queued := Plugin.queued w;
     kanbanView :=
       Some {| tasks := <[k := Plugin.task w]> (tasks view);
               draggedTaskId := draggedTaskId view;
               draggedSourceColumn := draggedSourceColumn view |} |}.

(** The [dragstart] listener of the element of the task at index [k]. *)
Definition dragStart (k : nat) (s : State) : State :=
  match kanbanView s with
  | Some view =>
      match tasks view !! k with
      | Some t =>
          {| vault := vault s; queued := queued s;
             kanbanView :=
               Some {| tasks := tasks view;
                       draggedTaskId := Some (id t);
                       draggedSourceColumn := Some (column t) |} |}
      | None => s
      end
  | None => s
  end.

(** The [dragend] listener. *)
Definition dragEnd (s : State) : State :=
  match kanbanView s with
  | Some view =>
      {| vault := vault s; queued := queued s;
         kanbanView :=
           Some {| tasks := tasks view;
                   draggedTaskId := None;
                   draggedSourceColumn := None |} |}
  | None => s
  end.

(** The [drop] listener of the column element of type [columnType]. *)
Definition drop
    (settings : ClockKanbanSettings) (timestamp shown : string)
    (columnType : string) (s : State) : State :=
  match kanbanView s with
  | Some view =>
      match truthy (draggedTaskId view), truthy (draggedSourceColumn view) with
      | Some taskId, Some sourceColumn =>
          if String.eqb sourceColumn columnType then s
          else
            match findById taskId (tasks view) with
            | Some (k, t) =>
                onTask k t
                  (Plugin.handleTaskMove settings timestamp shown
                     sourceColumn columnType) view s
            | None => s
            end
      | _, _ => s
      end
  | None => s
  end.

(** [moveTaskToColumn(taskId, column)] and the boolean it returns. *)
Definition moveTaskToColumn
    (settings : ClockKanbanSettings) (timestamp shown : string)
    (taskId targetColumn : string) (s : State) : bool * State :=
  match kanbanView s with
  | None => (false, s)
  | Some view =>
      match findById taskId (tasks view) with
      | None => (false, s)
      | Some (k, t) =>
          (true,
           onTask k t
             (Plugin.handleTaskMove settings timestamp shown (column t) targetColumn)
             view s)
      end
  end.

(** [manualClockIn]; [activeFile] is what [getActiveFile()] returns. *)
Definition manualClockIn
    (settings : ClockKanbanSettings) (timestamp : string)
    (activeFile : option string) (s : State) : State :=
  match activeFile with
  | None => s
  | Some _ =>
      match kanbanView s with
      | Some view =>
          match firstWorking (tasks view) with
          | Some (k, t) => onTask k t (Plugin.clockIn settings timestamp) view s
          | None => s
          end
      | None => s
      end
  end.

(** [manualClockOut] *)
Definition manualClockOut
    (settings : ClockKanbanSettings) (timestamp : string) (s : State) : State :=
  match kanbanView s with
  | Some view =>
      match firstWorking (tasks view) with
      | Some (k, t) => onTask k t (Plugin.clockOut settings timestamp) view s
      | None => s
      end
  | None => s
  end.

End View.

(** ** A board for the examples *)

Module Boards.

(** Two tasks of [a.md] as [parseTasks] makes them from records without
    ids: the task of line 1 first, then the task of line 0, which gets the
    id of its index 1. *)
Definition twins : View.State :=
  {| View.vault :=
       Scenario.vaultWith (Js.join ["- [ ] Buy milk"; "- [ ] Call Ann"]);
     View.queued := [];
     View.kanbanView :=
       Some {| View.tasks :=
                 Ingestion.parseTasks Scenario.settings ""
                   [Records.onLine 1 "Call Ann"; Records.onLine 0 "Buy milk"];
               View.draggedTaskId := None;
               View.draggedSourceColumn := None |} |}.

(** The task "Buy milk" in the column Working, with the plain document
    in the vault. *)
Definition working : View.State :=
  {| View.vault := Scenario.vaultWith Scenario.plainDocument;
     View.queued := [];
     View.kanbanView :=
       Some {| View.tasks := [Scenario.workingTask];
               View.draggedTaskId := None;
               View.draggedSourceColumn := None |} |}.

(** The task "Buy milk" in the column TODO, with the plain document in
    the vault. *)
Definition todo : View.State :=
  {| View.vault := Plugin.vault Scenario.world;
     View.queued := [];
     View.kanbanView :=
       Some {| View.tasks := [Plugin.task Scenario.world];
               View.draggedTaskId := None;
               View.draggedSourceColumn := None |} |}.

End Boards.

(** ** What the board shows: the data of [render] and [renderColumn]

    The elements themselves are not modelled; what is kept is which
    tasks a column gets elements for, and in which order.  The view's
    [columns] is the array of the settings itself
    ([this.columns = this.plugin.settings.columns]), so what the settings
    tab does to that array is what the next [render] goes through. *)

Module Render.

(** [this.tasks.filter(t => t.column === column.type)] *)
Definition columnTasks (tasks : list KanbanTask) (col : KanbanColumnConfig)
  : list KanbanTask :=
  List.filter (fun t => String.eqb (column t) (colType col)) tasks.

(** [this.columns.forEach(column => this.renderColumn(board, column))]:
    the columns of the board, each with the tasks it shows. *)
Definition render (columns : list KanbanColumnConfig) (tasks : list KanbanTask)
  : list (KanbanColumnConfig * list KanbanTask) :=
  List.map (fun col => (col, columnTasks tasks col)) columns.

End Render.

(** ** The handlers of the settings tab that change the columns

    Each handler of a column holds the column object and its index as
    they were when the tab was drawn; the tab is drawn again after every
    [splice] and [push], so the object is the one at that index. *)

Module SettingsTab.

Definition setColumns (cols : list KanbanColumnConfig) (s : ClockKanbanSettings)
  : ClockKanbanSettings :=
  {| autoClockInOut := autoClockInOut s; clockColumn := clockColumn s;
     showCompletedTasks := showCompletedTasks s; timeFormat := timeFormat s;
     columns := cols |}.

(** The name field of column [index]: [col.name = val; col.type = val]. *)
Definition onNameChange (index : nat) (val : string) (s : ClockKanbanSettings)
  : ClockKanbanSettings :=
  setColumns
    (alter (fun col => {| colType := val; name := val;
                          color := color col; symbol := symbol col |})
           index (columns s)) s.

(** The colour picker of column [index]: [col.color = val]. *)
Definition onColorChange (index : nat) (val : string) (s : ClockKanbanSettings)
  : ClockKanbanSettings :=
  setColumns
    (alter (fun col => {| colType := colType col; name := name col;
                          color := val; symbol := symbol col |})
           index (columns s)) s.

(** The symbol field of column [index]: [col.symbol = val]. *)
Definition onSymbolChange (index : nat) (val : string) (s : ClockKanbanSettings)
  : ClockKanbanSettings :=
  setColumns
    (alter (fun col => {| colType := colType col; name := name col;
                          color := color col; symbol := val |})
           index (columns s)) s.

(** The trash button of column [index]: [columns.splice(index, 1)]. *)
Definition onRemove (index : nat) (s : ClockKanbanSettings) : ClockKanbanSettings :=
  setColumns (delete index (columns s)) s.

(** The button [Add Column]: [columns.push({...})]. *)
Definition onAdd (s : ClockKanbanSettings) : ClockKanbanSettings :=
  setColumns
    (columns s ++ [{| colType := "New Column"; name := "New Column";
                      color := "#6b7280"; symbol := " " |}]) s.

(** The dropdown of the clock column: [settings.clockColumn = value]. *)
Definition onClockColumnChange (value : string) (s : ClockKanbanSettings)
  : ClockKanbanSettings :=
  {| autoClockInOut := autoClockInOut s; clockColumn := value;
     showCompletedTasks := showCompletedTasks s; timeFormat := timeFormat s;
     columns := columns s |}.

(** What the user does in the tab, one handler after the other.  The tab
    is drawn again after a column is removed or added, so an index is
    always one of the list as it is when the handler runs. *)
Inductive Event :=
| NameChange (index : nat) (val : string)
| ColorChange (index : nat) (val : string)
| SymbolChange (index : nat) (val : string)
| Remove (index : nat)
| Add
| ClockColumnChange (value : string).

Definition handle (e : Event) (s : ClockKanbanSettings) : ClockKanbanSettings :=
  match e with
  | NameChange index val => onNameChange index val s
  | ColorChange index val => onColorChange index val s
  | SymbolChange index val => onSymbolChange index val s
  | Remove index => onRemove index s
  | Add => onAdd s
  | ClockColumnChange value => onClockColumnChange value s
  end.

Definition run (events : list Event) (s : ClockKanbanSettings) : ClockKanbanSettings :=
  fold_left (fun s e => handle e s) events s.

End SettingsTab.

(** * Theorems *)

(** ** JavaScript strings *)

Section JsFacts.

Lemma startsWith_app (p s : string) : Js.startsWith (p +:+ s) p = true.
Proof.
  induction p as [|c p IH]; simpl; [reflexivity|].
  now rewrite Ascii.eqb_refl.
Qed.

Lemma substringTo_app (p s : string) :
  Js.substringTo (String.length p) (p +:+ s) = p.
Proof. induction p as [|c p IH]; simpl; [now destruct s | now rewrite IH]. Qed.

Lemma substringFrom_app (p s : string) :
  Js.substringFrom (String.length p) (p +:+ s) = s.
Proof. induction p as [|c p IH]; simpl; [now destruct s | exact IH]. Qed.

Lemma append_assoc (a b c : string) : (a +:+ b) +:+ c = a +:+ (b +:+ c).
Proof. induction a as [|x a IH]; simpl; [reflexivity | now rewrite IH]. Qed.

Lemma append_empty_r (a : string) : a +:+ EmptyString = a.
Proof. induction a as [|x a IH]; simpl; [reflexivity | now rewrite IH]. Qed.

Lemma length_append (a b : string) :
  String.length (a +:+ b) = (String.length a + String.length b)%nat.
Proof. induction a as [|x a IH]; simpl; [reflexivity | now rewrite IH]. Qed.

End JsFacts.

(** ** Task Locator *)

Section LocatorFacts.

Import Locator Spec.

Variable description : string.

(** The scan returns [-1] when no line matches, and otherwise the offset
    of the first line that does. *)
Lemma scanFrom_cases (lines : list string) (i : Z) :
  (scanFrom description lines i = (-1)%Z
   /\ forall k, ~ matchesAt lines description k)
  \/ (exists k, scanFrom description lines i = (i + Z.of_nat k)%Z
                /\ firstMatch lines description k).
Proof.
  revert i. induction lines as [|l rest IH]; intros i; simpl.
  - left. split; [reflexivity|]. intros k [l' [Hl _]]. discriminate.
  - destruct (isTaskLine description l) eqn:Hl.
    + right. exists 0%nat. split; [lia|]. split.
      * exists l. split; [reflexivity | exact Hl].
      * intros j Hj. lia.
    + destruct (IH (i + 1)%Z) as [[Hr Hnone] | [k [Hr [Hk Hfirst]]]].
      * left. split; [exact Hr|]. intros [|k] [l' [Hl' Hm]]; simpl in Hl'.
        -- injection Hl' as <-. congruence.
        -- apply (Hnone k). exists l'. split; assumption.
      * right. exists (S k). split; [lia|]. split.
        -- destruct Hk as [l' [Hl' Hm]]. exists l'. split; assumption.
        -- intros [|j] Hj [l' [Hl' Hm]]; simpl in Hl'.
           ++ injection Hl' as <-. congruence.
           ++ apply (Hfirst j); [lia|]. exists l'. split; assumption.
Qed.

Lemma firstMatch_unique (lines : list string) (i j : nat) :
  firstMatch lines description i -> firstMatch lines description j -> i = j.
Proof.
  intros [Hi Hi'] [Hj Hj'].
  destruct (Nat.lt_trichotomy i j) as [H | [H | H]]; [|exact H|].
  - exfalso. exact (Hj' i H Hi).
  - exfalso. exact (Hi' j H Hj).
Qed.

Lemma matchesAt_lt (lines : list string) (i : nat) :
  matchesAt lines description i -> (i < length lines)%nat.
Proof. intros [l [Hl _]]. eapply lookup_lt_Some. exact Hl. Qed.

(** The guard of the fast path is the predicate [hintHolds]. *)
Lemma fast_path_guard (lines : list string) (hint : Z) :
  ((0 <=? hint)%Z && (hint <? Z.of_nat (length lines))%Z
   && match lines !! Z.to_nat hint with
      | Some l => isTaskLine description l
      | None => false
      end) = true
  <-> hintHolds lines description hint.
Proof.
  unfold hintHolds, matchesAt. split.
  - intros H. apply andb_prop in H as [H Hm]. apply andb_prop in H as [H0 H1].
    split; [lia|]. destruct (lines !! Z.to_nat hint) as [l|]; [|discriminate].
    exists l. split; [reflexivity | exact Hm].
  - intros [Hb [l [Hl Hm]]]. rewrite Hl, Hm.
    replace (0 <=? hint)%Z with true by (symmetry; apply Z.leb_le; lia).
    replace (hint <? Z.of_nat (length lines))%Z with true
      by (symmetry; apply Z.ltb_lt; lia).
    reflexivity.
Qed.

Lemma hintHolds_dec (lines : list string) (hint : Z) :
  hintHolds lines description hint \/ ~ hintHolds lines description hint.
Proof.
  destruct ((0 <=? hint)%Z && (hint <? Z.of_nat (length lines))%Z
            && match lines !! Z.to_nat hint with
               | Some l => isTaskLine description l
               | None => false
               end) eqn:G.
  - left. now apply fast_path_guard.
  - right. intros H. apply fast_path_guard in H. congruence.
Qed.

Lemma findTaskInLines_hit (lines : list string) (hint : Z) :
  hintHolds lines description hint ->
  findTaskInLines lines description hint = hint.
Proof.
  intros H. apply fast_path_guard in H. unfold findTaskInLines. now rewrite H.
Qed.

Lemma findTaskInLines_miss (lines : list string) (hint : Z) :
  ~ hintHolds lines description hint ->
  findTaskInLines lines description hint = scanFrom description lines 0.
Proof.
  intros H. unfold findTaskInLines.
  destruct (_ && _ && _) eqn:E; [|reflexivity].
  exfalso. apply H. now apply fast_path_guard.
Qed.

(** C3. [findTaskInLines] returns the hint unchanged when it is within
    bounds and its line contains the task marker and the description;
    otherwise the index of the first line that contains both; otherwise
    [-1].  Among several matching lines the first one wins. *)
Theorem findTaskInLines_correct (lines : list string) (lastKnownIndex : Z) :
  let result := findTaskInLines lines description lastKnownIndex in
  (hintHolds lines description lastKnownIndex -> result = lastKnownIndex)
  /\ (~ hintHolds lines description lastKnownIndex ->
      forall i, firstMatch lines description i -> result = Z.of_nat i)
  /\ (~ hintHolds lines description lastKnownIndex ->
      (forall i, ~ matchesAt lines description i) -> result = (-1)%Z).
Proof.
  cbv zeta. split; [apply findTaskInLines_hit|]. split.
  - intros Hmiss i Hi. rewrite (findTaskInLines_miss _ _ Hmiss).
    destruct (scanFrom_cases lines 0) as [[_ Hnone] | [k [Hr Hk]]].
    + exfalso. destruct Hi as [Hi _]. exact (Hnone i Hi).
    + rewrite Hr. rewrite (firstMatch_unique _ _ _ Hi Hk). lia.
  - intros Hmiss Hnone. rewrite (findTaskInLines_miss _ _ Hmiss).
    destruct (scanFrom_cases lines 0) as [[Hr _] | [k [_ [Hk _]]]].
    + exact Hr.
    + exfalso. exact (Hnone k Hk).
Qed.

(** What the locator returns is [-1] or the index of a matching line. *)
Lemma findTaskInLines_found (lines : list string) (hint : Z) :
  findTaskInLines lines description hint = (-1)%Z
  \/ ((0 <= findTaskInLines lines description hint < Z.of_nat (length lines))%Z
      /\ matchesAt lines description
           (Z.to_nat (findTaskInLines lines description hint))).
Proof.
  destruct (hintHolds_dec lines hint) as [Hhit | Hmiss].
  - right. rewrite (findTaskInLines_hit _ _ Hhit). exact Hhit.
  - rewrite (findTaskInLines_miss _ _ Hmiss).
    destruct (scanFrom_cases lines 0) as [[Hr _] | [k [Hr [Hk _]]]].
    + left. exact Hr.
    + right. rewrite Hr. pose proof (matchesAt_lt _ _ Hk).
      split; [lia|]. now replace (Z.to_nat (0 + Z.of_nat k)) with k by lia.
Qed.

(** C10. For every start index, negative and out-of-bounds ones included,
    [findTaskInLines] returns [-1] or an index within the bounds of the
    document whose line contains the description and the marker ["- ["]. *)
Theorem findTaskInLines_wellformed (lines : list string) (startIndex : Z) :
  let result := findTaskInLines lines description startIndex in
  result = (-1)%Z
  \/ ((0 <= result < Z.of_nat (length lines))%Z
      /\ exists l, lines !! Z.to_nat result = Some l
                   /\ Js.includes l description = true
                   /\ Js.includes l "- [" = true).
Proof.
  cbv zeta.
  destruct (findTaskInLines_found lines startIndex) as [Hr | [Hb [l [Hl Hm]]]].
  - left. exact Hr.
  - right. split; [exact Hb|]. exists l. split; [exact Hl|].
    now apply andb_prop in Hm.
Qed.

End LocatorFacts.

(** ** Interval Annotator *)

Section AnnotatorFacts.

Import Annotator Spec.

Lemma includes_cons_false (c : ascii) (t sub : string) :
  Js.includes (String c t) sub = false ->
  Js.startsWith (String c t) sub = false /\ Js.includes t sub = false.
Proof. simpl. intros H. now apply orb_false_elim in H. Qed.

Lemma startsWith_single (c d : ascii) (t : string) :
  Js.startsWith (String c t) (String d EmptyString) = Ascii.eqb d c.
Proof. cbn [Js.startsWith]. now destruct (Ascii.eqb d c). Qed.

(** The facts [validStamp] packs, one code unit at a time. *)
Lemma validStamp_cons (c : ascii) (t : string) :
  validStamp (String c t) = true ->
  Ascii.eqb c closeBracket = false
  /\ isLineTerminator c = false
  /\ Js.startsWith (String c t) "--" = false
  /\ (t = EmptyString \/ validStamp t = true).
Proof.
  unfold validStamp. intros H.
  repeat (apply andb_prop in H as [H ?]).
  repeat match goal with
         | G : negb _ = true |- _ => apply negb_true_iff in G
         end.
  repeat match goal with
         | G : Js.includes (String _ _) _ = false |- _ =>
             apply includes_cons_false in G as [? ?]
         end.
  repeat match goal with
         | G : Js.startsWith (String c t) (String _ EmptyString) = false |- _ =>
             rewrite startsWith_single in G
         end.
  assert (Hc : Ascii.eqb c closeBracket = false)
    by (unfold closeBracket; now rewrite Ascii.eqb_sym).
  assert (Ht : isLineTerminator c = false).
  { unfold isLineTerminator.
    rewrite (Ascii.eqb_sym c Js.LF), (Ascii.eqb_sym c Js.CR).
    apply orb_false_intro; assumption. }
  repeat split; try assumption.
  destruct t as [|d t]; [left; reflexivity | right].
  repeat (apply andb_true_intro; split);
    first [ apply negb_true_iff; assumption | reflexivity ].
Qed.

(** A valid stamp followed by [']'] is the body of an open token. *)
Lemma openBody_stamp (t rest : string) :
  validStamp t = true ->
  openBody (t +:+ String closeBracket rest) = Some (t, rest).
Proof.
  induction t as [|c t IH]; intros Hv; [discriminate|].
  destruct (validStamp_cons _ _ Hv) as (Hc & Hl & Hd & Ht).
  change (String c t +:+ String closeBracket rest)
    with (String c (t +:+ String closeBracket rest)).
  cbn [openBody].
  assert (Hb : openBodyChar (String c (t +:+ String closeBracket rest)) = true).
  { unfold openBodyChar. rewrite Hl.
    assert (H1 : Js.startsWith (String c (t +:+ String closeBracket rest)) "]" = false).
    { rewrite startsWith_single, Ascii.eqb_sym. exact Hc. }
    assert (H2 : Js.startsWith (String c (t +:+ String closeBracket rest)) "--" = false).
    { destruct t as [|d t].
      - cbn [Js.startsWith String.append].
        destruct (Ascii.eqb "-" c); [|reflexivity].
        unfold closeBracket. reflexivity.
      - exact Hd. }
    now rewrite H1, H2. }
  rewrite Hb. destruct Ht as [-> | Ht].
  - cbn [String.append]. now rewrite Ascii.eqb_refl.
  - destruct t as [|d t]; [discriminate|].
    destruct (validStamp_cons _ _ Ht) as (Hc' & _).
    change (String d t +:+ String closeBracket rest)
      with (String d (t +:+ String closeBracket rest)) in *.
    cbv beta iota. rewrite Hc'. now rewrite (IH Ht).
Qed.

Lemma digit_not (n : nat) (c : ascii) :
  (nat_of_ascii c < 48 \/ 57 < nat_of_ascii c)%nat ->
  Ascii.eqb c (Js.digit n) = false.
Proof.
  intros H. apply Ascii.eqb_neq. intros ->. unfold Js.digit in H.
  pose proof (Nat.mod_upper_bound n 10).
  rewrite nat_ascii_embedding in H; lia.
Qed.

(** Every timestamp [manageClockProperty] writes is a valid stamp. *)
Lemma validStamp_formatStamp (m : Js.Moment) :
  validStamp (Js.formatStamp m) = true.
Proof.
  unfold validStamp, Js.formatStamp, Js.pad4, Js.pad2.
  cbn -[Js.digit Ascii.eqb Nat.div].
  rewrite !digit_not by (vm_compute; lia).
  reflexivity.
Qed.

Lemma validStamp_no_bracket (t : string) :
  validStamp t = true -> Js.includes t "]" = false.
Proof.
  unfold validStamp. intros H. repeat (apply andb_prop in H as [H ?]).
  now apply negb_true_iff.
Qed.

(** [afterBracket] runs over a text without [']']. *)
Lemma afterBracket_app (a s : string) :
  Js.includes a "]" = false -> afterBracket (a +:+ s) = afterBracket s.
Proof.
  induction a as [|c a IH]; intros H; [reflexivity|].
  apply includes_cons_false in H as [H1 H2].
  rewrite startsWith_single in H1.
  cbn [String.append afterBracket]. unfold closeBracket.
  rewrite Ascii.eqb_sym, H1. exact (IH H2).
Qed.

Lemma afterBracket_here (rest : string) :
  afterBracket (String closeBracket rest) = Some rest.
Proof. reflexivity. Qed.

(** A token whose body is not empty and has no [']']. *)
Lemma clockToken_body (body rest : string) :
  body <> EmptyString -> Js.includes body "]" = false ->
  clockToken ("[clock::" +:+ body +:+ String closeBracket rest) = Some rest.
Proof.
  intros Hne Hb. destruct body as [|c body]; [congruence|].
  apply includes_cons_false in Hb as [H1 H2].
  rewrite startsWith_single in H1.
  unfold clockToken. rewrite startsWith_app.
  change 8 with (String.length "[clock::"). rewrite substringFrom_app.
  cbn [String.append]. unfold closeBracket at 1. rewrite Ascii.eqb_sym, H1.
  rewrite (afterBracket_app _ _ H2). reflexivity.
Qed.

(** An indented line with one token is an annotation-only line. *)
Lemma isClockLine_single (body : string) :
  body <> EmptyString -> Js.includes body "]" = false ->
  isClockLine (indentation +:+ "[clock::" +:+ body +:+ "]") = true.
Proof.
  intros Hne Hb. unfold isClockLine.
  change (skipSpaces (indentation +:+ "[clock::" +:+ body +:+ "]"))
    with ("[clock::" +:+ body +:+ String closeBracket EmptyString).
  assert (Hlen : exists n,
             String.length (indentation +:+ "[clock::" +:+ body +:+ "]") = S n)
    by (eexists; reflexivity).
  destruct Hlen as [n ->].
  cbn [clockTokens]. now rewrite (clockToken_body _ _ Hne Hb).
Qed.

Lemma matchOpenAt_space (s : string) : matchOpenAt (String " " s) = None.
Proof. reflexivity. Qed.

Lemma matchOpenAt_stamp (t rest : string) :
  validStamp t = true ->
  matchOpenAt ("[clock::" +:+ t +:+ String closeBracket rest) = Some (t, rest).
Proof.
  intros Hv. unfold matchOpenAt. rewrite startsWith_app.
  change 8 with (String.length "[clock::"). rewrite substringFrom_app.
  now apply openBody_stamp.
Qed.

(** Inside the previous match nothing is looked at. *)
Lemma lastOpenMatch_skip (s : string) (pos skip : nat) (m : option ExecMatch) :
  (String.length s <= skip)%nat -> lastOpenMatch s pos skip m = m.
Proof.
  revert pos skip. induction s as [|c s IH]; intros pos skip H; [reflexivity|].
  simpl in H. destruct skip as [|k]; [lia|].
  cbn [lastOpenMatch]. apply IH. lia.
Qed.

Lemma lastOpenMatch_space (s : string) (pos : nat) (m : option ExecMatch) :
  lastOpenMatch (String " " s) pos 0 m = lastOpenMatch s (S pos) 0 m.
Proof. reflexivity. Qed.

Lemma lastOpenMatch_here
    (c : ascii) (s cap rest : string) (pos : nat) (m : option ExecMatch) :
  matchOpenAt (String c s) = Some (cap, rest) ->
  lastOpenMatch (String c s) pos 0 m
  = lastOpenMatch s (S pos) (8 + String.length cap + 1 - 1)
      (Some {| index := pos; group1 := cap;
               matchLength := 8 + String.length cap + 1 |}).
Proof.
  intros H.
  change (lastOpenMatch (String c s) pos 0 m)
    with (match matchOpenAt (String c s) with
          | Some (cap, _) =>
              lastOpenMatch s (S pos) (8 + String.length cap + 1 - 1)
                (Some {| index := pos; group1 := cap;
                         matchLength := 8 + String.length cap + 1 |})
          | None => lastOpenMatch s (S pos) 0 m
          end).
  now rewrite H.
Qed.

(** The only match of [openClockRegex] in a new clock line. *)
Lemma lastOpenMatch_openLine (t0 : string) :
  validStamp t0 = true ->
  lastOpenMatch (openLine t0) 0 0 None
  = Some {| index := 6; group1 := t0; matchLength := 8 + String.length t0 + 1 |}.
Proof.
  intros Hv.
  change (openLine t0)
    with (String " " (String " " (String " " (String " " (String " " (String " "
            (String "[" ("clock::" +:+ t0 +:+ String closeBracket EmptyString)))))))).
  rewrite !lastOpenMatch_space.
  rewrite (lastOpenMatch_here _ _ t0 EmptyString).
  - apply lastOpenMatch_skip. rewrite !length_append. simpl. lia.
  - exact (matchOpenAt_stamp t0 EmptyString Hv).
Qed.

Lemma openClockTest_space (s : string) :
  openClockTest (String " " s) = openClockTest s.
Proof. reflexivity. Qed.

Lemma openClockTest_here (s : string) (m : string * string) :
  matchOpenAt s = Some m -> openClockTest s = true.
Proof. intros H. destruct s; cbn [openClockTest]; now rewrite H. Qed.

Lemma openClockTest_openLine (t0 : string) :
  validStamp t0 = true -> openClockTest (openLine t0) = true.
Proof.
  intros Hv.
  change (openLine t0)
    with (String " " (String " " (String " " (String " " (String " " (String " "
            ("[clock::" +:+ t0 +:+ String closeBracket EmptyString))))))).
  rewrite !openClockTest_space.
  exact (openClockTest_here _ _ (matchOpenAt_stamp t0 EmptyString Hv)).
Qed.

Lemma isClockLine_openLine (t0 : string) :
  validStamp t0 = true -> isClockLine (openLine t0) = true.
Proof.
  intros Hv. apply isClockLine_single.
  - intros ->. discriminate.
  - now apply validStamp_no_bracket.
Qed.

(** Closing the token of a new clock line appends the end timestamp. *)
Lemma closeLastToken_openLine (t0 t1 : string) :
  validStamp t0 = true ->
  closeLastToken (openLine t0) t1 = closedLine t0 t1.
Proof.
  intros Hv. unfold closeLastToken. rewrite (lastOpenMatch_openLine _ Hv).
  cbn [index group1 matchLength].
  replace (Js.substringTo 6 (openLine t0)) with indentation by reflexivity.
  replace (Js.substringFrom (6 + (8 + String.length t0 + 1)) (openLine t0))
    with EmptyString.
  - unfold closedLine. now rewrite append_empty_r.
  - symmetry. rewrite <- (append_empty_r (openLine t0)) at 1.
    replace (6 + (8 + String.length t0 + 1))%nat with (String.length (openLine t0)).
    + apply substringFrom_app.
    + unfold openLine. rewrite !length_append. simpl. lia.
Qed.

Lemma includes_single_app (a b : string) (c : ascii) :
  Js.includes (a +:+ b) (String c EmptyString)
  = Js.includes a (String c EmptyString) || Js.includes b (String c EmptyString).
Proof.
  induction a as [|d a IH].
  - cbn [String.append]. destruct b; reflexivity.
  - cbn [String.append Js.includes]. rewrite !startsWith_single, IH.
    now rewrite orb_assoc.
Qed.

Lemma isClockLine_closedLine (t0 t1 : string) :
  validStamp t0 = true -> validStamp t1 = true ->
  isClockLine (closedLine t0 t1) = true.
Proof.
  intros H0 H1. unfold closedLine.
  replace (indentation +:+ "[clock::" +:+ t0 +:+ "--" +:+ t1 +:+ "]")
    with (indentation +:+ "[clock::" +:+ (t0 +:+ "--" +:+ t1) +:+ "]")
    by (now rewrite !append_assoc).
  apply isClockLine_single.
  - destruct t0; [discriminate H0 | discriminate].
  - rewrite !includes_single_app.
    rewrite (validStamp_no_bracket _ H0), (validStamp_no_bracket _ H1).
    reflexivity.
Qed.

(** ** The edits on the lines of a document *)

Lemma skipClockLines_no_run (rest : list string) (k : nat) :
  annotationRun rest = [] -> skipClockLines rest k = k.
Proof.
  destruct rest as [|l rest]; [reflexivity|]. simpl.
  destruct (isClockLine l); [discriminate | reflexivity].
Qed.

(** A run without an open token leaves [lastOpenClockIndex] as it is. *)
Lemma lastOpenClockLine_none (rest : list string) (k : nat) (acc : option nat) :
  Forall (fun l => openClockTest l = false) (annotationRun rest) ->
  lastOpenClockLine rest k acc = acc.
Proof.
  revert k acc. induction rest as [|l rest IH]; intros k acc H; [reflexivity|].
  simpl in *. destruct (isClockLine l); [|reflexivity].
  apply Forall_cons in H as [Hl H]. rewrite Hl. now apply IH.
Qed.

Lemma clockStart_no_run (lines : list string) (i : nat) (t0 : string) :
  annotationRun (drop (i + 1) lines) = [] ->
  clockStart lines i t0
  = (take (i + 1) lines ++ openLine t0 :: drop (i + 1) lines)%list.
Proof.
  intros H. unfold clockStart. cbv zeta.
  now rewrite (skipClockLines_no_run _ _ H).
Qed.

Lemma clockEnd_after_start (lines : list string) (i : nat) (t0 t1 : string) :
  validStamp t0 = true ->
  (i < length lines)%nat ->
  annotationRun (drop (i + 1) lines) = [] ->
  clockEnd (take (i + 1) lines ++ openLine t0 :: drop (i + 1) lines)%list i t1
  = (take (i + 1) lines ++ closedLine t0 t1 :: drop (i + 1) lines)%list.
Proof.
  intros Hv Hi Hrun.
  assert (Hlen : length (take (i + 1) lines) = (i + 1)%nat)
    by (apply length_take_le; lia).
  unfold clockEnd.
  rewrite (drop_app_length' _ _ _ (eq_sym Hlen)).
  cbn [lastOpenClockLine].
  rewrite (isClockLine_openLine _ Hv), (openClockTest_openLine _ Hv).
  rewrite lastOpenClockLine_none by (rewrite Hrun; constructor).
  rewrite (list_lookup_middle _ _ _ _ (eq_sym Hlen)).
  rewrite insert_app_r_alt by lia.
  rewrite Hlen, Nat.sub_diag. cbn [insert list_insert].
  now rewrite (closeLastToken_openLine _ _ Hv).
Qed.

(** C9. When the annotation run below the task line holds no open token,
    the interval close leaves every line of the document as it is (and,
    being a total function, raises nothing). *)
Theorem clockEnd_without_open_token
    (lines : list string) (taskLine : nat) (timestamp : string) :
  Forall (fun l => openClockTest l = false)
         (annotationRun (drop (taskLine + 1) lines)) ->
  clockEnd lines taskLine timestamp = lines.
Proof.
  intros H. unfold clockEnd. now rewrite (lastOpenClockLine_none _ _ _ H).
Qed.

Lemma clockEnd_without_open_token_witness :
  Forall (fun l => openClockTest l = false)
         (annotationRun (drop (0 + 1) ["- [ ] Buy milk"; "  [clock::a--b]"; "rest"]))
  /\ clockEnd ["- [ ] Buy milk"; "  [clock::a--b]"; "rest"] 0 "2026-01-01T10:00:00"
     = ["- [ ] Buy milk"; "  [clock::a--b]"; "rest"].
Proof.
  assert (H : Forall (fun l => openClockTest l = false)
                (annotationRun (drop (0 + 1)
                   ["- [ ] Buy milk"; "  [clock::a--b]"; "rest"]))).
  { vm_compute. repeat constructor. }
  split; [exact H|].
  exact (clockEnd_without_open_token _ 0 _ H).
Defined.

End AnnotatorFacts.

(** ** The functions of the annotator and the regular expressions *)

Section RegexFacts.

Import Annotator Regex.

Lemma startsWith_spec (s p : string) :
  Js.startsWith s p = true <-> exists rest, s = p +:+ rest.
Proof.
  revert s. induction p as [|c p IH]; intros s; cbn [Js.startsWith String.append].
  - split; [intros _; now exists s | reflexivity].
  - destruct s as [|d s].
    + split; [discriminate | intros [rest H]; discriminate].
    + destruct (Ascii.eqb_spec c d) as [-> | Hne].
      * rewrite IH. split; intros [rest H]; exists rest; congruence.
      * split; [discriminate | intros [rest H]; congruence].
Qed.

Lemma startsWith_split (s p : string) :
  Js.startsWith s p = true -> s = p +:+ Js.substringFrom (String.length p) s.
Proof.
  intros H. apply startsWith_spec in H as [rest ->].
  now rewrite substringFrom_app.
Qed.

(** *** The annotation-only line *)

Lemma skipSpaces_iter (s : string) : iter (matches space) s (skipSpaces s).
Proof.
  induction s as [|c s IH]; cbn [skipSpaces]; [constructor|].
  destruct (isSpace c) eqn:E; [|constructor].
  apply iter_round with s; [|exact IH]. exists c. now split.
Qed.

Lemma iter_space_skip (s rest : string) :
  iter (matches space) s rest -> skipSpaces s = skipSpaces rest.
Proof.
  induction 1 as [|s mid rest (c & -> & Hc) _ IH]; [reflexivity|].
  cbn [skipSpaces]. cbn in Hc. now rewrite Hc.
Qed.

Lemma iter_space_length (s rest : string) :
  iter (matches space) s rest -> (String.length rest <= String.length s)%nat.
Proof.
  induction 1 as [|s mid rest (c & -> & Hc) _ IH]; [lia|]. simpl. lia.
Qed.

Lemma afterBracket_iter (s rest : string) :
  afterBracket s = Some rest ->
  iter (matches notCloseBracket) s (String closeBracket rest).
Proof.
  induction s as [|c s IH]; cbn [afterBracket]; [discriminate|].
  destruct (Ascii.eqb_spec c closeBracket) as [-> | Hne].
  - intros H. injection H as ->. constructor.
  - intros H. apply iter_round with s; [|now apply IH].
    exists c. split; [reflexivity|]. cbn. now apply negb_true_iff, Ascii.eqb_neq.
Qed.

Lemma iter_afterBracket (s mid : string) :
  iter (matches notCloseBracket) s mid -> afterBracket s = afterBracket mid.
Proof.
  induction 1 as [|s mid rest (c & -> & Hc) _ IH]; [reflexivity|].
  cbn [afterBracket]. cbn in Hc. apply negb_true_iff in Hc. now rewrite Hc.
Qed.

Lemma clockToken_matches (s rest : string) :
  clockToken s = Some rest <-> matches token s rest.
Proof.
  unfold clockToken, token. cbn [matches]. split.
  - destruct (Js.startsWith s "[clock::") eqn:Hp; [|discriminate].
    apply startsWith_split in Hp.
    destruct (Js.substringFrom 8 s) as [|c s'] eqn:Hs; [discriminate|].
    destruct (Ascii.eqb_spec c closeBracket) as [-> | Hne]; [discriminate|].
    change (String.length "[clock::") with 8%nat in Hp. rewrite Hs in Hp.
    intros H. exists (String c s'). split; [exact Hp|].
    exists (String closeBracket rest). split; [|reflexivity].
    exists s'. split; [|now apply afterBracket_iter].
    exists c. split; [reflexivity|]. cbn. now apply negb_true_iff, Ascii.eqb_neq.
  - intros (m1 & -> & m3 & (m2 & (c & -> & Hc) & Hiter) & ->).
    rewrite startsWith_app.
    change 8 with (String.length "[clock::"). rewrite substringFrom_app.
    cbn in Hc. apply negb_true_iff in Hc. rewrite Hc.
    now rewrite (iter_afterBracket _ _ Hiter).
Qed.

Lemma iter_class_length (p : ascii -> bool) (s rest : string) :
  iter (matches (Class p)) s rest -> (String.length rest <= String.length s)%nat.
Proof.
  induction 1 as [|s mid rest (c & -> & Hc) _ IH]; [lia|]. simpl. lia.
Qed.

Lemma token_length (s rest : string) :
  matches token s rest -> (String.length rest < String.length s)%nat.
Proof.
  intros (m1 & -> & m3 & (m2 & (c & -> & Hc) & Hiter) & ->).
  apply iter_class_length in Hiter. rewrite length_append in *. simpl in *. lia.
Qed.

Lemma token_head (s rest : string) : matches token s rest -> skipSpaces s = s.
Proof. intros (m1 & -> & _). reflexivity. Qed.

Lemma clockTokens_matches (fuel : nat) (s : string) :
  clockTokens fuel s = true -> matches (Cat (Plus round) AtEnd) s EmptyString.
Proof.
  revert s. induction fuel as [|fuel IH]; intros s; cbn [clockTokens]; [discriminate|].
  destruct (clockToken s) as [rest|] eqn:Ht; [|discriminate].
  apply clockToken_matches in Ht.
  pose proof (skipSpaces_iter rest) as Hsp.
  destruct (skipSpaces rest) as [|c r'] eqn:Hr.
  - intros _. exists EmptyString. split; [|now split].
    exists EmptyString. split; [|constructor]. now exists rest.
  - intros H. apply IH in H as (mid & (m1 & Hround & Hiter) & Hend).
    exists mid. split; [|exact Hend].
    exists (String c r'). split; [now exists rest|].
    now apply iter_round with m1.
Qed.

Lemma matches_clockTokens (m1 : string) :
  iter (matches round) m1 EmptyString ->
  forall s fuel, matches round s m1 -> (String.length s <= fuel)%nat ->
                 clockTokens fuel s = true.
Proof.
  remember EmptyString as e eqn:He.
  induction 1 as [m1 | m1 m2 e Hround Hiter IH]; intros s fuel (r & Ht & Hsp) Hfuel.
  - subst m1. pose proof (token_length _ _ Ht) as Hlen.
    destruct fuel as [|fuel]; [lia|]. cbn [clockTokens].
    apply clockToken_matches in Ht. rewrite Ht.
    now rewrite (iter_space_skip _ _ Hsp).
  - specialize (IH He). pose proof (token_length _ _ Ht) as Hlen.
    destruct fuel as [|fuel]; [lia|]. cbn [clockTokens].
    pose proof Hround as (r1 & Ht1 & _).
    apply clockToken_matches in Ht. rewrite Ht.
    rewrite (iter_space_skip _ _ Hsp), (token_head _ _ Ht1).
    apply iter_class_length in Hsp.
    assert (Hne : m1 <> EmptyString) by (apply token_length in Ht1; destruct m1; simpl in *; [lia | discriminate]).
    destruct m1 as [|c m1]; [congruence|].
    apply IH; [exact Hround | simpl in *; lia].
Qed.

(** The function [isClockLine] decides whether the line expression can
    match the whole line. *)
Theorem isClockLine_matches (line : string) :
  isClockLine line = true <-> matches clockLineRegex line EmptyString.
Proof.
  unfold isClockLine, clockLineRegex. fold round. split.
  - intros H. apply clockTokens_matches in H.
    exists (skipSpaces line). split; [apply skipSpaces_iter | exact H].
  - intros (mid & Hsp & (e & (m1 & Hround & Hiter) & -> & _)).
    rewrite (iter_space_skip _ _ Hsp).
    pose proof Hround as (r1 & Ht1 & _). rewrite (token_head _ _ Ht1).
    apply (matches_clockTokens m1 Hiter); [exact Hround|].
    now apply iter_class_length in Hsp.
Qed.

(** *** The open token *)

Lemma unit_matches (s mid : string) :
  matches unit s mid <-> openBodyChar s = true /\ exists c, s = String c mid.
Proof.
  unfold unit, dot. cbn [matches]. split.
  - intros (m & [<- Hno] & c & -> & Hc). split; [|now exists c].
    unfold openBodyChar. rewrite Hc.
    destruct (Js.startsWith (String c mid) "]") eqn:H1.
    { apply startsWith_spec in H1 as [r H1]. exfalso. apply (Hno r). now left. }
    destruct (Js.startsWith (String c mid) "--") eqn:H2.
    { apply startsWith_spec in H2 as [r H2]. exfalso. apply (Hno r). now right. }
    reflexivity.
  - intros [Hb [c ->]]. unfold openBodyChar in Hb.
    apply andb_prop in Hb as [Hb Hc]. apply andb_prop in Hb as [H1 H2].
    apply negb_true_iff in H1, H2.
    exists (String c mid). split; [|exists c; now split].
    split; [reflexivity|]. intros r [Hr | Hr].
    + assert (Js.startsWith (String c mid) "]" = true)
        by (apply startsWith_spec; now exists r). congruence.
    + assert (Js.startsWith (String c mid) "--" = true)
        by (apply startsWith_spec; now exists r). congruence.
Qed.

Lemma openBodyChar_not_bracket (c : ascii) (s : string) :
  openBodyChar (String c s) = true -> Ascii.eqb c closeBracket = false.
Proof.
  unfold openBodyChar. intros H.
  apply andb_prop in H as [H _]. apply andb_prop in H as [H _].
  apply negb_true_iff in H. rewrite startsWith_single in H.
  now rewrite Ascii.eqb_sym.
Qed.

Lemma openBody_matches (s cap rest : string) :
  openBody s = Some (cap, rest) ->
  s = cap +:+ String closeBracket rest
  /\ matches openBodyRegex s (String closeBracket rest).
Proof.
  revert cap. induction s as [|c s IH]; intros cap; cbn [openBody]; [discriminate|].
  destruct (openBodyChar (String c s)) eqn:Hb; [|discriminate].
  assert (Hu : matches unit (String c s) s) by (apply unit_matches; eauto).
  destruct s as [|d s]; [discriminate|].
  destruct (Ascii.eqb_spec d closeBracket) as [-> | Hne].
  - intros H. injection H as <- <-. split; [reflexivity|].
    exists (String closeBracket s). split; [exact Hu | constructor].
  - destruct (openBody (String d s)) as [[cap' rest']|] eqn:Hrec; [|discriminate].
    intros H. injection H as <- <-.
    destruct (IH cap' eq_refl) as [Hs (m1 & Hu1 & Hiter)].
    split; [cbn [String.append]; now rewrite <- Hs|].
    exists (String d s). split; [exact Hu|]. now apply iter_round with m1.
Qed.

Lemma matches_openBody (m1 rest : string) :
  iter (matches unit) m1 (String closeBracket rest) ->
  forall c, openBodyChar (String c m1) = true ->
            exists cap, openBody (String c m1) = Some (String c cap, rest)
                        /\ m1 = cap +:+ String closeBracket rest.
Proof.
  remember (String closeBracket rest) as e eqn:He.
  induction 1 as [m1 | m1 m2 e Hu Hiter IH]; intros c Hc.
  - subst m1. exists EmptyString. split; [|reflexivity].
    cbn [openBody]. rewrite Hc. now rewrite Ascii.eqb_refl.
  - apply unit_matches in Hu as [Hb [d ->]].
    destruct (IH He d Hb) as (cap & Hrec & Hm2).
    exists (String d cap). split; [|cbn [String.append]; now rewrite <- Hm2].
    cbn [openBody]. rewrite Hc.
    rewrite (openBodyChar_not_bracket _ _ Hb).
    cbn [openBody] in Hrec. now rewrite Hrec.
Qed.

(** The function [matchOpenAt] finds the match of the open-token
    expression at the head of the text, and there is no other. *)
Theorem matchOpenAt_matches (s rest : string) :
  (exists cap, matchOpenAt s = Some (cap, rest))
  <-> matches openClockRegex s rest.
Proof.
  unfold matchOpenAt, openClockRegex. cbn [matches]. fold unit. split.
  - intros [cap H].
    destruct (Js.startsWith s "[clock::") eqn:Hp; [|discriminate].
    apply startsWith_split in Hp. apply openBody_matches in H as [_ H].
    exists (Js.substringFrom (String.length "[clock::") s). split; [exact Hp|].
    exists (String closeBracket rest). split; [exact H | reflexivity].
  - intros (m0 & -> & m3 & (m1 & Hu & Hiter) & ->).
    rewrite startsWith_app.
    change 8 with (String.length "[clock::"). rewrite substringFrom_app.
    apply unit_matches in Hu as [Hb [c ->]].
    destruct (matches_openBody _ _ Hiter c Hb) as (cap & H & _).
    now exists (String c cap).
Qed.

Lemma matchOpenAt_text (s cap rest : string) :
  matchOpenAt s = Some (cap, rest) ->
  s = "[clock::" +:+ cap +:+ String closeBracket rest.
Proof.
  unfold matchOpenAt.
  destruct (Js.startsWith s "[clock::") eqn:Hp; [|discriminate].
  apply startsWith_split in Hp. intros H. apply openBody_matches in H as [H _].
  change (String.length "[clock::") with 8%nat in Hp. rewrite H in Hp. exact Hp.
Qed.

(** [openClockRegex.test(line)] holds exactly when the expression can
    match at some position of the line. *)
Theorem openClockTest_matches (line : string) :
  openClockTest line = true
  <-> exists before mid rest,
        line = before +:+ mid /\ matches openClockRegex mid rest.
Proof.
  induction line as [|c line IH].
  - cbn [openClockTest]. split.
    + destruct (matchOpenAt EmptyString) as [[cap rest]|] eqn:E; [|discriminate].
      intros _. exists EmptyString, EmptyString, rest. split; [reflexivity|].
      apply matchOpenAt_matches. now exists cap.
    + intros (before & mid & rest & H & Hm).
      destruct before; [|discriminate]. cbn in H. subst mid.
      apply matchOpenAt_matches in Hm as [cap ->]. reflexivity.
  - cbn [openClockTest].
    destruct (matchOpenAt (String c line)) as [[cap rest]|] eqn:E.
    + split; [|reflexivity]. intros _.
      exists EmptyString, (String c line), rest. split; [reflexivity|].
      apply matchOpenAt_matches. now exists cap.
    + rewrite IH. split.
      * intros (before & mid & rest & -> & Hm).
        now exists (String c before), mid, rest.
      * intros (before & mid & rest & H & Hm).
        destruct before as [|d before].
        -- cbn in H. subst mid. apply matchOpenAt_matches in Hm as [cap Hm]. congruence.
        -- cbn [String.append] in H. injection H as -> ->.
           now exists before, mid, rest.
Qed.

End RegexFacts.


(** ** Opening and closing an interval through [manageClockProperty] *)

Section ClockPropertyFacts.

Import Annotator Spec Plugin.

(** A task that is found at line [i] is found there again after lines
    are put in or changed below line [i]. *)
Lemma findTaskInLines_stable
    (lines lines' : list string) (description : string) (hint : Z) (i : nat) :
  Locator.findTaskInLines lines description hint = Z.of_nat i ->
  lines' !! i = lines !! i ->
  (i < length lines')%nat ->
  Locator.findTaskInLines lines' description (Z.of_nat i) = Z.of_nat i.
Proof.
  intros Hfound Hsame Hlen.
  destruct (findTaskInLines_found description lines hint) as [Hr | [_ Hm]];
    [lia|].
  rewrite Hfound, Nat2Z.id in Hm.
  apply findTaskInLines_hit. split; [lia|].
  rewrite Nat2Z.id. destruct Hm as [l [Hl Hm]].
  exists l. split; [congruence | exact Hm].
Qed.

(** The start branch on a task found at line [i] with no annotation line
    below it. *)
Lemma manageClockLines_start
    (lines : list string) (task : KanbanTask) (i : nat) (t0 : string) :
  Locator.findTaskInLines lines (description task) (lineNumber task) = Z.of_nat i ->
  annotationRun (drop (i + 1) lines) = [] ->
  manageClockLines lines task clockStartType t0
  = Some ((take (i + 1) lines ++ openLine t0 :: drop (i + 1) lines)%list,
          setLineNumber (Z.of_nat i) task).
Proof.
  intros Hfound Hrun. unfold manageClockLines. rewrite Hfound.
  replace (Z.of_nat i =? -1)%Z with false by (symmetry; apply Z.eqb_neq; lia).
  rewrite Nat2Z.id. now rewrite (clockStart_no_run _ _ _ Hrun).
Qed.

(** The end branch on the document the start branch left. *)
Lemma manageClockLines_end_after_start
    (lines : list string) (task : KanbanTask) (i : nat) (t0 t1 : string) :
  validStamp t0 = true ->
  Locator.findTaskInLines lines (description task) (lineNumber task) = Z.of_nat i ->
  annotationRun (drop (i + 1) lines) = [] ->
  manageClockLines
    (take (i + 1) lines ++ openLine t0 :: drop (i + 1) lines)%list
    (setLineNumber (Z.of_nat i) task) clockEndType t1
  = Some ((take (i + 1) lines ++ closedLine t0 t1 :: drop (i + 1) lines)%list,
          setLineNumber (Z.of_nat i) task).
Proof.
  intros Hv Hfound Hrun.
  assert (Hi : (i < length lines)%nat).
  { destruct (findTaskInLines_found (description task) lines (lineNumber task))
      as [Hr | [Hb _]]; lia. }
  assert (Hlen : length (take (i + 1) lines) = (i + 1)%nat)
    by (apply length_take_le; lia).
  unfold manageClockLines. cbn [description lineNumber setLineNumber].
  rewrite (findTaskInLines_stable lines _ _ _ i Hfound).
  - replace (Z.of_nat i =? -1)%Z with false by (symmetry; apply Z.eqb_neq; lia).
    rewrite Nat2Z.id. now rewrite (clockEnd_after_start _ _ _ _ Hv Hi Hrun).
  - rewrite lookup_app_l by lia. apply lookup_take_lt. lia.
  - rewrite length_app, Hlen. simpl. lia.
Qed.

(** C1. On a task found at line [i] with no annotation line below it,
    opening an interval at [t0] and then closing it at [t1] leaves the
    document with exactly one more line, directly below the task line,
    whose text is the closed token [[clock::t0--t1]] after the
    indentation: the start timestamp is kept and the end timestamp is
    appended.  That line is the whole annotation run below the task. *)
Theorem open_then_close
    (lines : list string) (task : KanbanTask) (i : nat) (t0 t1 : string) :
  validStamp t0 = true ->
  Locator.findTaskInLines lines (description task) (lineNumber task) = Z.of_nat i ->
  annotationRun (drop (i + 1) lines) = [] ->
  exists lines1 task1 lines2 task2,
    manageClockLines lines task clockStartType t0 = Some (lines1, task1)
    /\ manageClockLines lines1 task1 clockEndType t1 = Some (lines2, task2)
    /\ lines2 = (take (i + 1) lines ++ closedLine t0 t1 :: drop (i + 1) lines)%list
    /\ closedLine t0 t1 = "      [clock::" +:+ t0 +:+ "--" +:+ t1 +:+ "]"
    /\ (validStamp t1 = true ->
        annotationRun (drop (i + 1) lines2) = [closedLine t0 t1]).
Proof.
  intros Hv Hfound Hrun.
  assert (Hi : (i < length lines)%nat).
  { destruct (findTaskInLines_found (description task) lines (lineNumber task))
      as [Hr | [Hb _]]; lia. }
  assert (Hlen : length (take (i + 1) lines) = (i + 1)%nat)
    by (apply length_take_le; lia).
  eexists _, _, _, _.
  split; [exact (manageClockLines_start _ _ _ t0 Hfound Hrun)|].
  split; [exact (manageClockLines_end_after_start _ _ _ _ t1 Hv Hfound Hrun)|].
  split; [reflexivity|]. split; [reflexivity|].
  intros Hv1. rewrite (drop_app_length' _ _ _ (eq_sym Hlen)).
  cbn [annotationRun]. rewrite (isClockLine_closedLine _ _ Hv Hv1).
  now rewrite Hrun.
Qed.

Lemma open_then_close_witness :
  exists lines1 task1 lines2 task2,
    manageClockLines ["# Today"; "- [ ] Buy milk"; "- [ ] Other"]
      {| id := "a.md-1"; description := "Buy milk"; column := "TODO";
         status := todo; startTime := None; endTime := None;
         sourcePath := "a.md"; lineNumber := 1; priority := None;
         tags := []; dueDate := None; isClockedIn := false |}
      clockStartType "2026-01-01T10:00:00" = Some (lines1, task1)
    /\ manageClockLines lines1 task1 clockEndType "2026-01-01T11:30:00"
       = Some (lines2, task2)
    /\ lines2 = ["# Today"; "- [ ] Buy milk";
                 "      [clock::2026-01-01T10:00:00--2026-01-01T11:30:00]";
                 "- [ ] Other"].
Proof.
  destruct (open_then_close
              ["# Today"; "- [ ] Buy milk"; "- [ ] Other"]
              {| id := "a.md-1"; description := "Buy milk"; column := "TODO";
                 status := todo; startTime := None; endTime := None;
                 sourcePath := "a.md"; lineNumber := 1; priority := None;
                 tags := []; dueDate := None; isClockedIn := false |}
              1 "2026-01-01T10:00:00" "2026-01-01T11:30:00"
              ltac:(vm_compute; reflexivity)
              ltac:(vm_compute; reflexivity)
              ltac:(vm_compute; reflexivity))
    as (lines1 & task1 & lines2 & task2 & H1 & H2 & H3 & _).
  exists lines1, task1, lines2, task2.
  split; [exact H1 | split; [exact H2 | exact H3]].
Defined.

(** ** Reading and writing the file *)

Lemma split_not_nil (s : string) : Js.split s <> [].
Proof.
  induction s as [|c s IH]; cbn [Js.split]; [discriminate|].
  destruct (Ascii.eqb c Js.LF); [discriminate|].
  destruct (Js.split s); [congruence | discriminate].
Qed.

Lemma join_split (s : string) : Js.join (Js.split s) = s.
Proof.
  induction s as [|c s IH]; cbn [Js.split]; [reflexivity|].
  destruct (Ascii.eqb_spec c Js.LF) as [-> | Hne].
  - pose proof (split_not_nil s) as Hnil.
    destruct (Js.split s) as [|l ls] eqn:E; [congruence|].
    cbn [Js.join String.append]. now rewrite <- IH.
  - pose proof (split_not_nil s) as Hnil.
    destruct (Js.split s) as [|l ls] eqn:E; [congruence|].
    rewrite <- IH. destruct ls; reflexivity.
Qed.

Lemma split_no_line_feed (s : string) : Forall noLineFeed (Js.split s).
Proof.
  induction s as [|c s IH]; cbn [Js.split]; [repeat constructor|].
  destruct (Ascii.eqb_spec c Js.LF) as [-> | Hne].
  - constructor; [reflexivity | exact IH].
  - pose proof (split_not_nil s) as Hnil.
    destruct (Js.split s) as [|l ls]; [congruence|].
    apply Forall_cons in IH as [Hl Hls]. constructor; [|exact Hls].
    unfold noLineFeed in *. cbn [Js.includes]. rewrite startsWith_single, Hl.
    apply Ascii.eqb_neq in Hne. rewrite Ascii.eqb_sym, Hne. reflexivity.
Qed.

Lemma split_line (l : string) : noLineFeed l -> Js.split l = [l].
Proof.
  unfold noLineFeed. induction l as [|c l IH]; intros H; [reflexivity|].
  apply includes_cons_false in H as [H1 H2]. rewrite startsWith_single in H1.
  cbn [Js.split]. rewrite Ascii.eqb_sym, H1. now rewrite (IH H2).
Qed.

Lemma split_line_feed (l rest : string) :
  noLineFeed l -> Js.split (l +:+ String Js.LF rest) = l :: Js.split rest.
Proof.
  unfold noLineFeed. induction l as [|c l IH]; intros H.
  - cbn [String.append Js.split]. now rewrite Ascii.eqb_refl.
  - apply includes_cons_false in H as [H1 H2]. rewrite startsWith_single in H1.
    cbn [String.append Js.split]. rewrite Ascii.eqb_sym, H1. now rewrite (IH H2).
Qed.

Lemma split_join (ls : list string) :
  ls <> [] -> Forall noLineFeed ls -> Js.split (Js.join ls) = ls.
Proof.
  induction ls as [|l ls IH]; intros Hne H; [congruence|].
  apply Forall_cons in H as [Hl Hls]. destruct ls as [|l2 ls].
  - now apply split_line.
  - change (Js.join (l :: l2 :: ls)) with (l +:+ String Js.LF (Js.join (l2 :: ls))).
    rewrite (split_line_feed _ _ Hl). now rewrite IH.
Qed.

(** Every line of an annotated document is free of line feeds. *)
Lemma openLine_no_line_feed (t0 : string) :
  validStamp t0 = true -> noLineFeed (openLine t0).
Proof.
  intros Hv. unfold noLineFeed, openLine. rewrite !includes_single_app.
  unfold validStamp in Hv. repeat (apply andb_prop in Hv as [Hv ?]).
  repeat match goal with
         | G : negb _ = true |- _ => apply negb_true_iff in G
         end.
  match goal with
  | G : Js.includes t0 (String Js.LF EmptyString) = false |- _ => rewrite G
  end.
  reflexivity.
Qed.

(** The same round trip through the vault: the file is read, split,
    edited, joined and written twice, and holds the closed token in the
    end. *)
Lemma open_then_close_in_vault
    (vault : Vault) (task : KanbanTask) (content : string) (i : nat)
    (t0 t1 : string) :
  validStamp t0 = true ->
  vault !! sourcePath task = Some content ->
  Locator.findTaskInLines (Js.split content) (description task) (lineNumber task)
  = Z.of_nat i ->
  annotationRun (drop (i + 1) (Js.split content)) = [] ->
  let afterStart := manageClockAction clockStartType t0 vault task in
  let afterEnd := manageClockAction clockEndType t1 (fst afterStart) (snd afterStart) in
  fst afterEnd !! sourcePath task
  = Some (Js.join (take (i + 1) (Js.split content)
                    ++ closedLine t0 t1 :: drop (i + 1) (Js.split content))%list).
Proof.
  intros Hv Hfile Hfound Hrun. cbv zeta.
  assert (Hstart :
    manageClockAction clockStartType t0 vault task
    = (<[sourcePath task :=
           Js.join (take (i + 1) (Js.split content)
                    ++ openLine t0 :: drop (i + 1) (Js.split content))%list]> vault,
       setLineNumber (Z.of_nat i) task)).
  { unfold manageClockAction. rewrite Hfile.
    now rewrite (manageClockLines_start _ _ _ t0 Hfound Hrun). }
  rewrite Hstart. cbn [fst snd].
  unfold manageClockAction. cbn [sourcePath setLineNumber].
  rewrite lookup_insert_eq. rewrite split_join.
  - rewrite (manageClockLines_end_after_start _ _ _ _ t1 Hv Hfound Hrun).
    cbn [fst]. now rewrite lookup_insert_eq.
  - now destruct (take (i + 1) (Js.split content)).
  - apply Forall_app. split; [apply Forall_take, split_no_line_feed|].
    constructor; [now apply openLine_no_line_feed|].
    apply Forall_drop, split_no_line_feed.
Qed.

End ClockPropertyFacts.

(** ** Status Mapper and Task Ingestion *)

Section IngestionFacts.

Import Spec Ingestion.

Lemma find_firstWith (test : KanbanColumnConfig -> bool)
    (cols : list KanbanColumnConfig) (c : KanbanColumnConfig) :
  List.find test cols = Some c <-> firstWith test cols c.
Proof.
  unfold firstWith. split.
  - revert c. induction cols as [|c0 cols IH]; intros c H; [discriminate|].
    simpl in H. destruct (test c0) eqn:E.
    + injection H as <-. exists [], cols. repeat split; [exact E | constructor].
    + destruct (IH c H) as (before & after & -> & Hc & Hb).
      exists (c0 :: before), after. repeat split; [exact Hc|].
      constructor; assumption.
  - intros (before & after & -> & Hc & Hb).
    induction Hb as [|c0 before Hc0 Hb IH]; simpl.
    + now rewrite Hc.
    + now rewrite Hc0.
Qed.

Lemma find_noneWith (test : KanbanColumnConfig -> bool)
    (cols : list KanbanColumnConfig) :
  List.find test cols = None <-> noneWith test cols.
Proof.
  unfold noneWith. induction cols as [|c0 cols IH]; simpl.
  - split; [constructor | reflexivity].
  - destruct (test c0) eqn:E.
    + split; [discriminate|]. intros H. apply Forall_cons in H as [H _]. congruence.
    + rewrite IH. split.
      * intros H. constructor; assumption.
      * intros H. now apply Forall_cons in H as [_ H].
Qed.

Lemma firstWith_noneWith (test : KanbanColumnConfig -> bool)
    (cols : list KanbanColumnConfig) (c : KanbanColumnConfig) :
  firstWith test cols c -> noneWith test cols -> False.
Proof.
  intros H1 H2. apply find_firstWith in H1. apply find_noneWith in H2. congruence.
Qed.

(** C6, as amended.  The column of a status symbol [s] is the name of the
    first configured column whose symbol is exactly [s].  If there is
    none and [s] is [x] or [X], it is the name of the first column whose
    name, in lower case, is [done], when there is one.  In every other
    case it is the name of the first configured column, or ["TODO"] when
    no column is configured or that name is empty.  The function is total:
    nothing is raised for an unmapped symbol. *)
Theorem symbolToColumn_correct (cols : list KanbanColumnConfig) (s : string) :
  let result := symbolToColumn cols s in
  (forall c, firstWith (hasSymbol s) cols c -> result = name c)
  /\ (noneWith (hasSymbol s) cols -> isX s = true ->
      forall d, firstWith namedDone cols d -> result = name d)
  /\ (noneWith (hasSymbol s) cols -> isX s = false \/ noneWith namedDone cols ->
      (forall c rest, cols = c :: rest -> name c <> EmptyString -> result = name c)
      /\ (cols = [] \/ (exists c rest, cols = c :: rest /\ name c = EmptyString) ->
          result = "TODO")).
Proof.
  cbv zeta. unfold symbolToColumn, findBySymbol, findDone.
  fold (hasSymbol s). fold namedDone.
  split; [|split].
  - intros c Hc. apply find_firstWith in Hc. now rewrite Hc.
  - intros Hnone Hx d Hd. apply find_noneWith in Hnone.
    apply find_firstWith in Hd. now rewrite Hnone, Hx, Hd.
  - intros Hnone Hcase. apply find_noneWith in Hnone. rewrite Hnone.
    assert (Hdefault :
      (if isX s
       then match List.find namedDone cols with
            | Some doneCol => name doneCol
            | None => Js.orElse match cols with
                                | [] => EmptyString
                                | c0 :: _ => name c0
                                end "TODO"
            end
       else Js.orElse match cols with
                      | [] => EmptyString
                      | c0 :: _ => name c0
                      end "TODO")
      = Js.orElse match cols with
                  | [] => EmptyString
                  | c0 :: _ => name c0
                  end "TODO").
    { destruct Hcase as [Hx | Hd].
      - now rewrite Hx.
      - apply find_noneWith in Hd. rewrite Hd. now destruct (isX s). }
    rewrite Hdefault. split.
    + intros c rest -> Hname. unfold Js.orElse.
      destruct (String.eqb_spec (name c) EmptyString); [contradiction | reflexivity].
    + intros [-> | (c & rest & -> & Hname)]; [reflexivity|].
      now rewrite Hname.
Qed.

(** C6, as stated, fails where nothing is configured: the symbol [a]
    matches no column, is neither [x] nor [X], and the result ["TODO"] is
    not the first configured column, for there is none.  It fails as well
    when the first column has an empty name. *)
Lemma symbolToColumn_no_first_column :
  noneWith (hasSymbol "a") [] /\ isX "a" = false
  /\ symbolToColumn [] "a" = "TODO"
  /\ ~ (exists c, head ([] : list KanbanColumnConfig) = Some c
                  /\ symbolToColumn [] "a" = name c)
  /\ ~ (exists c,
          head [ {| colType := ""; name := ""; color := "#6b7280"; symbol := " " |} ]
          = Some c
          /\ symbolToColumn
               [ {| colType := ""; name := ""; color := "#6b7280"; symbol := " " |} ]
               "a" = name c).
Proof.
  split; [constructor|]. split; [reflexivity|]. split; [reflexivity|]. split.
  - intros (c & Hc & _). discriminate.
  - intros (c & Hc & Hr). injection Hc as <-. discriminate.
Qed.

(** The output of [parseTasks]: what [parseTask] makes of the records,
    as far as the filter keeps it. *)
Lemma parseTasks_elem
    (settings : ClockKanbanSettings) (windowStatus : string)
    (rawTasks : list RawTask) (t : KanbanTask) :
  t ∈ parseTasks settings windowStatus rawTasks
  <-> (exists i raw, rawTasks !! i = Some raw
                     /\ t = parseTask settings windowStatus i raw)
      /\ keepTask settings t = true.
Proof.
  unfold parseTasks. rewrite list_elem_of_In, filter_In, <- list_elem_of_In.
  rewrite elem_of_lookup_imap. split.
  - intros [(i & raw & -> & Hraw) H]. split; [|exact H]. now exists i, raw.
  - intros [(i & raw & Hraw & ->) H]. split; [|exact H]. now exists i, raw.
Qed.

(** C7, as amended.  A task is in the output of [parseTasks] exactly when
    it is what [parseTask] makes of some raw record and either
    [showCompletedTasks] is set or the first configured column that bears
    the name of the column of the task has a symbol other than [x] and [X]
    (which includes the case that no column bears that name).  The derived
    [status] plays no part. *)
Theorem parseTasks_keeps
    (settings : ClockKanbanSettings) (windowStatus : string)
    (rawTasks : list RawTask) (t : KanbanTask) :
  t ∈ parseTasks settings windowStatus rawTasks
  <-> (exists i raw, rawTasks !! i = Some raw
                     /\ t = parseTask settings windowStatus i raw)
      /\ (showCompletedTasks settings = true
          \/ forall c, firstWith (hasName (column t)) (columns settings) c ->
                       isX (symbol c) = false).
Proof.
  rewrite parseTasks_elem.
  assert (Hkeep : keepTask settings t = true
                  <-> (showCompletedTasks settings = true
                       \/ forall c, firstWith (hasName (column t)) (columns settings) c ->
                                    isX (symbol c) = false)).
  { unfold keepTask, findByName. fold (hasName (column t)).
    destruct (showCompletedTasks settings); cbn [negb andb].
    - split; [now left | reflexivity].
    - destruct (List.find (hasName (column t)) (columns settings)) as [c0|] eqn:E.
      + apply find_firstWith in E as E'. destruct (isX (symbol c0)) eqn:Ex.
        * split; [discriminate|]. intros [H | H]; [discriminate|].
          specialize (H c0 E'). congruence.
        * split; [|reflexivity]. intros _. right. intros c Hc.
          apply find_firstWith in Hc. congruence.
      + split; [|reflexivity]. intros _. right. intros c Hc.
        apply find_firstWith in Hc. congruence. }
  now rewrite Hkeep.
Qed.

(** C7, as stated, fails: with the columns Done ([x]) and TODO, and
    completed tasks hidden, a record with the unmapped symbol [?] falls
    back to the first column, Done, and is filtered out, although its
    derived status is [todo] (and [mapStatus] of its symbol is [todo] as
    well). *)
Lemma parseTasks_drops_a_todo_task :
  let settings := Scenario.settingsWith [Scenario.doneColumn; Scenario.todoColumn] in
  showCompletedTasks settings = false
  /\ status (parseTask settings "" 0 (Scenario.buyMilk "?")) = todo
  /\ mapStatus settings "?" = todo
  /\ parseTasks settings "" [Scenario.buyMilk "?"] = [].
Proof. cbv zeta. repeat split; reflexivity. Qed.

(** The status [parseTask] derives does not depend on the record. *)
Lemma parseTask_status
    (settings : ClockKanbanSettings) (windowStatus : string)
    (i : nat) (raw : RawTask) :
  status (parseTask settings windowStatus i raw) = mapStatus settings windowStatus.
Proof. reflexivity. Qed.

(** C8 at the failing input.  [mapStatus] maps the symbol [x] to [done],
    but the task ingested from a record with the symbol [x] has the
    status [todo]: [parseTasks] passes the global [status] of the window
    (the empty string unless a script has set it), not the symbol. *)
Theorem parseTask_status_of_x :
  mapStatus Scenario.settings "x" = done
  /\ status (parseTask Scenario.settings "" 0 (Scenario.buyMilk "x")) = todo
  /\ forall sym, status (parseTask Scenario.settings "" 0 (Scenario.buyMilk sym)) = todo.
Proof. repeat split; reflexivity. Qed.

(** [numberToString] on line numbers and beyond: every digit while the
    Number has at most 21 of them (with zeros where the Number has no
    more precision), the exponent form from there on. *)
Lemma numberToString_examples :
  numberToString 0 = "0"
  /\ numberToString 7 = "7"
  /\ numberToString (-1) = "-1"
  /\ numberToString 120 = "120"
  /\ numberToString (2 ^ 53) = "9007199254740992"
  /\ numberToString (2 ^ 53 + 1) = "9007199254740992"
  /\ numberToString (2 ^ 60) = "1152921504606847000"
  /\ numberToString (10 ^ 20) = "100000000000000000000"
  /\ numberToString (10 ^ 21) = "1e+21"
  /\ numberToString (2 ^ 70) = "1.1805916207174113e+21"
  /\ numberToString (10 ^ 23) = "1e+23"
  /\ numberToString (2 ^ 1024) = "Infinity".
Proof. repeat split; vm_compute; reflexivity. Qed.

Lemma hasOpenClock_run (rest : list string) :
  hasOpenClock rest = true
  <-> Exists (fun l => Annotator.openClockTest l = true) (annotationRun rest).
Proof.
  induction rest as [|l rest IH]; simpl.
  - split; [discriminate | intros H; inversion H].
  - destruct (Annotator.isClockLine l).
    + destruct (Annotator.openClockTest l) eqn:E.
      * split; [|reflexivity]. intros _. now constructor.
      * rewrite IH. split.
        -- intros H. now apply Exists_cons_tl.
        -- intros H. apply Exists_cons in H as [H | H]; [congruence | exact H].
    + split; [discriminate | intros H; inversion H].
Qed.

(** [checkIfTaskIsClockedIn] decides [openMarkerBelow]. *)
Lemma checkIfTaskIsClockedIn_spec (vault : Vault) (task : KanbanTask) :
  checkIfTaskIsClockedIn vault task = true <-> openMarkerBelow vault task.
Proof.
  unfold checkIfTaskIsClockedIn, openMarkerBelow.
  destruct (vault !! sourcePath task) as [content|].
  - destruct ((lineNumber task <? 0)%Z
              || (Z.of_nat (length (Js.split content)) <=? lineNumber task)%Z) eqn:E.
    + split; [discriminate|]. intros (c & Hc & Hb & _). injection Hc as <-.
      apply orb_prop in E as [E | E]; lia.
    + apply orb_false_elim in E as [E1 E2]. rewrite hasOpenClock_run. split.
      * intros H. exists content. split; [reflexivity|]. split; [lia | exact H].
      * intros (c & Hc & _ & H). now injection Hc as <-.
  - split; [discriminate|]. intros (c & Hc & _). discriminate.
Qed.

Lemma openMarkerBelow_forceClockColumn
    (settings : ClockKanbanSettings) (vault : Vault) (p : KanbanTask) :
  openMarkerBelow vault (forceClockColumn settings vault p)
  <-> openMarkerBelow vault p.
Proof.
  unfold forceClockColumn. now destruct (checkIfTaskIsClockedIn vault p).
Qed.

(** A line the locator resolves the task to is a line of the file. *)
Lemma resolvedLine_Some (vault : Vault) (task : KanbanTask) (i : nat) :
  resolvedLine vault task = Some i ->
  exists content,
    vault !! sourcePath task = Some content
    /\ Locator.findTaskInLines (Js.split content) (description task) (lineNumber task)
       = Z.of_nat i
    /\ (i < length (Js.split content))%nat.
Proof.
  unfold resolvedLine. destruct (vault !! sourcePath task) as [content|]; [|discriminate].
  cbv zeta.
  destruct (Z.ltb_spec
              (Locator.findTaskInLines (Js.split content) (description task)
                 (lineNumber task)) 0) as [Hneg | Hpos]; [discriminate|].
  intros H. injection H as <-. exists content. split; [reflexivity|].
  destruct (findTaskInLines_found (description task) (Js.split content) (lineNumber task))
    as [Hr | [Hb _]]; lia.
Qed.

(** Where the line number of the task is the line the locator resolves
    it to, the marker below the resolved line is the marker
    [checkIfTaskIsClockedIn] looks for. *)
Lemma openMarkerBelowLine_resolved (vault : Vault) (task : KanbanTask) (i : nat) :
  resolvedLine vault task = Some i ->
  lineNumber task = Z.of_nat i ->
  openMarkerBelowLine vault task i <-> openMarkerBelow vault task.
Proof.
  intros Hres Hline. apply resolvedLine_Some in Hres as (content & Hfile & _ & Hlt).
  unfold openMarkerBelowLine, openMarkerBelow. rewrite Hline, Nat2Z.id. split.
  - intros (c & Hc & H). exists c. split; [exact Hc|]. split; [|exact H].
    rewrite Hfile in Hc. injection Hc as <-. lia.
  - intros (c & Hc & _ & H). exists c. now split.
Qed.

Lemma resolvedLine_forceClockColumn
    (settings : ClockKanbanSettings) (vault : Vault) (p : KanbanTask) :
  resolvedLine vault (forceClockColumn settings vault p) = resolvedLine vault p
  /\ lineNumber (forceClockColumn settings vault p) = lineNumber p.
Proof.
  unfold forceClockColumn. now destruct (checkIfTaskIsClockedIn vault p).
Qed.

(** C5, as amended.  For every task [loadTasks] returns whose line number
    is the line the Task Locator resolves it to in its file: if an open
    interval marker stands in the annotation run directly below that
    resolved line, its column is the clock column and [isClockedIn] is
    set, whatever the column of its symbol; otherwise it is as
    [parseTask] made it from its record, with [isClockedIn] set exactly
    when the record reports an active interval or the column of its
    symbol is the clock column. *)
Theorem loadTasks_clock_column
    (settings : ClockKanbanSettings) (windowStatus : string) (vault : Vault)
    (rawTasks : list RawTask) (t : KanbanTask) (i : nat) :
  t ∈ loadTasks settings windowStatus vault (Some rawTasks) ->
  resolvedLine vault t = Some i ->
  lineNumber t = Z.of_nat i ->
  (openMarkerBelowLine vault t i ->
   column t = clockColumn settings /\ isClockedIn t = true)
  /\ (~ openMarkerBelowLine vault t i ->
      exists k raw,
        rawTasks !! k = Some raw
        /\ t = parseTask settings windowStatus k raw
        /\ isClockedIn t
           = raw_isClockedIn raw
             || String.eqb (symbolToColumn (columns settings) (rawSymbol (raw_status raw)))
                           (clockColumn settings)).
Proof.
  unfold loadTasks. rewrite list_elem_of_In, in_map_iff.
  intros (p & <- & Hp) Hres Hline.
  rewrite (openMarkerBelowLine_resolved _ _ _ Hres Hline).
  rewrite openMarkerBelow_forceClockColumn, <- checkIfTaskIsClockedIn_spec.
  unfold forceClockColumn. destruct (checkIfTaskIsClockedIn vault p) eqn:Hc.
  - split; [intros _; split; reflexivity | intros H; now destruct H].
  - split; [discriminate|]. intros _.
    apply list_elem_of_In, parseTasks_elem in Hp as [(k & raw & Hraw & ->) _].
    exists k, raw. split; [exact Hraw|]. split; reflexivity.
Qed.

Lemma loadTasks_clock_column_witness :
  let vault := Scenario.vaultWith Scenario.clockedDocument in
  let t := setColumn "Working" (setIsClockedIn true
             (parseTask Scenario.settings "" 0 (Scenario.buyMilk " "))) in
  t ∈ loadTasks Scenario.settings "" vault (Some [Scenario.buyMilk " "])
  /\ resolvedLine vault t = Some 1%nat
  /\ lineNumber t = Z.of_nat 1
  /\ openMarkerBelowLine vault t 1
  /\ column t = clockColumn Scenario.settings
  /\ isClockedIn t = true.
Proof.
  cbv zeta.
  assert (Hin : setColumn "Working" (setIsClockedIn true
                  (parseTask Scenario.settings "" 0 (Scenario.buyMilk " ")))
                ∈ loadTasks Scenario.settings ""
                    (Scenario.vaultWith Scenario.clockedDocument)
                    (Some [Scenario.buyMilk " "])).
  { vm_compute. apply list_elem_of_here. }
  assert (Hres : resolvedLine (Scenario.vaultWith Scenario.clockedDocument)
                   (setColumn "Working" (setIsClockedIn true
                      (parseTask Scenario.settings "" 0 (Scenario.buyMilk " "))))
                 = Some 1%nat).
  { vm_compute. reflexivity. }
  assert (Hopen : openMarkerBelowLine (Scenario.vaultWith Scenario.clockedDocument)
                    (setColumn "Working" (setIsClockedIn true
                       (parseTask Scenario.settings "" 0 (Scenario.buyMilk " ")))) 1).
  { apply (openMarkerBelowLine_resolved _ _ _ Hres eq_refl).
    apply checkIfTaskIsClockedIn_spec. vm_compute. reflexivity. }
  split; [exact Hin|]. split; [exact Hres|]. split; [reflexivity|].
  split; [exact Hopen|].
  exact (proj1 (loadTasks_clock_column Scenario.settings ""
                  (Scenario.vaultWith Scenario.clockedDocument)
                  [Scenario.buyMilk " "] _ 1%nat Hin Hres eq_refl) Hopen).
Defined.

(** C5, as stated, fails in its second half: a task whose symbol is the
    symbol of the clock column is ingested with [isClockedIn] set although
    no interval marker stands below its line, which is the line the
    locator resolves it to. *)
Lemma clocked_in_without_marker :
  loadTasks Scenario.settings "" (Scenario.vaultWith Scenario.plainDocument)
    (Some [Scenario.buyMilk "/"]) = [Scenario.workingTask]
  /\ isClockedIn Scenario.workingTask = true
  /\ ~ openMarkerBelow (Scenario.vaultWith Scenario.plainDocument) Scenario.workingTask
  /\ resolvedLine (Scenario.vaultWith Scenario.plainDocument) Scenario.workingTask
     = Some 1%nat
  /\ ~ openMarkerBelowLine (Scenario.vaultWith Scenario.plainDocument)
         Scenario.workingTask 1.
Proof.
  assert (Hres : resolvedLine (Scenario.vaultWith Scenario.plainDocument)
                   Scenario.workingTask = Some 1%nat).
  { vm_compute. reflexivity. }
  assert (Hno : ~ openMarkerBelow (Scenario.vaultWith Scenario.plainDocument)
                    Scenario.workingTask).
  { intros H. apply checkIfTaskIsClockedIn_spec in H. vm_compute in H. discriminate. }
  split; [vm_compute; reflexivity|]. split; [reflexivity|]. split; [exact Hno|].
  split; [exact Hres|].
  intros H. apply Hno. now apply (openMarkerBelowLine_resolved _ _ _ Hres eq_refl).
Qed.

(** Where the line number of the record is out of date, the two readers
    of the file part ways.  The task stands on line 2 and has an open
    interval below it, and the record still gives line 1:
    [checkIfTaskIsClockedIn] reads below line 1 and [loadTasks] leaves
    the task in the column of its symbol, while [manageClockProperty],
    which asks the locator first, finds the interval and closes it. *)
Lemma stale_line_number_misses_interval :
  let vault :=
    Scenario.vaultWith
      (Js.join ["# Today"; ""; "- [ ] Buy milk";
                "      [clock::2026-01-01T10:00:00]"]) in
  let t := parseTask Scenario.settings "" 0 (Scenario.buyMilk " ") in
  loadTasks Scenario.settings "" vault (Some [Scenario.buyMilk " "]) = [t]
  /\ lineNumber t = 1%Z
  /\ resolvedLine vault t = Some 2%nat
  /\ openMarkerBelowLine vault t 2
  /\ column t = "TODO"
  /\ isClockedIn t = false
  /\ fst (Plugin.manageClockAction Plugin.clockEndType "2026-01-01T11:00:00" vault t)
     = Scenario.vaultWith
         (Js.join ["# Today"; ""; "- [ ] Buy milk";
                   "      [clock::2026-01-01T10:00:00--2026-01-01T11:00:00]"]).
Proof.
  cbv zeta. split; [vm_compute; reflexivity|]. split; [reflexivity|].
  split; [vm_compute; reflexivity|]. split.
  - eexists. split; [reflexivity|]. apply hasOpenClock_run. vm_compute. reflexivity.
  - split; [reflexivity|]. split; [reflexivity|]. vm_compute. reflexivity.
Qed.

End IngestionFacts.

(** ** Document Mutation Queue *)

Section QueueFacts.

Import Queue QueueInv.

Open Scope list_scope.

Lemma snoc_split {A} (l before after : list A) (e x : A) :
  l ++ [e] = before ++ x :: after ->
  (after = [] /\ x = e /\ before = l)
  \/ (exists after', after = after' ++ [e] /\ l = before ++ x :: after').
Proof.
  destruct after as [|y after' _] using rev_ind; intros H.
  - left. apply app_inj_tail in H as [-> ->]. auto.
  - right. exists after'.
    change (before ++ x :: after' ++ [y]) with (before ++ (x :: after') ++ [y]) in H.
    rewrite app_assoc in H. apply app_inj_tail in H as [-> ->]. auto.
Qed.

Lemma finished_snoc (tr : list Event) (e : Event) (a : nat) :
  finished tr a -> finished (tr ++ [e]) a.
Proof. intros [o Ho]. exists o. apply elem_of_app. now left. Qed.

Lemma promiseOk_snoc (tr : list Event) (e : Event) (role : Role) (st : PromiseState) :
  promiseOk tr role st -> promiseOk (tr ++ [e]) role st.
Proof.
  destruct role as [|a|a|a]; simpl; [auto| | |].
  - intros [H | H]; [now left | right]. now apply finished_snoc.
  - intros [H | [H1 H2]]; [now left | right].
    split; [exact H1 | now apply finished_snoc].
  - intros [H | H]; [now left | right]. now apply finished_snoc.
Qed.

Lemma ordered_snoc_other (sub : list string) (tr : list Event) (e : Event) :
  ordered sub tr -> (forall a, e <> Started a) -> ordered sub (tr ++ [e]).
Proof.
  intros Hord He before after a1 a2 path Htr Hlt H1 H2.
  apply snoc_split in Htr as [(_ & Hx & _) | (after' & _ & Htr)].
  - exfalso. exact (He a2 (eq_sym Hx)).
  - exact (Hord _ _ _ _ _ Htr Hlt H1 H2).
Qed.

Lemma ordered_snoc_started (sub : list string) (tr : list Event) (a2 : nat) :
  ordered sub tr ->
  (forall a1 path, (a1 < a2)%nat -> sub !! a1 = Some path -> sub !! a2 = Some path ->
                   finished tr a1) ->
  ordered sub (tr ++ [Started a2]).
Proof.
  intros Hord Hfin before after a1 a2' path Htr Hlt H1 H2.
  apply snoc_split in Htr as [(_ & Hx & ->) | (after' & _ & Htr)].
  - injection Hx as ->. exact (Hfin _ _ Hlt H1 H2).
  - exact (Hord _ _ _ _ _ Htr Hlt H1 H2).
Qed.

Lemma ordered_grow (sub : list string) (tr : list Event) (path : string) :
  ordered sub tr ->
  (forall a, Started a ∈ tr -> (a < length sub)%nat) ->
  ordered (sub ++ [path]) tr.
Proof.
  intros Hord Hst before after a1 a2 path' Htr Hlt H1 H2.
  assert (Ha2 : (a2 < length sub)%nat).
  { apply Hst. rewrite Htr. apply elem_of_app. right. apply list_elem_of_here. }
  rewrite lookup_app_l in H1 by lia. rewrite lookup_app_l in H2 by lia.
  exact (Hord _ _ _ _ _ Htr Hlt H1 H2).
Qed.

Lemma lookup_app_Some_l {A} (l k : list A) (i : nat) (x : A) :
  l !! i = Some x -> (l ++ k) !! i = Some x.
Proof. intros H. rewrite lookup_app_l; [exact H | now apply lookup_lt_Some in H]. Qed.

Lemma chainSource_grow (roles more : list Role) (sub : list string) (path : string)
    (s a : nat) :
  (a < length sub)%nat ->
  chainSource roles sub s a -> chainSource (roles ++ more) (sub ++ [path]) s a.
Proof.
  intros Ha [[Hs Hnone] | (b & Hs & Hb & Hsame & Hlast)].
  - left. split; [now apply lookup_app_Some_l|].
    intros b Hb. rewrite !lookup_app_l by lia. now apply Hnone.
  - right. exists b. split; [now apply lookup_app_Some_l|]. split; [exact Hb|].
    split.
    + now rewrite !lookup_app_l by lia.
    + intros c Hc. rewrite !lookup_app_l by lia. now apply Hlast.
Qed.

Lemma reactionOk_grow (roles more : list Role) (sub : list string) (path : string)
    (r : Registered) :
  reactionOk roles sub r -> reactionOk (roles ++ more) (sub ++ [path]) r.
Proof.
  unfold reactionOk. destruct (reaction r) as [a | p |].
  - intros (Hd & Ha & Hs). split; [now apply lookup_app_Some_l|].
    split; [rewrite length_app; lia|]. now apply chainSource_grow.
  - intros (a & Hs & Hd). exists a. split; now apply lookup_app_Some_l.
  - intros (a & Hs & Hd). exists a. split; now apply lookup_app_Some_l.
Qed.

Lemma reactionOk_roles (roles more : list Role) (sub : list string) (r : Registered) :
  reactionOk roles sub r -> reactionOk (roles ++ more) sub r.
Proof.
  unfold reactionOk. destruct (reaction r) as [a | p |].
  - intros (Hd & Ha & Hs). split; [now apply lookup_app_Some_l|].
    split; [exact Ha|].
    destruct Hs as [[Hs Hnone] | (b & Hs & Hb)].
    + left. split; [now apply lookup_app_Some_l | exact Hnone].
    + right. exists b. split; [now apply lookup_app_Some_l | exact Hb].
  - intros (a & Hs & Hd). exists a. split; now apply lookup_app_Some_l.
  - intros (a & Hs & Hd). exists a. split; now apply lookup_app_Some_l.
Qed.

Lemma runningOk_grow (roles more : list Role) (tr more' : list Event) (ap : nat * nat) :
  runningOk roles tr ap -> runningOk (roles ++ more) (tr ++ more') ap.
Proof.
  intros [H1 H2]. split; [now apply lookup_app_Some_l|].
  apply elem_of_app. now left.
Qed.

Lemma queueOk_roles (roles more : list Role) (sub : list string)
    (queue : gmap string nat) (path : string) :
  queueOk roles sub queue path -> queueOk (roles ++ more) sub queue path.
Proof.
  unfold queueOk. destruct (queue !! path); [|auto].
  intros (b & Hb & H). exists b. split; [now apply lookup_app_Some_l | exact H].
Qed.

Lemma Forall2_settle (tr : list Event) (roles : list Role)
    (ps : list PromiseState) (d : nat) (role : Role) (st : PromiseState) :
  Forall2 (promiseOk tr) roles ps ->
  roles !! d = Some role -> promiseOk tr role st ->
  Forall2 (promiseOk tr) roles (<[d := st]> ps).
Proof.
  intros H Hd Hst. rewrite <- (list_insert_id roles d role Hd).
  now apply Forall2_insert.
Qed.

Lemma inv_initial : Inv initial [].
Proof.
  constructor; simpl; try constructor.
  - intros path. unfold queueOk. rewrite lookup_empty. intros c H. discriminate.
  - intros before after a1 a2 path H. now destruct before.
  - intros a H. inversion H.
  - intros a [o H]. inversion H.
  - intros a H. inversion H.
Qed.

(** The entries of the queue after a new action [n] of [path] took the tail. *)
Lemma queueOk_submit (roles more : list Role) (sub : list string)
    (queue : gmap string nat) (path path' : string) (next : nat) :
  (forall p, queueOk roles sub queue p) ->
  (roles ++ more) !! next = Some (RoleNext (length sub)) ->
  queueOk (roles ++ more) (sub ++ [path]) (<[path := next]> queue) path'.
Proof.
  intros Hq Hnext. unfold queueOk.
  destruct (decide (path = path')) as [<- | Hne].
  - rewrite lookup_insert_eq. exists (length sub). split; [exact Hnext|].
    split; [now apply list_lookup_middle|].
    intros c Hc. apply lookup_lt_Some in Hc. rewrite length_app in Hc. simpl in Hc. lia.
  - rewrite lookup_insert_ne by exact Hne.
    specialize (Hq path'). unfold queueOk in Hq.
    assert (Hnew : forall c, (sub ++ [path]) !! c = Some path' -> sub !! c = Some path').
    { intros c Hc. apply lookup_app_Some in Hc as [Hc | [_ Hc]]; [exact Hc|].
      apply list_lookup_singleton_Some in Hc as [_ Hc]. congruence. }
    destruct (queue !! path') as [p|].
    + destruct Hq as (b & Hb & Hsub & Hlast). exists b.
      split; [now apply lookup_app_Some_l|]. split; [now apply lookup_app_Some_l|].
      intros c Hc. apply Hlast, Hnew, Hc.
    + intros c Hc. exact (Hq c (Hnew c Hc)).
Qed.

Lemma inv_queueFileAction (rt : Runtime) (roles : list Role) (path : string) :
  Inv rt roles -> Inv (snd (queueFileAction path rt)) (roles ++ callRoles rt path).
Proof.
  intros [Hp Hr Hrun Hq Hord Hst Hfin Hskip].
  pose proof (Forall2_length _ _ _ Hp) as Hlen.
  unfold callRoles, queueFileAction, bind, submit, queueGet, promiseResolve,
    promiseReact, bind, newPromise, register, queueSet, ret.
  cbn. pose proof (Hq path) as Hqp. unfold queueOk in Hqp.
  destruct (modificationQueue rt !! path) as [p|] eqn:Hget; cbn.
  - destruct Hqp as (b & Hb & Hsub & Hlast).
    constructor; cbn.
    + rewrite <- app_assoc. apply Forall2_app; [exact Hp|].
      repeat constructor.
    + rewrite <- app_assoc. apply Forall_app. split.
      * eapply Forall_impl; [exact Hr|]. intros r. apply reactionOk_grow.
      * apply Forall_cons. split; [|apply Forall_cons; split; [|constructor]];
          unfold reactionOk; cbn; [split; [|split]|].
        -- rewrite <- Hlen. now apply list_lookup_middle.
        -- rewrite length_app. simpl. lia.
        -- right. exists b. split; [now apply lookup_app_Some_l|].
           pose proof (lookup_lt_Some _ _ _ Hsub) as Hblt.
           split; [exact Hblt|]. split.
           ++ rewrite lookup_app_l by lia.
              rewrite list_lookup_middle by reflexivity. exact Hsub.
           ++ intros c Hc. rewrite lookup_app_l by lia.
              rewrite list_lookup_middle by reflexivity. apply Hlast.
        -- exists (length (submitted rt)). rewrite length_app, <- Hlen. split.
           ++ now apply list_lookup_middle.
           ++ rewrite lookup_app_r by lia.
              now replace (length roles + length [Pending] - length roles)%nat
                with 1%nat by (simpl; lia).
    + eapply Forall_impl; [exact Hrun|]. intros ap H.
      rewrite <- (app_nil_r (trace rt)). now apply runningOk_grow.
    + intros path'. apply queueOk_submit; [exact Hq|].
      rewrite length_app, <- Hlen. rewrite lookup_app_r by lia.
      now replace (length roles + length [Pending] - length roles)%nat
        with 1%nat by (simpl; lia).
    + now apply ordered_grow.
    + intros a Ha. rewrite length_app. specialize (Hst a Ha). lia.
    + exact Hfin.
    + exact Hskip.
  - constructor; cbn.
    + rewrite <- !app_assoc. apply Forall2_app; [exact Hp|].
      repeat constructor.
    + rewrite <- app_assoc. apply Forall_app. split.
      * eapply Forall_impl; [exact Hr|]. intros r. apply reactionOk_grow.
      * apply Forall_cons. split; [|apply Forall_cons; split; [|constructor]];
          unfold reactionOk; cbn; [split; [|split]|].
        -- rewrite length_app, <- Hlen. rewrite lookup_app_r by lia.
           now replace (length roles + length [Settled Fulfilled] - length roles)%nat
             with 1%nat by (simpl; lia).
        -- rewrite length_app. simpl. lia.
        -- left. split; [rewrite <- Hlen; now apply list_lookup_middle|].
           intros b Hb. rewrite lookup_app_l by lia.
           rewrite list_lookup_middle by reflexivity. apply Hqp.
        -- exists (length (submitted rt)). rewrite !length_app, <- Hlen. split.
           ++ rewrite lookup_app_r by lia.
              now replace (length roles + length [Settled Fulfilled] - length roles)%nat
                with 1%nat by (simpl; lia).
           ++ rewrite lookup_app_r by lia.
              now replace (length roles + length [Settled Fulfilled] + length [Pending]
                           - length roles)%nat with 2%nat by (simpl; lia).
    + eapply Forall_impl; [exact Hrun|]. intros ap H.
      rewrite <- (app_nil_r (trace rt)). now apply runningOk_grow.
    + intros path'. apply queueOk_submit; [exact Hq|].
      rewrite !length_app, <- Hlen. rewrite lookup_app_r by lia.
      now replace (length roles + length [Settled Fulfilled] + length [Pending]
                   - length roles)%nat with 2%nat by (simpl; lia).
    + now apply ordered_grow.
    + intros a Ha. rewrite length_app. specialize (Hst a Ha). lia.
    + exact Hfin.
    + exact Hskip.
Qed.

(** A settled promise with a role tells that its action has finished. *)
Lemma settled_finished (rt : Runtime) (roles : list Role) (p a : nat) (o : Settlement) :
  Inv rt roles ->
  promises rt !! p = Some (Settled o) ->
  roles !! p = Some (RoleThen a) \/ roles !! p = Some (RoleBody a)
  \/ roles !! p = Some (RoleNext a) ->
  finished (trace rt) a.
Proof.
  intros HI Hp Hrole.
  destruct Hrole as [Hr | [Hr | Hr]];
    pose proof (Forall2_lookup_lr _ _ _ _ _ _ (inv_promises _ _ HI) Hr Hp) as H;
    simpl in H; destruct H as [H | H]; try discriminate; try exact H.
  now destruct H.
Qed.

(** The source of a [then(action)] reaction is never rejected. *)
Lemma chainSource_fulfilled (rt : Runtime) (roles : list Role) (s a : nat) (o : Settlement) :
  Inv rt roles ->
  chainSource roles (submitted rt) s a ->
  promises rt !! s = Some (Settled o) ->
  o = Fulfilled.
Proof.
  intros HI Hs Hp.
  destruct Hs as [[Hr _] | (b & Hr & _)];
    pose proof (Forall2_lookup_lr _ _ _ _ _ _ (inv_promises _ _ HI) Hr Hp) as H;
    simpl in H.
  - congruence.
  - destruct H as [H | [H _]]; congruence.
Qed.

(** When the source of the [then(action)] reaction of [a] has settled,
    every earlier action of the path of [a] has finished. *)
Lemma chainSource_finished (rt : Runtime) (roles : list Role) (s a a1 : nat)
    (o : Settlement) (path : string) :
  Inv rt roles ->
  chainSource roles (submitted rt) s a ->
  promises rt !! s = Some (Settled o) ->
  (a1 < a)%nat ->
  submitted rt !! a1 = Some path -> submitted rt !! a = Some path ->
  finished (trace rt) a1.
Proof.
  intros HI Hs Hp Hlt H1 H2.
  destruct Hs as [[_ Hnone] | (b & Hr & Hb & Hsame & Hlast)].
  - exfalso. apply (Hnone a1 Hlt). congruence.
  - assert (Hfb : finished (trace rt) b) by (eapply settled_finished; eauto).
    assert (Hle : (a1 <= b)%nat) by (apply Hlast; [exact Hlt | congruence]).
    destruct (decide (a1 = b)) as [-> | Hne]; [exact Hfb|].
    apply (inv_finished _ _ HI) in Hfb.
    apply list_elem_of_split in Hfb as (l1 & l2 & Htr).
    destruct (inv_ordered _ _ HI l1 l2 a1 b path Htr) as [o' Ho'];
      [lia | exact H1 | congruence |].
    exists o'. rewrite Htr. apply elem_of_app. now left.
Qed.

Lemma Forall_app_remove {A} (P : A -> Prop) (before after : list A) (x : A) :
  Forall P (before ++ x :: after) -> P x /\ Forall P (before ++ after).
Proof.
  intros H. apply Forall_app in H as [Hb H]. apply Forall_cons in H as [Hx Ha].
  split; [exact Hx|]. apply Forall_app. now split.
Qed.

Lemma inv_runReaction (rt : Runtime) (roles : list Role)
    (before : list Registered) (r : Registered) (after : list Registered)
    (o : Settlement) :
  Inv rt roles ->
  reactions rt = before ++ r :: after ->
  promises rt !! source r = Some (Settled o) ->
  Inv (snd ((_ <- setReactions (before ++ after) ;; runReaction r o) rt))
      (roles ++ reactRoles r o).
Proof.
  intros HI Hsplit Hsrc.
  pose proof HI as [Hp Hr Hrun Hq Hord Hst Hfin Hskip].
  pose proof (Forall2_length _ _ _ Hp) as Hlen.
  rewrite Hsplit in Hr. apply Forall_app_remove in Hr as [Hok Hr].
  unfold reactRoles, runReaction, bind, setReactions, emit, newPromise,
    setRunning, register, settle.
  unfold reactionOk in Hok.
  destruct (reaction r) as [a | path |] eqn:Hreact.
  - destruct Hok as (Hd & Ha & Hs).
    assert (o = Fulfilled) as -> by (eapply chainSource_fulfilled; eauto).
    cbn. constructor; cbn.
    + apply Forall2_app; [|repeat constructor].
      eapply Forall2_impl; [exact Hp|]. intros role st. apply promiseOk_snoc.
    + apply Forall_app. split.
      * eapply Forall_impl; [exact Hr|]. intros r'. apply reactionOk_roles.
      * apply Forall_cons. split; [|constructor]. unfold reactionOk; cbn.
        exists a. split; [rewrite <- Hlen; now apply list_lookup_middle|].
        now apply lookup_app_Some_l.
    + apply Forall_app. split.
      * eapply Forall_impl; [exact Hrun|]. intros ap. apply runningOk_grow.
      * apply Forall_cons. split; [|constructor]. split; cbn.
        -- rewrite <- Hlen. now apply list_lookup_middle.
        -- apply elem_of_app. right. apply list_elem_of_here.
    + intros path'. apply queueOk_roles, Hq.
    + apply ordered_snoc_started; [exact Hord|].
      intros a1 path Hlt H1 H2. eapply chainSource_finished; eauto.
    + intros a' Ha'. apply elem_of_app in Ha' as [Ha' | Ha']; [now apply Hst|].
      apply list_elem_of_singleton in Ha'. now injection Ha' as ->.
    + intros a' [o' Ho']. apply elem_of_app. left. apply Hfin.
      apply elem_of_app in Ho' as [Ho' | Ho']; [now exists o'|].
      apply list_elem_of_singleton in Ho'. discriminate.
    + intros a' Ha'. apply elem_of_app in Ha' as [Ha' | Ha']; [now apply (Hskip a')|].
      apply list_elem_of_singleton in Ha'. discriminate.
  - destruct Hok as (a & Hs & Hd).
    assert (Hfa : finished (trace rt) a) by (eapply settled_finished; eauto).
    rewrite app_nil_r. destruct o; cbn; constructor; cbn.
    + eapply Forall2_settle; [exact Hp | exact Hd | right; now split].
    + exact Hr.
    + exact Hrun.
    + exact Hq.
    + exact Hord.
    + exact Hst.
    + exact Hfin.
    + exact Hskip.
    + eapply Forall2_settle; [| exact Hd | right; split; [reflexivity|]].
      * eapply Forall2_impl; [exact Hp|]. intros role st. apply promiseOk_snoc.
      * now apply finished_snoc.
    + exact Hr.
    + eapply Forall_impl; [exact Hrun|]. intros ap H.
      rewrite <- (app_nil_r roles). now apply runningOk_grow.
    + exact Hq.
    + apply ordered_snoc_other; [exact Hord | discriminate].
    + intros a' Ha'. apply elem_of_app in Ha' as [Ha' | Ha']; [now apply Hst|].
      apply list_elem_of_singleton in Ha'. discriminate.
    + intros a' [o' Ho']. apply elem_of_app. left. apply Hfin.
      apply elem_of_app in Ho' as [Ho' | Ho']; [now exists o'|].
      apply list_elem_of_singleton in Ho'. discriminate.
    + intros a' Ha'. apply elem_of_app in Ha' as [Ha' | Ha']; [now apply (Hskip a')|].
      apply list_elem_of_singleton in Ha'. discriminate.
  - destruct Hok as (a & Hs & Hd).
    assert (Hfa : finished (trace rt) a) by (eapply settled_finished; eauto).
    rewrite app_nil_r. cbn. constructor; cbn; try assumption.
    eapply Forall2_settle; [exact Hp | exact Hd | now right].
Qed.

Lemma inv_finishAction (rt : Runtime) (roles : list Role)
    (before : list (nat * nat)) (a p : nat) (after : list (nat * nat))
    (o : Settlement) :
  Inv rt roles ->
  running rt = before ++ (a, p) :: after ->
  Inv (snd ((_ <- setRunning (before ++ after) ;; finishAction a p o) rt)) roles.
Proof.
  intros HI Hsplit.
  pose proof HI as [Hp Hr Hrun Hq Hord Hst Hfin Hskip].
  rewrite Hsplit in Hrun. apply Forall_app_remove in Hrun as [[Hrole Hstarted] Hrun].
  cbn in Hrole, Hstarted.
  unfold finishAction, bind, setRunning, emit, settle. cbn.
  constructor; cbn.
  - eapply Forall2_settle; [| exact Hrole |].
    + eapply Forall2_impl; [exact Hp|]. intros role st. apply promiseOk_snoc.
    + right. exists o. apply elem_of_app. right. apply list_elem_of_here.
  - exact Hr.
  - eapply Forall_impl; [exact Hrun|]. intros ap H.
    rewrite <- (app_nil_r roles). now apply runningOk_grow.
  - exact Hq.
  - apply ordered_snoc_other; [exact Hord | discriminate].
  - intros a' Ha'. apply elem_of_app in Ha' as [Ha' | Ha']; [now apply Hst|].
    apply list_elem_of_singleton in Ha'. discriminate.
  - intros a' [o' Ho']. apply elem_of_app. left.
    apply elem_of_app in Ho' as [Ho' | Ho']; [apply Hfin; now exists o'|].
    apply list_elem_of_singleton in Ho'. now injection Ho' as -> ->.
  - intros a' Ha'. apply elem_of_app in Ha' as [Ha' | Ha']; [now apply (Hskip a')|].
    apply list_elem_of_singleton in Ha'. discriminate.
Qed.

Lemma exec_step (c : Command) (rt rt' : Runtime) :
  exec c rt = Some rt' -> step rt rt'.
Proof.
  destruct c as [path | i | i o]; simpl.
  - intros H. injection H as <-. apply step_queue.
  - destruct (reactions rt !! i) as [r|] eqn:Hr; [|discriminate].
    destruct (promises rt !! source r) as [[|o]|] eqn:Hp; try discriminate.
    intros H. injection H as <-.
    apply step_react; [|exact Hp].
    rewrite <- (take_drop_middle _ _ _ Hr) at 1. reflexivity.
  - destruct (running rt !! i) as [[a p]|] eqn:Hr; [|discriminate].
    intros H. injection H as <-.
    apply step_finish.
    rewrite <- (take_drop_middle _ _ _ Hr) at 1. reflexivity.
Qed.

Lemma run_reachable (schedule : list Command) (rt rt' : Runtime) :
  reachable rt -> run schedule rt = Some rt' -> reachable rt'.
Proof.
  revert rt. induction schedule as [|c rest IH]; intros rt Hrt; simpl.
  - intros H. now injection H as <-.
  - destruct (exec c rt) as [rt1|] eqn:Hc; [|discriminate].
    apply IH. exact (reachable_step _ _ Hrt (exec_step c _ _ Hc)).
Qed.

Lemma live_initial : Live initial [].
Proof.
  constructor; simpl.
  - intros p q role _ H. discriminate.
  - intros p role a H. discriminate.
  - intros p a H. discriminate.
  - intros r a H. inversion H.
  - constructor.
  - intros a path H. discriminate.
Qed.

Lemma settled_insert (ps : list PromiseState) (d p : nat) (o : Settlement) :
  (exists o', ps !! p = Some (Settled o')) ->
  exists o', <[d := Settled o]> ps !! p = Some (Settled o').
Proof.
  intros [o' H]. destruct (decide (d = p)) as [-> | Hne].
  - exists o. apply list_lookup_insert_eq. now apply lookup_lt_Some in H.
  - exists o'. now rewrite list_lookup_insert_ne.
Qed.

(** A phase carries over to a later state in which the promises of the
    action are at least as settled and its reactions and its running body
    are still there. *)
Lemma phase_transfer (rt rt' : Runtime) (roles more : list Role)
    (a : nat) (path : string) :
  (forall p, roles !! p = Some (RoleNext a) ->
             promises rt !! p = Some (Settled Fulfilled) ->
             promises rt' !! p = Some (Settled Fulfilled)) ->
  (forall p, settled rt p -> settled rt' p) ->
  (forall r role, r ∈ reactions rt -> roles !! derived r = Some role ->
                  actionOf role = Some a -> r ∈ reactions rt') ->
  (forall p, (a, p) ∈ running rt -> (a, p) ∈ running rt' \/ settled rt' p) ->
  phase rt roles a path -> phase rt' (roles ++ more) a path.
Proof.
  intros T1 T2 T3 T4 (pThen & pNext & HpT & HpN & H).
  exists pThen, pNext.
  split; [now apply lookup_app_Some_l|]. split; [now apply lookup_app_Some_l|].
  destruct H as [H | [Hcatch H]]; [left; now apply T1|].
  right. split; [apply (T3 _ _ Hcatch HpN eq_refl)|].
  destruct H as [H | [(pBody & HpB & Hadopt & H) | [s H]]].
  - left. now apply T2.
  - right. left. exists pBody. split; [now apply lookup_app_Some_l|].
    split; [apply (T3 _ _ Hadopt HpT eq_refl)|].
    destruct H as [H | H]; [left; now apply T2|].
    destruct (T4 _ H) as [H' | H']; [now right | now left].
  - right. right. exists s. apply (T3 _ _ H HpT eq_refl).
Qed.

Lemma settled_app (rt : Runtime) (ps more : list PromiseState) (p : nat) :
  (exists o, ps !! p = Some (Settled o)) ->
  exists o, (ps ++ more) !! p = Some (Settled o).
Proof. intros [o H]. exists o. now apply lookup_app_Some_l. Qed.

Lemma derived_lt (roles : list Role) (sub : list string) (r : Registered) :
  reactionOk roles sub r -> derived r < length roles.
Proof.
  unfold reactionOk. destruct (reaction r).
  - intros (H & _). now apply lookup_lt_Some in H.
  - intros (a & _ & H). now apply lookup_lt_Some in H.
  - intros (a & _ & H). now apply lookup_lt_Some in H.
Qed.

(** The state [queueFileAction] leaves, in one shape for both cases. *)
Lemma queueFileAction_shape (rt : Runtime) (path : string) :
  exists (pre : list PromiseState) (preR : list Role) (s : nat),
    length pre = length preR
    /\ Forall (fun role => role = RoleInit) preR
    /\ callRoles rt path
       = preR ++ [RoleThen (length (submitted rt)); RoleNext (length (submitted rt))]
    /\ snd (queueFileAction path rt)
       = {| promises := promises rt ++ pre ++ [Pending; Pending];
            reactions :=
              reactions rt
              ++ [thenReaction s (length (submitted rt))
                    (length (promises rt) + length pre);
                  catchReaction path (length (promises rt) + length pre)
                    (S (length (promises rt) + length pre))];
            running := running rt;
            modificationQueue :=
              <[path := S (length (promises rt) + length pre)]> (modificationQueue rt);
            submitted := submitted rt ++ [path];
            trace := trace rt |}.
Proof.
  unfold callRoles, queueFileAction, bind, submit, queueGet, promiseResolve,
    promiseReact, bind, newPromise, register, queueSet, ret,
    thenReaction, catchReaction.
  cbn. destruct (modificationQueue rt !! path) as [p|]; cbn.
  - exists [], [], p. repeat split; [constructor|]. cbn.
    rewrite !length_app, <- !app_assoc, Nat.add_0_r. cbn.
    now rewrite Nat.add_1_r.
  - exists [Settled Fulfilled], [RoleInit], (length (promises rt)).
    repeat split; [repeat constructor|]. cbn.
    rewrite !length_app, <- !app_assoc. cbn.
    now rewrite (Nat.add_1_r (length (promises rt) + 1)).
Qed.

Lemma live_queueFileAction (rt : Runtime) (roles : list Role) (path : string) :
  Inv rt roles -> Live rt roles ->
  Live (snd (queueFileAction path rt)) (roles ++ callRoles rt path).
Proof.
  intros HI [Hinj Hbound Hbody Hwait Hnodup Hphase].
  pose proof (Forall2_length _ _ _ (inv_promises _ _ HI)) as Hlen.
  destruct (queueFileAction_shape rt path)
    as (pre & preR & s & Hpre & Hinit & -> & ->).
  set (n := length (submitted rt)) in *.
  set (pT := length (promises rt) + length pre) in *.
  assert (HpT : (roles ++ preR ++ [RoleThen n; RoleNext n]) !! pT = Some (RoleThen n)).
  { rewrite app_assoc. apply list_lookup_middle. rewrite length_app. unfold pT. lia. }
  assert (HpN : (roles ++ preR ++ [RoleThen n; RoleNext n]) !! S pT = Some (RoleNext n)).
  { rewrite app_assoc. rewrite lookup_app_r by (rewrite length_app; unfold pT; lia).
    rewrite length_app.
    now replace (S pT - (length roles + length preR)) with 1 by (unfold pT; lia). }
  assert (Hnew : forall p role a,
             (roles ++ preR ++ [RoleThen n; RoleNext n]) !! p = Some role ->
             actionOf role = Some a ->
             (roles !! p = Some role /\ a < n)
             \/ (a = n /\ ((p = pT /\ role = RoleThen n)
                           \/ (p = S pT /\ role = RoleNext n)))).
  { intros p role a Hp Ha. apply lookup_app_Some in Hp as [Hp | [Hge Hp]].
    - left. split; [exact Hp | exact (Hbound _ _ _ Hp Ha)].
    - right. apply lookup_app_Some in Hp as [Hp | [Hge' Hp]].
      + exfalso. apply list_elem_of_lookup_2 in Hp.
        rewrite Forall_forall in Hinit. rewrite (Hinit _ Hp) in Ha. discriminate.
      + destruct (p - length roles - length preR) as [|[|k]] eqn:Hk;
          simpl in Hp; try discriminate; injection Hp as <-;
          simpl in Ha; injection Ha as <-; (split; [reflexivity|]).
        * left. split; [unfold pT; lia | reflexivity].
        * right. split; [unfold pT; lia | reflexivity]. }
  constructor; cbn.
  - intros p q role Hrole Hp Hq.
    destruct role as [|a|a|a]; [congruence| | |];
      destruct (Hnew _ _ a Hp eq_refl) as [[Hp' Hlt] | [-> Hp']];
      destruct (Hnew _ _ _ Hq eq_refl) as [[Hq' Hlt'] | [Heq Hq']];
      try lia; try (eapply Hinj; eauto; fail);
      destruct Hp' as [[-> Hp'] | [-> Hp']]; destruct Hq' as [[-> Hq'] | [-> Hq']];
      congruence.
  - intros p role a Hp Ha. rewrite length_app. cbn.
    destruct (Hnew _ _ _ Hp Ha) as [[_ H] | [-> _]]; fold n; lia.
  - intros p a Hp.
    destruct (Hnew _ _ a Hp eq_refl) as [[Hp' _] | [_ [[_ H] | [_ H]]]];
      [now apply (Hbody p) | discriminate | discriminate].
  - intros r a Hr Hreact.
    apply elem_of_app in Hr as [Hr | Hr]; [now apply (Hwait r)|].
    apply elem_of_cons in Hr as [-> | Hr].
    + cbn in Hreact. injection Hreact as <-. intros H.
      apply (inv_started _ _ HI) in H. fold n in H. lia.
    + apply list_elem_of_singleton in Hr. subst r. discriminate.
  - rewrite fmap_app. apply NoDup_app. split; [exact Hnodup|]. split.
    + intros d Hd Hd'. apply list_elem_of_fmap in Hd as (r & -> & Hr).
      pose proof (inv_reactions _ _ HI) as Hok. rewrite Forall_forall in Hok.
      apply Hok, derived_lt in Hr.
      cbn in Hd'. apply elem_of_cons in Hd' as [Hd' | Hd'];
        [|apply list_elem_of_singleton in Hd']; unfold pT in Hd'; lia.
    + cbn. apply NoDup_cons. split; [|apply NoDup_singleton].
      intros H. apply list_elem_of_singleton in H. lia.
  - intros a path' Ha. apply lookup_app_Some in Ha as [Ha | [Hge Ha]].
    + apply (phase_transfer rt); cbn.
      * intros p _ H. now apply lookup_app_Some_l.
      * intros p [o H]. exists o. cbn. now apply lookup_app_Some_l.
      * intros r role Hr _ _. apply elem_of_app. now left.
      * intros p Hp. now left.
      * now apply Hphase.
    + apply list_lookup_singleton_Some in Ha as [Ha <-].
      assert (a = n) as -> by (unfold n; lia).
      exists pT, (S pT). split; [exact HpT|]. split; [exact HpN|].
      right. cbn. split.
      * apply elem_of_app. right. apply elem_of_cons. right. apply list_elem_of_here.
      * right. right. exists s. apply elem_of_app. right. apply list_elem_of_here.
Qed.

Lemma elem_of_remove {A} (before after : list A) (x y : A) :
  y ∈ before ++ x :: after -> y <> x -> y ∈ before ++ after.
Proof.
  intros H Hne. apply elem_of_app in H as [H | H]; apply elem_of_app; [now left|].
  apply elem_of_cons in H as [H | H]; [congruence | now right].
Qed.

Lemma elem_of_removed {A} (before after : list A) (x y : A) :
  y ∈ before ++ after -> y ∈ before ++ x :: after.
Proof.
  intros H. apply elem_of_app in H as [H | H]; apply elem_of_app; [now left|].
  right. now apply elem_of_cons; right.
Qed.

Lemma NoDup_remove_fmap {A B} (f : A -> B) (before after : list A) (x : A) :
  NoDup (f <$> before ++ x :: after) ->
  NoDup (f <$> before ++ after) /\ f x ∉ (f <$> before ++ after).
Proof.
  rewrite !fmap_app, fmap_cons. intros H.
  apply NoDup_app in H as (Hb & Hdisj & Ha). apply NoDup_cons in Ha as [Hx Ha].
  split.
  - apply NoDup_app. split; [exact Hb|]. split; [|exact Ha].
    intros y Hy Hy'. apply (Hdisj y Hy). now apply elem_of_cons; right.
  - intros H. apply elem_of_app in H as [H | H]; [|contradiction].
    apply (Hdisj _ H). apply list_elem_of_here.
Qed.

(** Two reactions whose derived promises belong to different actions differ. *)
Lemma reaction_differs (roles : list Role) (r r0 : Registered) (role role0 : Role)
    (a a0 : nat) :
  roles !! derived r = Some role -> actionOf role = Some a ->
  roles !! derived r0 = Some role0 -> actionOf role0 = Some a0 ->
  a <> a0 -> r <> r0.
Proof. intros H1 H2 H3 H4 Hne ->. congruence. Qed.

Lemma live_runReaction (rt : Runtime) (roles : list Role)
    (before : list Registered) (r : Registered) (after : list Registered)
    (o : Settlement) :
  Inv rt roles -> Live rt roles ->
  reactions rt = before ++ r :: after ->
  promises rt !! source r = Some (Settled o) ->
  Live (snd ((_ <- setReactions (before ++ after) ;; runReaction r o) rt))
       (roles ++ reactRoles r o).
Proof.
  intros HI [Hinj Hbound Hbody Hwait Hnodup Hphase] Hsplit Hsrc.
  pose proof (Forall2_length _ _ _ (inv_promises _ _ HI)) as Hlen.
  pose proof (inv_reactions _ _ HI) as Hoks. rewrite Forall_forall in Hoks.
  assert (Hr : r ∈ reactions rt)
    by (rewrite Hsplit; apply elem_of_app; right; apply list_elem_of_here).
  pose proof (Hoks _ Hr) as Hok.
  rewrite Hsplit in Hnodup. apply NoDup_remove_fmap in Hnodup as [Hnodup Hfresh].
  assert (Hsub : forall r', r' ∈ before ++ after -> r' ∈ reactions rt)
    by (intros r' H; rewrite Hsplit; now apply elem_of_removed).
  unfold reactRoles, runReaction, bind, setReactions, emit, newPromise,
    setRunning, register, settle.
  unfold reactionOk in Hok.
  destruct (reaction r) as [a0 | path0 |] eqn:Hreact.
  - destruct Hok as (Hd & Ha0 & Hs).
    assert (o = Fulfilled) as -> by (eapply chainSource_fulfilled; eauto).
    assert (Hnotstarted : Started a0 ∉ trace rt) by (now apply (Hwait r)).
    cbn. constructor; cbn.
    + intros p q role Hrole Hp Hq.
      apply lookup_app_Some in Hp as [Hp | [Hge Hp]];
        apply lookup_app_Some in Hq as [Hq | [Hge' Hq]].
      * eapply Hinj; eauto.
      * apply list_lookup_singleton_Some in Hq as [_ <-].
        apply Hbody in Hp. contradiction.
      * apply list_lookup_singleton_Some in Hp as [_ <-].
        apply Hbody in Hq. contradiction.
      * apply list_lookup_singleton_Some in Hp as [Hp _].
        apply list_lookup_singleton_Some in Hq as [Hq _]. lia.
    + intros p role a Hp Ha. apply lookup_app_Some in Hp as [Hp | [Hge Hp]].
      * eapply Hbound; eauto.
      * apply list_lookup_singleton_Some in Hp as [_ <-].
        cbn in Ha. now injection Ha as <-.
    + intros p a Hp. apply elem_of_app.
      apply lookup_app_Some in Hp as [Hp | [Hge Hp]].
      * left. now apply (Hbody p).
      * apply list_lookup_singleton_Some in Hp as [_ Hp]. injection Hp as <-.
        right. apply list_elem_of_here.
    + intros r' a Hr' Hreact'.
      apply elem_of_app in Hr' as [Hr' | Hr'];
        [|apply list_elem_of_singleton in Hr'; subst r'; discriminate].
      intros H. apply elem_of_app in H as [H | H].
      * exact (Hwait r' a (Hsub _ Hr') Hreact' H).
      * apply list_elem_of_singleton in H. injection H as ->.
        pose proof (Hoks _ (Hsub _ Hr')) as Hok'. unfold reactionOk in Hok'.
        rewrite Hreact' in Hok'. destruct Hok' as (Hd' & _).
        apply Hfresh. apply list_elem_of_fmap. exists r'. split; [|exact Hr'].
        eapply Hinj; [| exact Hd | exact Hd']. discriminate.
    + rewrite fmap_app. apply NoDup_app. split; [exact Hnodup|]. split.
      * intros d Hd0 Hd1. cbn in Hd1. apply list_elem_of_singleton in Hd1.
        subst d. contradiction.
      * apply NoDup_singleton.
    + intros a path Ha. destruct (decide (a = a0)) as [-> | Hne].
      * destruct (Hphase _ _ Ha) as (pThen & pNext & HpT & HpN & H).
        assert (derived r = pThen) as Hd_eq
            by (eapply Hinj; [| exact Hd | exact HpT]; discriminate).
        exists pThen, pNext.
        split; [now apply lookup_app_Some_l|]. split; [now apply lookup_app_Some_l|].
        destruct H as [H | [Hcatch _]]; [left; cbn; now apply lookup_app_Some_l|].
        right. cbn. split.
        -- apply elem_of_app. left. rewrite Hsplit in Hcatch.
           apply (elem_of_remove _ _ _ _ Hcatch). intros E.
           rewrite <- E in Hreact. discriminate.
        -- right. left. exists (length (promises rt)).
           split; [rewrite <- Hlen; now apply list_lookup_middle|].
           split; [|right; apply elem_of_app; right; apply list_elem_of_here].
           apply elem_of_app. right. rewrite Hd_eq. apply list_elem_of_here.
      * apply (phase_transfer rt); cbn.
        -- intros p _ H. now apply lookup_app_Some_l.
        -- intros p [o H]. exists o. cbn. now apply lookup_app_Some_l.
        -- intros r' role Hr' Hrole Hact. apply elem_of_app. left.
           rewrite Hsplit in Hr'. apply (elem_of_remove _ _ _ _ Hr').
           exact (reaction_differs _ _ _ _ _ _ _ Hrole Hact Hd eq_refl Hne).
        -- intros p Hp. left. apply elem_of_app. now left.
        -- now apply Hphase.
  - destruct Hok as (a0 & Hs & Hd).
    assert (Hdlt : derived r < length (promises rt))
      by (rewrite <- Hlen; now apply lookup_lt_Some in Hd).
    rewrite app_nil_r.
    assert (Hgoal : forall tr',
      (forall e, e ∈ trace rt -> e ∈ tr') ->
      (forall a, Started a ∈ tr' -> Started a ∈ trace rt) ->
      Live {| promises := <[derived r := Settled Fulfilled]> (promises rt);
              reactions := before ++ after; running := running rt;
              modificationQueue := modificationQueue rt;
              submitted := submitted rt; trace := tr' |} roles).
    { intros tr' Hmono Hstarted. constructor; cbn.
      - exact Hinj.
      - exact Hbound.
      - intros p a Hp. apply Hmono. now apply (Hbody p).
      - intros r' a Hr' Hreact' H. exact (Hwait r' a (Hsub _ Hr') Hreact' (Hstarted _ H)).
      - exact Hnodup.
      - intros a path Ha. destruct (decide (a = a0)) as [-> | Hne].
        + destruct (Hphase _ _ Ha) as (pThen & pNext & HpT & HpN & H).
          assert (derived r = pNext) as Hd_eq
              by (eapply Hinj; [| exact Hd | exact HpN]; discriminate).
          exists pThen, pNext. split; [exact HpT|]. split; [exact HpN|].
          left. cbn. rewrite <- Hd_eq. now apply list_lookup_insert_eq.
        + rewrite <- (app_nil_r roles). apply (phase_transfer rt); cbn.
          * intros p _ H. destruct (decide (derived r = p)) as [<- | Hp].
            -- now apply list_lookup_insert_eq.
            -- now rewrite list_lookup_insert_ne.
          * intros p H. now apply settled_insert.
          * intros r' role Hr' Hrole Hact.
            rewrite Hsplit in Hr'. apply (elem_of_remove _ _ _ _ Hr').
            exact (reaction_differs _ _ _ _ _ _ _ Hrole Hact Hd eq_refl Hne).
          * intros p Hp. now left.
          * now apply Hphase. }
    destruct o; cbn.
    + apply Hgoal; auto.
    + apply Hgoal.
      * intros e He. apply elem_of_app. now left.
      * intros a H. apply elem_of_app in H as [H | H]; [exact H|].
        apply list_elem_of_singleton in H. discriminate.
  - destruct Hok as (a0 & Hs & Hd).
    assert (Hdlt : derived r < length (promises rt))
      by (rewrite <- Hlen; now apply lookup_lt_Some in Hd).
    rewrite app_nil_r. cbn. constructor; cbn.
    + exact Hinj.
    + exact Hbound.
    + exact Hbody.
    + intros r' a Hr' Hreact'. exact (Hwait r' a (Hsub _ Hr') Hreact').
    + exact Hnodup.
    + intros a path Ha.
      assert (Hnext : forall p a', roles !! p = Some (RoleNext a') ->
                promises rt !! p = Some (Settled Fulfilled) ->
                <[derived r := Settled o]> (promises rt) !! p = Some (Settled Fulfilled)).
      { intros p a' Hp H. rewrite list_lookup_insert_ne; [exact H|].
        intros E. rewrite E in Hd. congruence. }
      destruct (decide (a = a0)) as [-> | Hne].
      * destruct (Hphase _ _ Ha) as (pThen & pNext & HpT & HpN & H).
        assert (derived r = pThen) as Hd_eq
            by (eapply Hinj; [| exact Hd | exact HpT]; discriminate).
        exists pThen, pNext. split; [exact HpT|]. split; [exact HpN|].
        destruct H as [H | [Hcatch _]]; [left; cbn; now apply (Hnext _ a0)|].
        right. cbn. split.
        -- rewrite Hsplit in Hcatch. apply (elem_of_remove _ _ _ _ Hcatch).
           intros E. rewrite <- E in Hreact. discriminate.
        -- left. exists o. cbn. rewrite <- Hd_eq. now apply list_lookup_insert_eq.
      * rewrite <- (app_nil_r roles). apply (phase_transfer rt); cbn.
        -- intros p Hp H. now apply (Hnext _ a).
        -- intros p H. now apply settled_insert.
        -- intros r' role Hr' Hrole Hact.
           rewrite Hsplit in Hr'. apply (elem_of_remove _ _ _ _ Hr').
           exact (reaction_differs _ _ _ _ _ _ _ Hrole Hact Hd eq_refl Hne).
        -- intros p Hp. now left.
        -- now apply Hphase.
Qed.

Lemma live_finishAction (rt : Runtime) (roles : list Role)
    (before : list (nat * nat)) (a0 p0 : nat) (after : list (nat * nat))
    (o : Settlement) :
  Inv rt roles -> Live rt roles ->
  running rt = before ++ (a0, p0) :: after ->
  Live (snd ((_ <- setRunning (before ++ after) ;; finishAction a0 p0 o) rt)) roles.
Proof.
  intros HI [Hinj Hbound Hbody Hwait Hnodup Hphase] Hsplit.
  pose proof (Forall2_length _ _ _ (inv_promises _ _ HI)) as Hlen.
  pose proof (inv_running _ _ HI) as Hrun. rewrite Hsplit in Hrun.
  apply Forall_app_remove in Hrun as [[Hrole _] _]. cbn in Hrole.
  assert (Hlt : p0 < length (promises rt))
    by (rewrite <- Hlen; now apply lookup_lt_Some in Hrole).
  unfold finishAction, bind, setRunning, emit, settle. cbn.
  constructor; cbn.
  - exact Hinj.
  - exact Hbound.
  - intros p a Hp. apply elem_of_app. left. now apply (Hbody p).
  - intros r a Hr Hreact H. apply elem_of_app in H as [H | H].
    + exact (Hwait r a Hr Hreact H).
    + apply list_elem_of_singleton in H. discriminate.
  - exact Hnodup.
  - intros a path Ha. rewrite <- (app_nil_r roles). apply (phase_transfer rt); cbn.
    + intros p Hp H. rewrite list_lookup_insert_ne; [exact H|].
      intros E. rewrite E in Hrole. congruence.
    + intros p H. now apply settled_insert.
    + auto.
    + intros p Hp. rewrite Hsplit in Hp.
      destruct (decide ((a, p) = (a0, p0))) as [E | Hne].
      * injection E as -> ->. right. exists o. cbn. now apply list_lookup_insert_eq.
      * left. now apply (elem_of_remove _ _ _ _ Hp).
    + now apply Hphase.
Qed.

(** *** Progress *)

Lemma run_app (s1 s2 : list Command) (rt rt1 : Runtime) :
  run s1 rt = Some rt1 -> run (s1 ++ s2) rt = run s2 rt1.
Proof.
  revert rt. induction s1 as [|c s1 IH]; intros rt; simpl.
  - intros H. now injection H as <-.
  - destruct (exec c rt); [apply IH | discriminate].
Qed.

Lemma advance_refl (path : string) (rt : Runtime) (roles : list Role) :
  Advance path rt roles rt roles.
Proof.
  exists [], [], []. repeat split; try constructor; now rewrite app_nil_r.
Qed.

Lemma advance_trans (path : string) (rt rt1 rt2 : Runtime)
    (roles roles1 roles2 : list Role) :
  Advance path rt roles rt1 roles1 -> Advance path rt1 roles1 rt2 roles2 ->
  Advance path rt roles rt2 roles2.
Proof.
  intros (s1 & m1 & n1 & Hrun1 & Hc1 & -> & Hsub1 & Htr1 & Hev1)
         (s2 & m2 & n2 & Hrun2 & Hc2 & -> & Hsub2 & Htr2 & Hev2).
  exists (s1 ++ s2), (m1 ++ m2), (n1 ++ n2).
  split; [now rewrite (run_app _ _ _ _ Hrun1)|].
  split; [apply Forall_app; now split|].
  split; [now rewrite app_assoc|]. split; [congruence|].
  split; [rewrite Htr2, Htr1; now rewrite app_assoc|].
  apply Forall_app. split; [exact Hev1|]. now rewrite <- Hsub1.
Qed.

Lemma advance_step (path : string) (c : Command) (rt rt' : Runtime)
    (roles more : list Role) (new : list Event) :
  exec c rt = Some rt' -> (forall p, c <> Call p) ->
  submitted rt' = submitted rt -> trace rt' = trace rt ++ new ->
  Forall (eventOn (submitted rt) path) new ->
  Advance path rt roles rt' (roles ++ more).
Proof.
  intros Hexec Hc Hsub Htr Hev. exists [c], more, new.
  repeat split; try assumption; [|now constructor].
  simpl. now rewrite Hexec.
Qed.

Lemma full_react (rt : Runtime) (roles : list Role) (i : nat) (r : Registered)
    (o : Settlement) :
  Full rt roles ->
  reactions rt !! i = Some r ->
  promises rt !! source r = Some (Settled o) ->
  exec (React i) rt
  = Some (snd ((_ <- setReactions (take i (reactions rt) ++ drop (S i) (reactions rt)) ;;
                runReaction r o) rt))
  /\ Full (snd ((_ <- setReactions (take i (reactions rt) ++ drop (S i) (reactions rt)) ;;
                 runReaction r o) rt))
          (roles ++ reactRoles r o).
Proof.
  intros [HI HL] Hr Hp. split.
  - simpl. now rewrite Hr, Hp.
  - pose proof (eq_sym (take_drop_middle _ _ _ Hr)) as Hsplit. split.
    + now apply inv_runReaction.
    + now apply live_runReaction.
Qed.

Lemma full_finish (rt : Runtime) (roles : list Role) (i a p : nat) (o : Settlement) :
  Full rt roles ->
  running rt !! i = Some (a, p) ->
  exec (Finish i o) rt
  = Some (snd ((_ <- setRunning (take i (running rt) ++ drop (S i) (running rt)) ;;
                finishAction a p o) rt))
  /\ Full (snd ((_ <- setRunning (take i (running rt) ++ drop (S i) (running rt)) ;;
                 finishAction a p o) rt))
          roles.
Proof.
  intros [HI HL] Hr. split.
  - simpl. now rewrite Hr.
  - pose proof (eq_sym (take_drop_middle _ _ _ Hr)) as Hsplit. split.
    + now apply inv_finishAction.
    + now apply live_finishAction.
Qed.

Lemma role_in_range (rt : Runtime) (roles : list Role) (p : nat) (role : Role) :
  Full rt roles -> roles !! p = Some role -> p < length (promises rt).
Proof.
  intros [HI _] H. rewrite <- (Forall2_length _ _ _ (inv_promises _ _ HI)).
  now apply lookup_lt_Some in H.
Qed.

Lemma elem_of_take_drop {A} (l : list A) (i : nat) (x y : A) :
  l !! i = Some x -> y ∈ l -> y <> x -> y ∈ take i l ++ drop (S i) l.
Proof.
  intros Hi Hy Hne. rewrite <- (take_drop_middle _ _ _ Hi) in Hy.
  now apply (elem_of_remove _ _ _ _ Hy).
Qed.

(** The [catch] of an action whose [then] promise has settled runs and
    fulfils the tail. *)
Lemma settle_tail_from_then (rt : Runtime) (roles : list Role) (a : nat)
    (path : string) (pThen pNext : nat) :
  Full rt roles -> submitted rt !! a = Some path ->
  roles !! pNext = Some (RoleNext a) ->
  catchReaction path pThen pNext ∈ reactions rt ->
  settled rt pThen ->
  exists rt' roles', Advance path rt roles rt' roles' /\ Full rt' roles'
                     /\ tailSettled rt' roles' a.
Proof.
  intros HF Ha HpN Hcatch [o Ho].
  apply list_elem_of_lookup in Hcatch as [i Hi].
  destruct (full_react rt roles i _ o HF Hi Ho) as [Hexec HF'].
  pose proof (role_in_range _ _ _ _ HF HpN) as Hlt.
  eexists _, _. split; [|split; [exact HF'|]].
  - eapply advance_step with
      (new := match o with Fulfilled => [] | Rejected => [Logged path] end);
      [exact Hexec | discriminate | | |].
    + now destruct o.
    + destruct o; cbn; [now rewrite app_nil_r | reflexivity].
    + destruct o; repeat constructor.
  - exists pNext. split; [now apply lookup_app_Some_l|].
    destruct o; cbn; now apply list_lookup_insert_eq.
Qed.

(** After the body of an action has settled, its [then] promise adopts the
    outcome, and the tail is fulfilled. *)
Lemma settle_tail_from_body (rt : Runtime) (roles : list Role) (a : nat)
    (path : string) (pThen pNext pBody : nat) :
  Full rt roles -> submitted rt !! a = Some path ->
  roles !! pThen = Some (RoleThen a) -> roles !! pNext = Some (RoleNext a) ->
  catchReaction path pThen pNext ∈ reactions rt ->
  adoptReaction pBody pThen ∈ reactions rt ->
  settled rt pBody ->
  exists rt' roles', Advance path rt roles rt' roles' /\ Full rt' roles'
                     /\ tailSettled rt' roles' a.
Proof.
  intros HF Ha HpT HpN Hcatch Hadopt [o Ho].
  pose proof Hadopt as Hadopt'.
  apply list_elem_of_lookup in Hadopt' as [i Hi].
  destruct (full_react rt roles i _ o HF Hi Ho) as [Hexec HF'].
  pose proof (role_in_range _ _ _ _ HF HpT) as Hlt.
  cbn in HF'. rewrite app_nil_r in HF'.
  edestruct (settle_tail_from_then _ roles a path pThen pNext HF')
    as (rt' & roles' & Hadv & HF'' & Htail).
  - exact Ha.
  - exact HpN.
  - cbn. apply (elem_of_take_drop _ _ _ _ Hi Hcatch). discriminate.
  - exists o. cbn. now apply list_lookup_insert_eq.
  - exists rt', roles'. split; [|split; assumption].
    eapply advance_trans; [|exact Hadv].
    rewrite <- (app_nil_r roles) at 2.
    eapply advance_step with (new := []);
      [exact Hexec | discriminate | reflexivity | cbn; now rewrite app_nil_r | constructor].
Qed.

(** A running action finishes, and the tail is fulfilled. *)
Lemma settle_tail_from_running (rt : Runtime) (roles : list Role) (a : nat)
    (path : string) (pThen pNext pBody : nat) :
  Full rt roles -> submitted rt !! a = Some path ->
  roles !! pThen = Some (RoleThen a) -> roles !! pNext = Some (RoleNext a) ->
  roles !! pBody = Some (RoleBody a) ->
  catchReaction path pThen pNext ∈ reactions rt ->
  adoptReaction pBody pThen ∈ reactions rt ->
  (a, pBody) ∈ running rt ->
  exists rt' roles', Advance path rt roles rt' roles' /\ Full rt' roles'
                     /\ tailSettled rt' roles' a.
Proof.
  intros HF Ha HpT HpN HpB Hcatch Hadopt Hrun.
  apply list_elem_of_lookup in Hrun as [i Hi].
  destruct (full_finish rt roles i _ _ Fulfilled HF Hi) as [Hexec HF'].
  pose proof (role_in_range _ _ _ _ HF HpB) as Hlt.
  edestruct (settle_tail_from_body _ roles a path pThen pNext pBody HF')
    as (rt' & roles' & Hadv & HF'' & Htail).
  - exact Ha.
  - exact HpT.
  - exact HpN.
  - exact Hcatch.
  - exact Hadopt.
  - exists Fulfilled. cbn. now apply list_lookup_insert_eq.
  - exists rt', roles'. split; [|split; assumption].
    eapply advance_trans; [|exact Hadv].
    rewrite <- (app_nil_r roles) at 2.
    eapply advance_step with (new := [Finished a Fulfilled]);
      [exact Hexec | discriminate | reflexivity | reflexivity |].
    repeat constructor. exact Ha.
Qed.

(** An action whose [then(action)] is registered on a settled promise
    starts, finishes, and the tail is fulfilled. *)
Lemma settle_tail_from_waiting (rt : Runtime) (roles : list Role) (a : nat)
    (path : string) (pThen pNext s : nat) :
  Full rt roles -> submitted rt !! a = Some path ->
  roles !! pThen = Some (RoleThen a) -> roles !! pNext = Some (RoleNext a) ->
  catchReaction path pThen pNext ∈ reactions rt ->
  thenReaction s a pThen ∈ reactions rt ->
  settled rt s ->
  exists rt' roles', Advance path rt roles rt' roles' /\ Full rt' roles'
                     /\ tailSettled rt' roles' a.
Proof.
  intros HF Ha HpT HpN Hcatch Hthen [o Ho].
  pose proof Hthen as Hthen'.
  apply list_elem_of_lookup in Hthen' as [i Hi].
  assert (o = Fulfilled) as ->.
  { destruct HF as [HI _]. pose proof (inv_reactions _ _ HI) as Hoks.
    rewrite Forall_forall in Hoks. specialize (Hoks _ Hthen).
    destruct Hoks as (_ & _ & Hs). eapply chainSource_fulfilled; eauto. }
  destruct (full_react rt roles i _ Fulfilled HF Hi Ho) as [Hexec HF'].
  cbn in HF'.
  edestruct (settle_tail_from_running _ (roles ++ [RoleBody a]) a path pThen pNext
               (length (promises rt)) HF')
    as (rt' & roles' & Hadv & HF'' & Htail).
  - exact Ha.
  - now apply lookup_app_Some_l.
  - now apply lookup_app_Some_l.
  - destruct HF as [HI _].
    rewrite <- (Forall2_length _ _ _ (inv_promises _ _ HI)).
    now apply list_lookup_middle.
  - cbn. apply elem_of_app. left.
    apply (elem_of_take_drop _ _ _ _ Hi Hcatch). discriminate.
  - cbn. apply elem_of_app. right. apply list_elem_of_here.
  - cbn. apply elem_of_app. right. apply list_elem_of_here.
  - exists rt', roles'. split; [|split; assumption].
    eapply advance_trans; [|exact Hadv].
    eapply advance_step with (new := [Started a]);
      [exact Hexec | discriminate | reflexivity | reflexivity |].
    repeat constructor. exact Ha.
Qed.

Lemma source_settled_init (rt : Runtime) (roles : list Role) (s : nat) :
  Full rt roles -> roles !! s = Some RoleInit -> settled rt s.
Proof.
  intros [HI _] Hs.
  destruct (Forall2_lookup_l _ _ _ _ _ (inv_promises _ _ HI) Hs) as (st & Hst & Hok).
  simpl in Hok. subst st. now exists Fulfilled.
Qed.

Lemma then_chainSource (rt : Runtime) (roles : list Role) (s a pThen : nat) :
  Full rt roles -> thenReaction s a pThen ∈ reactions rt ->
  chainSource roles (submitted rt) s a.
Proof.
  intros [HI _] H. pose proof (inv_reactions _ _ HI) as Hoks.
  rewrite Forall_forall in Hoks. now destruct (Hoks _ H) as (_ & _ & Hs).
Qed.

Lemma ready_first (rt : Runtime) (roles : list Role) (a : nat) (path : string) :
  Full rt roles -> submitted rt !! a = Some path ->
  (forall b, b < a -> submitted rt !! b <> Some path) ->
  ready rt a.
Proof.
  intros HF Ha Hnone s pThen Hthen.
  destruct (then_chainSource _ _ _ _ _ HF Hthen)
    as [[Hs _] | (b & _ & Hb & Hsame & _)].
  - now apply (source_settled_init _ roles).
  - exfalso. apply (Hnone b Hb). congruence.
Qed.

Lemma ready_next (rt : Runtime) (roles : list Role) (a b : nat) (path : string) :
  Full rt roles -> submitted rt !! a = Some path ->
  b < a -> submitted rt !! b = Some path ->
  (forall c, c < a -> submitted rt !! c = Some path -> c <= b) ->
  tailSettled rt roles b ->
  ready rt a.
Proof.
  intros HF Ha Hb Hbpath Hlast (pNext & HpN & Hset) s pThen Hthen.
  destruct (then_chainSource _ _ _ _ _ HF Hthen)
    as [[_ Hnone] | (b1 & Hs & Hb1 & Hsame & Hlast1)].
  - exfalso. apply (Hnone b Hb). congruence.
  - assert (b1 = b) as ->.
    { apply Nat.le_antisymm.
      - apply Hlast; [exact Hb1 | congruence].
      - apply Hlast1; [exact Hb | congruence]. }
    destruct HF as [_ HL].
    assert (s = pNext) as ->
        by (eapply (live_roles_inj _ _ HL); [| exact Hs | exact HpN]; discriminate).
    now exists Fulfilled.
Qed.

Lemma complete_ready (rt : Runtime) (roles : list Role) (a : nat) (path : string) :
  Full rt roles -> submitted rt !! a = Some path -> ready rt a ->
  exists rt' roles', Advance path rt roles rt' roles' /\ Full rt' roles'
                     /\ tailSettled rt' roles' a.
Proof.
  intros HF Ha Hready. pose proof HF as [_ HL].
  destruct (live_phase _ _ HL _ _ Ha) as (pThen & pNext & HpT & HpN & H).
  destruct H as [H | [Hcatch [H | [(pBody & HpB & Hadopt & [H | H]) | [s H]]]]].
  - exists rt, roles. split; [apply advance_refl|]. split; [exact HF|].
    now exists pNext.
  - now apply (settle_tail_from_then _ _ _ _ pThen pNext).
  - now apply (settle_tail_from_body _ _ _ _ pThen pNext pBody).
  - now apply (settle_tail_from_running _ _ _ _ pThen pNext pBody).
  - apply (settle_tail_from_waiting _ _ _ _ pThen pNext s); try assumption.
    now apply (Hready s pThen).
Qed.

Lemma last_before (sub : list string) (path : string) (a : nat) :
  (forall b, b < a -> sub !! b <> Some path)
  \/ (exists b, b < a /\ sub !! b = Some path
                /\ forall c, c < a -> sub !! c = Some path -> c <= b).
Proof.
  induction a as [|a IH].
  - left. intros b Hb. lia.
  - destruct (decide (sub !! a = Some path)) as [Ha | Ha].
    + right. exists a. split; [lia|]. split; [exact Ha|]. intros c Hc _. lia.
    + destruct IH as [IH | (b & Hb & Hbp & Hlast)].
      * left. intros b Hb. destruct (decide (b = a)) as [-> | Hne]; [exact Ha|].
        apply IH. lia.
      * right. exists b. split; [lia|]. split; [exact Hbp|].
        intros c Hc Hcp. destruct (decide (c = a)) as [-> | Hne]; [congruence|].
        apply Hlast; [lia | exact Hcp].
Qed.

(** Every submitted action can be driven to the end of its chain by steps
    of its own path. *)
Lemma complete (a : nat) :
  forall rt roles path,
    Full rt roles -> submitted rt !! a = Some path ->
    exists rt' roles', Advance path rt roles rt' roles' /\ Full rt' roles'
                       /\ tailSettled rt' roles' a.
Proof.
  induction a as [a IH] using lt_wf_ind. intros rt roles path HF Ha.
  destruct (last_before (submitted rt) path a) as [Hnone | (b & Hb & Hbp & Hlast)].
  - apply complete_ready; [exact HF | exact Ha |].
    now apply (ready_first _ roles _ path).
  - destruct (IH b Hb rt roles path HF Hbp) as (rt1 & roles1 & Hadv1 & HF1 & Htail1).
    pose proof Hadv1 as (_ & _ & _ & _ & _ & _ & Hsub1 & _).
    rewrite <- Hsub1 in Ha, Hbp, Hlast.
    destruct (complete_ready rt1 roles1 a path HF1 Ha) as (rt2 & roles2 & Hadv2 & HF2 & Htail2).
    + now apply (ready_next _ roles1 _ b path).
    + exists rt2, roles2. split; [|split; assumption].
      now apply (advance_trans _ _ rt1 _ _ roles1).
Qed.

Lemma full_reachable (rt : Runtime) : reachable rt -> exists roles, Full rt roles.
Proof.
  induction 1 as [|rt rt' _ [roles [HI HL]] Hstep].
  - exists []. split; [exact inv_initial | exact live_initial].
  - destruct Hstep as [rt path | rt before r after o Hsplit Hsrc
                       | rt before a p after o Hsplit].
    + exists (roles ++ callRoles rt path).
      split; [exact (inv_queueFileAction _ _ _ HI)
             | exact (live_queueFileAction _ _ _ HI HL)].
    + exists (roles ++ reactRoles r o).
      split; [exact (inv_runReaction _ _ _ _ _ _ HI Hsplit Hsrc)
             | exact (live_runReaction _ _ _ _ _ _ HI HL Hsplit Hsrc)].
    + exists roles.
      split; [exact (inv_finishAction _ _ _ _ _ _ o HI Hsplit)
             | exact (live_finishAction _ _ _ _ _ _ o HI HL Hsplit)].
Qed.

Lemma tailSettled_finished (rt : Runtime) (roles : list Role) (a : nat) :
  Full rt roles -> tailSettled rt roles a ->
  finished (trace rt) a /\ Started a ∈ trace rt.
Proof.
  intros [HI _] (pNext & HpN & Hset).
  assert (Hf : finished (trace rt) a) by (eapply settled_finished; eauto).
  split; [exact Hf | now apply (inv_finished _ _ HI)].
Qed.

Lemma chain_progress (rt : Runtime) (a : nat) (path : string) :
  reachable rt -> submitted rt !! a = Some path ->
  exists schedule rt' new,
    run schedule rt = Some rt'
    /\ Forall (fun c => forall p, c <> Call p) schedule
    /\ trace rt' = trace rt ++ new
    /\ Forall (eventOn (submitted rt) path) new
    /\ Started a ∈ trace rt'
    /\ finished (trace rt') a.
Proof.
  intros Hrt Ha. destruct (full_reachable rt Hrt) as [roles HF].
  destruct (complete a rt roles path HF Ha) as (rt' & roles' & Hadv & HF' & Htail).
  destruct Hadv as (schedule & more & new & Hrun & Hc & _ & _ & Htr & Hev).
  destruct (tailSettled_finished _ _ _ HF' Htail) as [Hf Hs].
  exists schedule, rt', new. repeat split; assumption.
Qed.


Lemma full_steps (rt rt' : Runtime) (roles : list Role) :
  Full rt roles -> rtc step rt rt' -> exists more, Full rt' (roles ++ more).
Proof.
  intros HF Hsteps. revert roles HF.
  induction Hsteps as [rt | rt rt1 rt2 Hstep _ IH]; intros roles [HI HL].
  - exists []. now rewrite app_nil_r.
  - destruct Hstep as [rt path | rt before r after o Hsplit Hsrc
                       | rt before a p after o Hsplit].
    + destruct (IH (roles ++ callRoles rt path)) as [more HF].
      * split; [exact (inv_queueFileAction _ _ _ HI)
               | exact (live_queueFileAction _ _ _ HI HL)].
      * exists (callRoles rt path ++ more). now rewrite app_assoc.
    + destruct (IH (roles ++ reactRoles r o)) as [more HF].
      * split; [exact (inv_runReaction _ _ _ _ _ _ HI Hsplit Hsrc)
               | exact (live_runReaction _ _ _ _ _ _ HI HL Hsplit Hsrc)].
      * exists (reactRoles r o ++ more). now rewrite app_assoc.
    + destruct (IH roles) as [more HF].
      * split; [exact (inv_finishAction _ _ _ _ _ _ o HI Hsplit)
               | exact (live_finishAction _ _ _ _ _ _ o HI HL Hsplit)].
      * now exists more.
Qed.

Lemma queueFileAction_nextAction (rt : Runtime) (roles : list Role) (path : string) :
  Full rt roles ->
  (roles ++ callRoles rt path) !! fst (queueFileAction path rt)
  = Some (RoleNext (length (submitted rt))).
Proof.
  intros [HI _].
  pose proof (Forall2_length _ _ _ (inv_promises _ _ HI)) as Hlen.
  unfold callRoles, queueFileAction, bind, submit, queueGet, promiseResolve,
    promiseReact, bind, newPromise, register, queueSet, ret.
  cbn. destruct (modificationQueue rt !! path) as [p|]; cbn.
  - rewrite length_app, <- Hlen. rewrite lookup_app_r by lia.
    now replace (length roles + length [Pending] - length roles) with 1 by (simpl; lia).
  - rewrite !length_app, <- Hlen. rewrite lookup_app_r by lia.
    now replace (length roles + length [Settled Fulfilled] + length [Pending]
                 - length roles) with 2 by (simpl; lia).
Qed.

(** The promise [queueFileAction] returns settles only after the action it
    was given has finished, and it is never rejected: a caller that awaits
    it resumes after the action has run, whatever its outcome. *)
Theorem awaited_action_has_run (rt rt' : Runtime) (path : string) (o : Settlement) :
  reachable rt ->
  rtc step (snd (queueFileAction path rt)) rt' ->
  promises rt' !! fst (queueFileAction path rt) = Some (Settled o) ->
  o = Fulfilled /\ finished (trace rt') (length (submitted rt)).
Proof.
  intros Hrt Hsteps Hp. destruct (full_reachable rt Hrt) as [roles HF].
  pose proof (queueFileAction_nextAction rt roles path HF) as Hrole.
  assert (HF1 : Full (snd (queueFileAction path rt)) (roles ++ callRoles rt path)).
  { destruct HF as [HI HL].
    split; [exact (inv_queueFileAction _ _ _ HI)
           | exact (live_queueFileAction _ _ _ HI HL)]. }
  destruct (full_steps _ _ _ HF1 Hsteps) as [more [HI' _]].
  apply (lookup_app_Some_l _ more) in Hrole.
  pose proof (Forall2_lookup_lr _ _ _ _ _ _ (inv_promises _ _ HI') Hrole Hp) as H.
  simpl in H. destruct H as [H | [H Hf]]; [discriminate|].
  split; [congruence | exact Hf].
Qed.
(** C2. In every reachable state of the queue: whenever an action starts,
    every action submitted before it for the same path has finished,
    fulfilled or rejected, before that start, also when the later action
    was submitted before the earlier one had started; no action is ever
    skipped because an earlier one was rejected, and the tail stored for a
    path is never a rejected promise; and every submitted action can still
    be started and brought to its end by steps of the chain of its own
    path alone, whatever the outcomes of the earlier actions and whatever
    goes on for other paths.  Two runs show a rejection that is logged
    and followed by the next action of the path, and two actions of
    different paths running at the same time. *)
Theorem queue_serializes :
  (forall rt, reachable rt ->
     (forall (before after : list Event) a1 a2 path,
        trace rt = before ++ Started a2 :: after ->
        (a1 < a2)%nat ->
        submitted rt !! a1 = Some path -> submitted rt !! a2 = Some path ->
        exists o, Finished a1 o ∈ before)
     /\ (forall a, Skipped a ∉ trace rt)
     /\ (forall path p, modificationQueue rt !! path = Some p ->
                        promises rt !! p <> Some (Settled Rejected))
     /\ (forall a path, submitted rt !! a = Some path ->
          exists schedule rt' new,
            run schedule rt = Some rt'
            /\ Forall (fun c => forall p, c <> Call p) schedule
            /\ trace rt' = trace rt ++ new
            /\ Forall (eventOn (submitted rt) path) new
            /\ Started a ∈ trace rt'
            /\ finished (trace rt') a))
  /\ (exists rt, reachable rt
                 /\ submitted rt = ["a.md"; "a.md"]%string
                 /\ trace rt = [Started 0; Finished 0 Rejected;
                                Logged "a.md"; Started 1])
  /\ (exists rt, reachable rt
                 /\ submitted rt = ["a.md"; "b.md"]%string
                 /\ trace rt = [Started 0; Started 1]
                 /\ running rt <> []).
Proof.
  split; [|split].
  - intros rt Hrt. destruct (full_reachable rt Hrt) as [roles [HI _]].
    split; [exact (inv_ordered _ _ HI)|]. split; [exact (inv_noskip _ _ HI)|].
    split; [|intros a path Ha; now apply chain_progress].
    intros path p Hq Hp.
    pose proof (inv_queue _ _ HI path) as Hqp. unfold queueOk in Hqp.
    rewrite Hq in Hqp. destruct Hqp as (b & Hb & _).
    pose proof (Forall2_lookup_lr _ _ _ _ _ _ (inv_promises _ _ HI) Hb Hp) as H.
    simpl in H. destruct H as [H | [H _]]; discriminate.
  - destruct (run [Call "a.md"; Call "a.md"; React 0; Finish 0 Rejected;
                   React 3; React 0; React 0] initial) as [rt|] eqn:E;
      [|vm_compute in E; discriminate].
    exists rt. split; [exact (run_reachable _ _ _ reachable_initial E)|].
    vm_compute in E. injection E as <-. split; reflexivity.
  - destruct (run [Call "a.md"; Call "b.md"; React 0; React 1] initial)
      as [rt|] eqn:E; [|vm_compute in E; discriminate].
    exists rt. split; [exact (run_reachable _ _ _ reachable_initial E)|].
    vm_compute in E. injection E as <-. repeat split; try reflexivity.
    discriminate.
Qed.

End QueueFacts.

(** ** Transition Controller *)

Section TransitionFacts.

Import Plugin Spec.

Open Scope list_scope.

Lemma manageClockAction_sourcePath
    (type : ClockType) (timestamp : string) (v : Vault) (t : KanbanTask) :
  sourcePath (snd (manageClockAction type timestamp v t)) = sourcePath t.
Proof.
  unfold manageClockAction, manageClockLines.
  destruct (v !! sourcePath t); [|reflexivity].
  now destruct (_ =? -1)%Z.
Qed.

(** C4. On a transition between two different columns one of which is the
    clock column, with automatic intervals on, [handleTaskMove] calls
    [queueFileAction] exactly twice, both times for the file of the task:
    first for the interval action (a close when the source is the clock
    column, an open when the target is), then for the rewrite of the
    status symbol.  The symbol is rewritten in the document the interval
    action left, and in the end the column of the task is the target. *)
Theorem handleTaskMove_order
    (settings : ClockKanbanSettings) (timestamp shown : string)
    (sourceColumn targetColumn : string) (w : World) :
  autoClockInOut settings = true ->
  sourceColumn <> targetColumn ->
  sourceColumn = clockColumn settings \/ targetColumn = clockColumn settings ->
  let w' := snd (handleTaskMove settings timestamp shown sourceColumn targetColumn w) in
  let path := sourcePath (task w) in
  let type := intervalType settings sourceColumn in
  let afterInterval := manageClockAction type timestamp (vault w) (task w) in
  let afterSymbol :=
    updateStatusAction settings targetColumn (fst afterInterval)
      (betweenActions settings shown sourceColumn targetColumn (snd afterInterval)) in
  queued w' = queued w ++ [(path, ClockProperty type); (path, StatusSymbol targetColumn)]
  /\ vault w' = fst afterSymbol
  /\ task w' = snd afterSymbol
  /\ column (task w') = targetColumn.
Proof.
  intros Hauto Hne Hclock. cbv zeta.
  assert (Hcol : forall v t,
             column (snd (updateStatusAction settings targetColumn v
                            (betweenActions settings shown sourceColumn targetColumn t)))
             = targetColumn).
  { intros v t. unfold updateStatusAction, betweenActions.
    destruct (v !! _); [|reflexivity].
    destruct (_ =? -1)%Z; [reflexivity|].
    destruct (_ !! _); [|reflexivity].
    destruct (String.eqb _ _); reflexivity. }
  unfold handleTaskMove, intervalType, betweenActions, clockOut, clockIn,
    manageClockProperty, updateTaskStatus, queueFileAction, updateTask, whenA,
    bind, ret in *.
  rewrite Hauto. cbn [negb andb].
  destruct Hclock as [-> | ->].
  - rewrite String.eqb_refl.
    assert (Ht : String.eqb targetColumn (clockColumn settings) = false)
      by (apply String.eqb_neq; congruence).
    rewrite Ht. cbn [negb andb].
    destruct (manageClockAction clockEndType timestamp (vault w) (task w))
      as [v1 t1] eqn:E1.
    pose proof (manageClockAction_sourcePath clockEndType timestamp (vault w) (task w))
      as Hpath. rewrite E1 in Hpath. cbn [snd] in Hpath.
    cbn [vault task queued fst snd]. specialize (Hcol v1 t1).
    rewrite String.eqb_refl in Hcol.
    destruct (updateStatusAction settings targetColumn v1
                (setColumn targetColumn (setEndTime shown (setIsClockedIn false t1))))
      as [v2 t2] eqn:E2.
    cbn [vault task queued fst snd sourcePath setColumn setEndTime setIsClockedIn] in *.
    rewrite Hpath, <- app_assoc. repeat split. exact Hcol.
  - assert (Hs : String.eqb sourceColumn (clockColumn settings) = false)
      by (apply String.eqb_neq; congruence).
    rewrite Hs, String.eqb_refl. cbn [negb andb].
    destruct (manageClockAction clockStartType timestamp (vault w) (task w))
      as [v1 t1] eqn:E1.
    pose proof (manageClockAction_sourcePath clockStartType timestamp (vault w) (task w))
      as Hpath. rewrite E1 in Hpath. cbn [snd] in Hpath.
    cbn [vault task queued fst snd]. specialize (Hcol v1 t1).
    rewrite Hs in Hcol.
    destruct (updateStatusAction settings (clockColumn settings) v1
                (setColumn (clockColumn settings)
                   (setStartTime shown (setIsClockedIn true t1))))
      as [v2 t2] eqn:E2.
    cbn [vault task queued fst snd sourcePath setColumn setStartTime setIsClockedIn] in *.
    rewrite Hpath, <- app_assoc. repeat split. exact Hcol.
Qed.

Lemma handleTaskMove_order_witness :
  let w' := snd (handleTaskMove Scenario.settings "2026-01-01T10:00:00" "10:00"
                   "TODO" "Working" Scenario.world) in
  queued w' = [("a.md"%string, ClockProperty clockStartType);
               ("a.md"%string, StatusSymbol "Working")]
  /\ column (task w') = "Working"%string
  /\ vault w' !! "a.md"%string
     = Some (Js.join ["# Today"; "- [/] Buy milk";
                      "      [clock::2026-01-01T10:00:00]"; "- [ ] Other"]%string).
Proof.
  cbv zeta.
  pose proof (handleTaskMove_order Scenario.settings "2026-01-01T10:00:00" "10:00"
                "TODO" "Working" Scenario.world eq_refl
                ltac:(discriminate) (or_intror eq_refl)) as H.
  cbv zeta in H. destruct H as (Hq & Hv & _ & Hc).
  split; [exact Hq|]. split; [exact Hc|].
  rewrite Hv. vm_compute. reflexivity.
Defined.

End TransitionFacts.

(** ** Clock-in and clock-out on any document *)

Section AnnotationRunFacts.

Import Annotator Spec Ingestion.

Open Scope list_scope.

(** The first loop stops right after the annotation run. *)
Lemma skipClockLines_run (rest : list string) (k : nat) :
  skipClockLines rest k = (k + length (annotationRun rest))%nat.
Proof.
  revert k. induction rest as [|l rest IH]; intros k; cbn [skipClockLines annotationRun].
  - cbn. lia.
  - destruct (isClockLine l); cbn [length]; [rewrite IH|]; lia.
Qed.

Lemma annotationRun_split (rest : list string) :
  rest = annotationRun rest ++ drop (length (annotationRun rest)) rest.
Proof.
  induction rest as [|l rest IH]; cbn [annotationRun]; [reflexivity|].
  destruct (isClockLine l); [|reflexivity].
  cbn [length drop app]. now rewrite <- IH.
Qed.

Lemma annotationRun_stops (rest : list string) (l : string) :
  rest !! length (annotationRun rest) = Some l -> isClockLine l = false.
Proof.
  induction rest as [|l0 rest IH]; cbn [annotationRun]; [discriminate|].
  destruct (isClockLine l0) eqn:E; cbn [length].
  - exact IH.
  - cbn. intros [= <-]. exact E.
Qed.

Lemma annotationRun_all (rest : list string) :
  Forall (fun l => isClockLine l = true) (annotationRun rest).
Proof.
  induction rest as [|l rest IH]; cbn [annotationRun]; [constructor|].
  destruct (isClockLine l) eqn:E; [|constructor]. now constructor.
Qed.

Lemma clockStart_run (lines : list string) (i : nat) (t : string) :
  let run := annotationRun (drop (i + 1) lines) in
  clockStart lines i t
  = take (i + 1) lines ++ run ++ openLine t :: drop (i + 1 + length run) lines.
Proof.
  cbv zeta. unfold clockStart, splice, openLine. rewrite skipClockLines_run.
  set (run := annotationRun (drop (i + 1) lines)).
  rewrite <- !append_assoc. rewrite app_assoc. f_equal.
  rewrite <- (take_drop (i + 1) (take (i + 1 + length run) lines)) at 1.
  rewrite take_take, Nat.min_l by lia. f_equal.
  rewrite <- take_drop_commute.
  rewrite (annotationRun_split (drop (i + 1) lines)) at 1. fold run.
  rewrite take_app_length. reflexivity.
Qed.


(** Once a match is recorded the loop ends with a match. *)
Lemma lastOpenMatch_keeps (s : string) (pos skip : nat) (m0 : ExecMatch) :
  exists m, lastOpenMatch s pos skip (Some m0) = Some m.
Proof.
  revert pos skip m0. induction s as [|c s IH]; intros pos skip m0.
  - now exists m0.
  - cbn [lastOpenMatch]. destruct skip as [|k]; [|apply IH].
    destruct (matchOpenAt (String c s)) as [[cap r]|]; apply IH.
Qed.

(** A line the test accepts gives the loop a match. *)
Lemma lastOpenMatch_finds (s : string) (pos : nat) (acc : option ExecMatch) :
  openClockTest s = true -> exists m, lastOpenMatch s pos 0 acc = Some m.
Proof.
  revert pos acc. induction s as [|c s IH]; intros pos acc.
  - cbn. discriminate.
  - cbn [openClockTest lastOpenMatch].
    destruct (matchOpenAt (String c s)) as [[cap r]|].
    + intros _. apply lastOpenMatch_keeps.
    + apply IH.
Qed.

(** What the loop ends with: the match it was given, and then no match
    starts behind the part still covered; or a match it found behind that
    part, and then no match starts behind that one. *)
Lemma lastOpenMatch_sound
    (s : string) (pos skip : nat) (acc : option ExecMatch) (m : ExecMatch) :
  lastOpenMatch s pos skip acc = Some m ->
  (acc = Some m /\ openClockTest (Js.substringFrom skip s) = false)
  \/ (exists before after,
        s = before +:+ "[clock::" +:+ group1 m +:+ String closeBracket after
        /\ index m = (pos + String.length before)%nat
        /\ matchLength m = (8 + String.length (group1 m) + 1)%nat
        /\ matchOpenAt ("[clock::" +:+ group1 m +:+ String closeBracket after)
           = Some (group1 m, after)
        /\ openClockTest after = false).
Proof.
  revert pos skip acc. induction s as [|c s IH]; intros pos skip acc H.
  - cbn [lastOpenMatch] in H. left. split; [exact H|]. now destruct skip.
  - cbn [lastOpenMatch] in H. destruct skip as [|k].
    + destruct (matchOpenAt (String c s)) as [[cap r]|] eqn:E.
      * pose proof (matchOpenAt_text _ _ _ E) as Htext.
        assert (Hc : c = "["%char /\ s = ("clock::" +:+ cap +:+ "]") +:+ r).
        { rewrite !append_assoc.
          change ("[clock::" +:+ cap +:+ String closeBracket r)
            with (String "[" ("clock::" +:+ cap +:+ String closeBracket r)) in Htext.
          now injection Htext as -> ->. }
        destruct Hc as [-> Hs0].
        apply IH in H as [[Hm Hno] | (before & after & Hs & Hi & Hl & Hm & Hno)].
        -- injection Hm as <-. right. exists EmptyString, r.
           cbn [group1 index matchLength String.append String.length].
           split; [now rewrite Hs0, !append_assoc|]. split; [lia|].
           split; [reflexivity|].
           split; [rewrite Htext in E; exact E|].
           replace (8 + String.length cap + 1 - 1)%nat
             with (String.length ("clock::" +:+ cap +:+ "]")) in Hno
             by (rewrite !length_append; simpl; lia).
           now rewrite Hs0, substringFrom_app in Hno.
        -- right. exists (String "[" before), after.
           cbn [String.append String.length]. rewrite Hs.
           split; [reflexivity|]. split; [lia|]. now split.
      * apply IH in H as [[Hm Hno] | (before & after & Hs & Hi & Hl & Hm & Hno)].
        -- left. split; [exact Hm|]. cbn [Js.substringFrom] in *.
           cbn [openClockTest]. now rewrite E.
        -- right. exists (String c before), after.
           cbn [String.append String.length]. rewrite Hs.
           split; [reflexivity|]. split; [lia|]. now split.
    + apply IH in H as [[Hm Hno] | (before & after & Hs & Hi & Hl & Hm & Hno)].
      * left. now split.
      * right. exists (String c before), after.
        cbn [String.append String.length]. rewrite Hs.
        split; [reflexivity|]. split; [lia|]. now split.
Qed.

(** The rewrite of a line with an open token: the last open token gets
    the end timestamp, and nothing else of the line changes. *)
Lemma closeLastToken_open (line timestamp : string) :
  openClockTest line = true ->
  exists before start after,
    line = before +:+ "[clock::" +:+ start +:+ String closeBracket after
    /\ closeLastToken line timestamp
       = before +:+ "[clock::" +:+ start +:+ "--" +:+ timestamp
         +:+ String closeBracket after
    /\ matchOpenAt ("[clock::" +:+ start +:+ String closeBracket after)
       = Some (start, after)
    /\ openClockTest after = false.
Proof.
  intros Ht. destruct (lastOpenMatch_finds line 0 None Ht) as [m Hm].
  unfold closeLastToken. rewrite Hm.
  apply lastOpenMatch_sound in Hm
    as [[Hm _] | (before & after & Hs & Hi & Hl & Hmatch & Hno)]; [discriminate|].
  exists before, (group1 m), after. split; [exact Hs|]. split; [|now split].
  assert (Hafter : Js.substringFrom (index m + matchLength m) line = after).
  { rewrite Hi, Hl.
    replace (0 + String.length before + (8 + String.length (group1 m) + 1))%nat
      with (String.length (before +:+ "[clock::" +:+ group1 m +:+ "]"))
      by (rewrite !length_append; simpl; lia).
    rewrite Hs.
    replace (before +:+ "[clock::" +:+ group1 m +:+ String closeBracket after)
      with ((before +:+ "[clock::" +:+ group1 m +:+ "]") +:+ after)
      by (now rewrite !append_assoc).
    now rewrite substringFrom_app. }
  rewrite Hafter, Hi. cbn [Nat.add]. rewrite Hs at 1. rewrite substringTo_app.
  now rewrite !append_assoc.
Qed.

Lemma closeLastToken_not_open (line timestamp : string) :
  openClockTest line = false -> closeLastToken line timestamp = line.
Proof.
  intros Ht. unfold closeLastToken.
  destruct (lastOpenMatch line 0 0 None) as [m|] eqn:Hm; [|reflexivity].
  apply lastOpenMatch_sound in Hm
    as [[Hm _] | (before & after & Hs & _ & _ & Hmatch & _)]; [discriminate|].
  exfalso. rewrite Hs in Ht. clear Hs.
  induction before as [|c before IH].
  - pose proof (openClockTest_here _ _ Hmatch) as H1.
    change (openClockTest ("[clock::" +:+ group1 m +:+ String closeBracket after) = false)
      in Ht.
    congruence.
  - cbn [String.append openClockTest] in Ht.
    destruct (matchOpenAt _); [discriminate|]. now apply IH.
Qed.


Lemma closeLastToken_changes (line timestamp : string) :
  openClockTest line = true -> closeLastToken line timestamp <> line.
Proof.
  intros Ht Heq.
  destruct (closeLastToken_open line timestamp Ht)
    as (before & start & after & Hl & Hc & _).
  rewrite Hc in Heq. rewrite Hl in Heq.
  apply (f_equal String.length) in Heq.
  rewrite !length_append in Heq. cbn [String.length] in Heq. lia.
Qed.

Lemma hasOpenClock_false (rest : list string) :
  hasOpenClock rest = false
  <-> Forall (fun l => openClockTest l = false) (annotationRun rest).
Proof.
  induction rest as [|l rest IH]; cbn [hasOpenClock annotationRun].
  - split; [constructor | reflexivity].
  - destruct (isClockLine l); [|split; [constructor | reflexivity]].
    destruct (openClockTest l) eqn:E.
    + split; [discriminate|]. intros H. apply Forall_cons in H as [H _]. congruence.
    + rewrite IH. split; [now constructor|]. intros H. now apply Forall_cons in H as [_ H].
Qed.

(** The second loop on a run with an open token: it ends on the last line
    of the run that has one. *)
Lemma lastOpenClockLine_last
    (rest : list string) (k : nat) (acc : option nat) :
  hasOpenClock rest = true ->
  exists j l,
    lastOpenClockLine rest k acc = Some (k + j)%nat
    /\ annotationRun rest !! j = Some l
    /\ openClockTest l = true
    /\ forall j' l', (j < j')%nat -> annotationRun rest !! j' = Some l' ->
                     openClockTest l' = false.
Proof.
  revert k acc. induction rest as [|l rest IH]; intros k acc; [discriminate|].
  cbn [hasOpenClock lastOpenClockLine annotationRun].
  destruct (isClockLine l); [|discriminate].
  destruct (hasOpenClock rest) eqn:Hrest.
  - intros _.
    destruct (IH (S k) (if openClockTest l then Some k else acc) eq_refl)
      as (j & l1 & H1 & H2 & H3 & H4).
    exists (S j), l1. split; [rewrite H1; f_equal; lia|]. split; [exact H2|].
    split; [exact H3|]. intros [|j'] l' Hj Hl'; [lia|].
    apply (H4 j' l'); [lia | exact Hl'].
  - destruct (openClockTest l) eqn:E; [|discriminate]. intros _.
    apply hasOpenClock_false in Hrest.
    exists 0%nat, l. split.
    { rewrite (lastOpenClockLine_none _ _ _ Hrest). f_equal. lia. }
    split; [reflexivity|]. split; [exact E|].
    intros [|j'] l' Hj Hl'; [lia|]. cbn in Hl'.
    rewrite Forall_lookup in Hrest. exact (Hrest j' l' Hl').
Qed.

Lemma annotationRun_lookup (lines : list string) (k j : nat) (l : string) :
  annotationRun (drop k lines) !! j = Some l -> lines !! (k + j)%nat = Some l.
Proof.
  intros H. rewrite <- lookup_drop.
  rewrite (annotationRun_split (drop k lines)).
  now apply lookup_app_l_Some.
Qed.

(** The end branch on a task that has an open token below it. *)
Lemma clockEnd_on_open_run (lines : list string) (i : nat) (t : string) :
  hasOpenClock (drop (i + 1) lines) = true ->
  exists j l,
    annotationRun (drop (i + 1) lines) !! j = Some l
    /\ lines !! (i + 1 + j)%nat = Some l
    /\ openClockTest l = true
    /\ (forall j' l', (j < j')%nat ->
          annotationRun (drop (i + 1) lines) !! j' = Some l' ->
          openClockTest l' = false)
    /\ clockEnd lines i t = <[(i + 1 + j)%nat := closeLastToken l t]> lines.
Proof.
  intros H.
  destruct (lastOpenClockLine_last _ (i + 1) None H) as (j & l & H1 & H2 & H3 & H4).
  exists j, l. pose proof (annotationRun_lookup _ _ _ _ H2) as Hl.
  split; [exact H2|]. split; [exact Hl|]. split; [exact H3|]. split; [exact H4|].
  unfold clockEnd. now rewrite H1, Hl.
Qed.

End AnnotationRunFacts.

Section ClockOutFacts.

Import Annotator Spec Ingestion.

Open Scope list_scope.

(** Clock-out writes a change exactly when the task shows as clocked in:
    the loop of [manageClockProperty] that looks for the last open token
    and the loop of [checkIfTaskIsClockedIn] that looks for the first one
    agree on every document. *)
Theorem clockEnd_changes_iff_clocked_in
    (lines : list string) (currentLine : nat) (timestamp : string) :
  clockEnd lines currentLine timestamp = lines
  <-> hasOpenClock (drop (currentLine + 1) lines) = false.
Proof.
  split.
  - intros Heq. destruct (hasOpenClock (drop (currentLine + 1) lines)) eqn:H;
      [|reflexivity].
    destruct (clockEnd_on_open_run lines currentLine timestamp H)
      as (j & l & _ & Hl & Ht & _ & Hc).
    exfalso. apply (closeLastToken_changes l timestamp Ht).
    assert (Hlook : clockEnd lines currentLine timestamp !! (currentLine + 1 + j)%nat
                    = Some (closeLastToken l timestamp)).
    { rewrite Hc. apply list_lookup_insert_eq. now apply lookup_lt_Some in Hl. }
    rewrite Heq, Hl in Hlook. now injection Hlook.
  - intros H. apply hasOpenClock_false in H. unfold clockEnd.
    now rewrite (lastOpenClockLine_none _ _ _ H).
Qed.

(** Clock-out rewrites one token and nothing else: on a task with an open
    token in the annotation run below it, the last line of the run that
    has an open token gets the end timestamp put into its last open
    token, behind the start timestamp; the text before and after that
    token, and every other line, stay as they are. *)
Theorem clockEnd_closes_last_open_token
    (lines : list string) (currentLine : nat) (timestamp : string) :
  hasOpenClock (drop (currentLine + 1) lines) = true ->
  exists (j : nat) (before start after : string),
    annotationRun (drop (currentLine + 1) lines) !! j
    = Some (before +:+ "[clock::" +:+ start +:+ "]" +:+ after)
    /\ lines !! (currentLine + 1 + j)%nat
       = Some (before +:+ "[clock::" +:+ start +:+ "]" +:+ after)
    /\ matchOpenAt ("[clock::" +:+ start +:+ "]" +:+ after) = Some (start, after)
    /\ openClockTest after = false
    /\ (forall j' l', (j < j')%nat ->
          annotationRun (drop (currentLine + 1) lines) !! j' = Some l' ->
          openClockTest l' = false)
    /\ clockEnd lines currentLine timestamp
       = <[(currentLine + 1 + j)%nat :=
             before +:+ "[clock::" +:+ start +:+ "--" +:+ timestamp +:+ "]" +:+ after]>
           lines.
Proof.
  intros H.
  destruct (clockEnd_on_open_run lines currentLine timestamp H)
    as (j & l & Hrun & Hl & Ht & Hlater & Hc).
  destruct (closeLastToken_open l timestamp Ht)
    as (before & start & after & Hline & Hclose & Hm & Hno).
  exists j, before, start, after. subst l.
  split; [exact Hrun|]. split; [exact Hl|]. split; [exact Hm|].
  split; [exact Hno|]. split; [exact Hlater|].
  rewrite Hc. now rewrite Hclose.
Qed.

Lemma clockEnd_closes_last_open_token_witness :
  let lines :=
    ["- [/] Buy milk"; "  [clock::a--b] [clock::c]"; "  [clock::d] [clock::e]";
     "  [clock::f--g]"; "rest"]%string in
  hasOpenClock (drop (0 + 1) lines) = true
  /\ exists (j : nat) (before start after : string),
       annotationRun (drop (0 + 1) lines) !! j
       = Some (before +:+ "[clock::" +:+ start +:+ "]" +:+ after)
       /\ lines !! (0 + 1 + j)%nat
          = Some (before +:+ "[clock::" +:+ start +:+ "]" +:+ after)
       /\ matchOpenAt ("[clock::" +:+ start +:+ "]" +:+ after) = Some (start, after)
       /\ openClockTest after = false
       /\ (forall j' l', (j < j')%nat ->
             annotationRun (drop (0 + 1) lines) !! j' = Some l' ->
             openClockTest l' = false)
       /\ clockEnd lines 0 "t"
          = <[(0 + 1 + j)%nat :=
                before +:+ "[clock::" +:+ start +:+ "--" +:+ "t" +:+ "]" +:+ after]>
              lines.
Proof.
  cbv zeta. split; [vm_compute; reflexivity|].
  apply clockEnd_closes_last_open_token. vm_compute. reflexivity.
Defined.

End ClockOutFacts.

Section ClockInFacts.

Import Annotator Spec Ingestion Plugin.

Open Scope list_scope.

Lemma hasOpenClock_app (run rest : list string) :
  Forall (fun l => isClockLine l = true) run ->
  Forall (fun l => openClockTest l = false) run ->
  hasOpenClock (run ++ rest) = hasOpenClock rest.
Proof.
  induction run as [|l run IH]; intros Hc Ho; [reflexivity|].
  apply Forall_cons in Hc as [Hc Hcs]. apply Forall_cons in Ho as [Ho Hos].
  cbn [app hasOpenClock]. rewrite Hc, Ho. now apply IH.
Qed.

Lemma lastOpenClockLine_app
    (run rest : list string) (k : nat) (acc : option nat) :
  Forall (fun l => isClockLine l = true) run ->
  Forall (fun l => openClockTest l = false) run ->
  lastOpenClockLine (run ++ rest) k acc
  = lastOpenClockLine rest (k + length run)%nat acc.
Proof.
  revert k. induction run as [|l run IH]; intros k Hc Ho.
  - cbn. f_equal. lia.
  - apply Forall_cons in Hc as [Hc Hcs]. apply Forall_cons in Ho as [Ho Hos].
    cbn [app lastOpenClockLine length]. rewrite Hc, Ho, (IH _ Hcs Hos).
    f_equal. lia.
Qed.

Lemma annotationRun_app (run rest : list string) :
  Forall (fun l => isClockLine l = true) run ->
  annotationRun (run ++ rest) = run ++ annotationRun rest.
Proof.
  induction run as [|l run IH]; intros Hc; [reflexivity|].
  apply Forall_cons in Hc as [Hc Hcs].
  cbn [app annotationRun]. rewrite Hc. now rewrite (IH Hcs).
Qed.

(** Behind the annotation run there is no annotation line. *)
Lemma annotationRun_drop (rest : list string) :
  annotationRun (drop (length (annotationRun rest)) rest) = [].
Proof.
  induction rest as [|l rest IH]; cbn [annotationRun]; [reflexivity|].
  destruct (isClockLine l) eqn:E; cbn [length drop]; [exact IH|].
  cbn [annotationRun]. now rewrite E.
Qed.

(** A text without ['['] has no open token. *)
Lemma openClockTest_no_open_bracket (s : string) :
  Js.includes s "[" = false -> openClockTest s = false.
Proof.
  induction s as [|c s IH]; intros H; [reflexivity|].
  apply includes_cons_false in H as [H1 H2]. rewrite startsWith_single in H1.
  cbn [openClockTest]. unfold matchOpenAt.
  change "[clock::" with (String "[" "clock::"). cbn [Js.startsWith].
  rewrite H1. now apply IH.
Qed.

(** The body of an open token does not run over ["--"]. *)
Lemma openBody_dashes (t x : string) :
  Js.includes t "]" = false -> openBody (t +:+ "--" +:+ x) = None.
Proof.
  induction t as [|c t IH]; intros H.
  - reflexivity.
  - apply includes_cons_false in H as [H1 H2]. specialize (IH H2).
    change (String c t +:+ "--" +:+ x) with (String c (t +:+ "--" +:+ x)).
    cbn [openBody]. destruct (openBodyChar _); [|reflexivity].
    destruct (t +:+ "--" +:+ x) as [|d r] eqn:E; [reflexivity|].
    rewrite IH.
    destruct t as [|d' t'].
    + cbn in E. injection E as <- <-. reflexivity.
    + cbn [String.append] in E. injection E as <- <-.
      apply includes_cons_false in H2 as [H3 _]. rewrite startsWith_single in H3.
      unfold closeBracket. rewrite Ascii.eqb_sym, H3. reflexivity.
Qed.

(** A closed token written by the plugin is no open token. *)
Lemma openClockTest_closedLine (t0 t1 : string) :
  Js.includes t0 "]" = false ->
  Js.includes t0 "[" = false -> Js.includes t1 "[" = false ->
  openClockTest (closedLine t0 t1) = false.
Proof.
  intros H0 H1 H2. unfold closedLine, indentation.
  change ("      " +:+ "[clock::" +:+ t0 +:+ "--" +:+ t1 +:+ "]")
    with (String " " (String " " (String " " (String " " (String " " (String " "
            (String "[" ("clock::" +:+ t0 +:+ "--" +:+ t1 +:+ "]")))))))).
  rewrite !openClockTest_space. cbn [openClockTest].
  assert (Hm : matchOpenAt (String "[" ("clock::" +:+ t0 +:+ "--" +:+ t1 +:+ "]")) = None).
  { unfold matchOpenAt.
    change (String "[" ("clock::" +:+ t0 +:+ "--" +:+ t1 +:+ "]"))
      with ("[clock::" +:+ (t0 +:+ "--" +:+ t1 +:+ "]")).
    rewrite startsWith_app. change 8%nat with (String.length "[clock::").
    rewrite substringFrom_app. now apply openBody_dashes. }
  rewrite Hm. apply openClockTest_no_open_bracket.
  rewrite !includes_single_app. rewrite H1, H2. reflexivity.
Qed.

Lemma formatStamp_no_open_bracket (m : Js.Moment) :
  Js.includes (Js.formatStamp m) "[" = false.
Proof.
  unfold Js.formatStamp, Js.pad4, Js.pad2.
  cbn -[Js.digit Ascii.eqb Nat.div].
  rewrite !digit_not by (vm_compute; lia).
  reflexivity.
Qed.

(** A clock-in puts one line into the document and changes nothing
    else: the new line, six spaces and the open token, stands at the first
    index behind the task line whose line is no annotation-only line (or at
    the end of the document), that is, directly behind the annotation
    lines the task already has; every line of the document is still
    there, in the same order. *)
Theorem clockStart_inserts_after_run
    (lines : list string) (currentLine : nat) (timestamp : string) :
  (currentLine < length lines)%nat ->
  exists k : nat,
    (currentLine < k <= length lines)%nat
    /\ clockStart lines currentLine timestamp
       = take k lines ++ ("      [clock::" +:+ timestamp +:+ "]") :: drop k lines
    /\ (forall j l, (currentLine < j < k)%nat -> lines !! j = Some l ->
                    isClockLine l = true)
    /\ (forall l, lines !! k = Some l -> isClockLine l = false).
Proof.
  intros Hi. set (run := annotationRun (drop (currentLine + 1) lines)).
  assert (Hsplit : drop (currentLine + 1) lines
                   = run ++ drop (length run) (drop (currentLine + 1) lines))
    by apply annotationRun_split.
  assert (Hlen : (currentLine + 1 + length run <= length lines)%nat).
  { apply (f_equal length) in Hsplit.
    rewrite length_app, !length_drop in Hsplit. lia. }
  exists (currentLine + 1 + length run)%nat. split; [lia|]. split.
  - unfold clockStart, splice. now rewrite skipClockLines_run.
  - split.
    + intros j l Hj Hl.
      assert (Hrun : run !! (j - (currentLine + 1))%nat = Some l).
      { rewrite <- (lookup_app_l run (drop (length run) (drop (currentLine + 1) lines)))
          by lia.
        rewrite <- Hsplit, lookup_drop. rewrite <- Hl. f_equal. lia. }
      pose proof (annotationRun_all (drop (currentLine + 1) lines)) as Hall.
      rewrite Forall_lookup in Hall. exact (Hall _ _ Hrun).
    + intros l Hl. apply (annotationRun_stops (drop (currentLine + 1) lines)).
      rewrite lookup_drop. exact Hl.
Qed.

Lemma clockStart_inserts_after_run_witness :
  let lines := ["# Today"; "- [ ] Buy milk"; "  [clock::a--b]"; "- [ ] Other"]%string in
  (1 < length lines)%nat
  /\ exists k : nat,
       (1 < k <= length lines)%nat
       /\ clockStart lines 1 "2026-01-01T10:00:00"
          = take k lines ++ ("      [clock::" +:+ "2026-01-01T10:00:00" +:+ "]")
            :: drop k lines
       /\ (forall j l, (1 < j < k)%nat -> lines !! j = Some l -> isClockLine l = true)
       /\ (forall l, lines !! k = Some l -> isClockLine l = false).
Proof.
  cbv zeta. split; [cbn; lia|].
  apply clockStart_inserts_after_run. cbn. lia.
Defined.

(** The two actions of [manageClockProperty] on a task found at line [i]. *)
Lemma manageClockAction_found
    (type : ClockType) (timestamp : string) (vault : Vault) (task : KanbanTask)
    (content : string) (i : nat) :
  vault !! sourcePath task = Some content ->
  Locator.findTaskInLines (Js.split content) (description task) (lineNumber task)
  = Z.of_nat i ->
  manageClockAction type timestamp vault task
  = (<[sourcePath task :=
         Js.join (match type with
                  | clockStartType => clockStart (Js.split content) i timestamp
                  | clockEndType => clockEnd (Js.split content) i timestamp
                  end)]> vault,
     setLineNumber (Z.of_nat i) task).
Proof.
  intros Hfile Hfound. unfold manageClockAction, manageClockLines.
  rewrite Hfile, Hfound.
  replace (Z.of_nat i =? -1)%Z with false by (symmetry; apply Z.eqb_neq; lia).
  rewrite Nat2Z.id. now destruct type.
Qed.

Lemma found_in_range (lines : list string) (description : string) (hint : Z) (i : nat) :
  Locator.findTaskInLines lines description hint = Z.of_nat i -> (i < length lines)%nat.
Proof.
  intros H. destruct (findTaskInLines_found description lines hint) as [Hr | [Hb _]]; lia.
Qed.

(** The document a clock-in leaves is read back line by line. *)
Lemma split_join_clockStart (content : string) (i : nat) (t : string) :
  validStamp t = true ->
  Js.split (Js.join (clockStart (Js.split content) i t))
  = clockStart (Js.split content) i t.
Proof.
  intros Hv. apply split_join.
  - unfold clockStart, splice. now destruct (take _ _).
  - unfold clockStart, splice. apply Forall_app. split.
    + apply Forall_take, split_no_line_feed.
    + constructor; [now apply (openLine_no_line_feed t)|].
      apply Forall_drop, split_no_line_feed.
Qed.

Lemma hasOpenClock_behind_run (run rest : list string) (l : string) :
  Forall (fun l => isClockLine l = true) run ->
  isClockLine l = true -> openClockTest l = true ->
  hasOpenClock (run ++ l :: rest) = true.
Proof.
  intros Hall Hl Ho. induction run as [|l0 run IH].
  - cbn [app hasOpenClock]. now rewrite Hl, Ho.
  - apply Forall_cons in Hall as [H0 Hall]. cbn [app hasOpenClock]. rewrite H0.
    destruct (openClockTest l0); [reflexivity | now apply IH].
Qed.

Lemma hasOpenClock_clockStart (lines : list string) (i : nat) (t : string) :
  validStamp t = true -> (i < length lines)%nat ->
  hasOpenClock (drop (i + 1) (clockStart lines i t)) = true.
Proof.
  intros Hv Hi. rewrite (clockStart_run lines i t).
  rewrite drop_app_length' by (symmetry; apply length_take_le; lia).
  apply hasOpenClock_behind_run.
  - apply annotationRun_all.
  - now apply isClockLine_openLine.
  - now apply openClockTest_openLine.
Qed.

(** After a clock-in on a task that is found in its file,
    [checkIfTaskIsClockedIn] reports the task as clocked in: the open token
    the action wrote is found below the line the action left in
    [task.lineNumber], whatever annotation lines the task had before. *)
Theorem clock_in_is_seen
    (vault : Vault) (task : KanbanTask) (content : string) (m : Js.Moment) :
  vault !! sourcePath task = Some content ->
  Locator.findTaskInLines (Js.split content) (description task) (lineNumber task)
  <> (-1)%Z ->
  let after := manageClockAction clockStartType (Js.formatStamp m) vault task in
  checkIfTaskIsClockedIn (fst after) (snd after) = true.
Proof.
  intros Hfile Hfound. cbv zeta.
  destruct (findTaskInLines_found (description task) (Js.split content) (lineNumber task))
    as [Hr | [Hb _]]; [contradiction|].
  set (i := Z.to_nat (Locator.findTaskInLines (Js.split content) (description task)
                        (lineNumber task))).
  assert (Hi : Locator.findTaskInLines (Js.split content) (description task)
                 (lineNumber task) = Z.of_nat i) by (unfold i; lia).
  assert (Hlt : (i < length (Js.split content))%nat) by lia.
  pose proof (validStamp_formatStamp m) as Hv.
  rewrite (manageClockAction_found clockStartType _ _ _ _ i Hfile Hi).
  cbn [fst snd]. unfold checkIfTaskIsClockedIn.
  cbn [sourcePath lineNumber setLineNumber]. rewrite lookup_insert_eq.
  rewrite (split_join_clockStart _ _ _ Hv).
  assert (Hlen : length (clockStart (Js.split content) i (Js.formatStamp m))
                 = S (length (Js.split content))).
  { unfold clockStart, splice. rewrite length_app. cbn [length].
    rewrite length_take, length_drop. lia. }
  rewrite Hlen.
  replace ((Z.of_nat i <? 0)%Z) with false by (symmetry; apply Z.ltb_ge; lia).
  replace ((Z.of_nat (S (length (Js.split content))) <=? Z.of_nat i)%Z) with false
    by (symmetry; apply Z.leb_gt; lia).
  cbn [orb]. rewrite Nat2Z.id. now apply hasOpenClock_clockStart.
Qed.

Lemma clock_in_is_seen_witness :
  let vault := Scenario.vaultWith Scenario.plainDocument in
  let m := {| Js.year := 2026; Js.month := 1; Js.day := 1;
              Js.hour := 10; Js.minute := 0; Js.second := 0 |} in
  vault !! sourcePath Scenario.workingTask = Some Scenario.plainDocument
  /\ Locator.findTaskInLines (Js.split Scenario.plainDocument)
       (description Scenario.workingTask) (lineNumber Scenario.workingTask)
     <> (-1)%Z
  /\ checkIfTaskIsClockedIn
       (fst (manageClockAction clockStartType (Js.formatStamp m) vault
               Scenario.workingTask))
       (snd (manageClockAction clockStartType (Js.formatStamp m) vault
               Scenario.workingTask)) = true.
Proof.
  cbv zeta. split; [reflexivity|]. split; [vm_compute; discriminate|].
  apply (clock_in_is_seen _ _ Scenario.plainDocument);
    [reflexivity | vm_compute; discriminate].
Defined.

Lemma closedLine_no_line_feed (t0 t1 : string) :
  validStamp t0 = true -> validStamp t1 = true -> noLineFeed (closedLine t0 t1).
Proof.
  intros H0 H1. unfold noLineFeed, closedLine. rewrite !includes_single_app.
  unfold validStamp in H0, H1.
  repeat (apply andb_prop in H0 as [H0 ?]). repeat (apply andb_prop in H1 as [H1 ?]).
  repeat match goal with
         | G : negb _ = true |- _ => apply negb_true_iff in G
         end.
  repeat match goal with
         | G : Js.includes _ (String Js.LF EmptyString) = false |- _ => rewrite G; clear G
         end.
  reflexivity.
Qed.

(** A clock-out right after a clock-in, on a task without an open token:
    the new line is the one that is closed. *)
Lemma clockEnd_clockStart (lines : list string) (i : nat) (t0 t1 : string) :
  validStamp t0 = true -> (i < length lines)%nat ->
  hasOpenClock (drop (i + 1) lines) = false ->
  clockEnd (clockStart lines i t0) i t1
  = take (i + 1) lines ++ annotationRun (drop (i + 1) lines)
    ++ closedLine t0 t1
    :: drop (i + 1 + length (annotationRun (drop (i + 1) lines))) lines.
Proof.
  intros Hv Hi Hno. rewrite (clockStart_run lines i t0).
  set (run := annotationRun (drop (i + 1) lines)).
  set (rest := drop (i + 1 + length run) lines).
  assert (Hlen : length (take (i + 1) lines) = (i + 1)%nat)
    by (apply length_take_le; lia).
  assert (Hall : Forall (fun l => isClockLine l = true) run) by apply annotationRun_all.
  assert (Hnone : Forall (fun l => openClockTest l = false) run)
    by (now apply hasOpenClock_false).
  assert (Hrest : annotationRun rest = []).
  { unfold rest. rewrite <- drop_drop. apply annotationRun_drop. }
  unfold clockEnd. rewrite (drop_app_length' _ _ _ (eq_sym Hlen)).
  rewrite (lastOpenClockLine_app _ _ _ _ Hall Hnone).
  cbn [lastOpenClockLine].
  rewrite (isClockLine_openLine _ Hv), (openClockTest_openLine _ Hv).
  rewrite lastOpenClockLine_none by (rewrite Hrest; constructor).
  assert (Hlook : (take (i + 1) lines ++ run ++ openLine t0 :: rest)
                    !! (i + 1 + length run)%nat = Some (openLine t0)).
  { rewrite lookup_app_r by lia. rewrite Hlen.
    rewrite lookup_app_r by lia.
    replace (i + 1 + length run - (i + 1) - length run)%nat with 0%nat by lia.
    reflexivity. }
  rewrite Hlook.
  rewrite insert_app_r_alt by lia. rewrite Hlen.
  rewrite insert_app_r_alt by lia.
  replace (i + 1 + length run - (i + 1) - length run)%nat with 0%nat by lia.
  cbn [insert list_insert]. now rewrite (closeLastToken_openLine _ _ Hv).
Qed.

(** A full cycle on a task that is found in its file and not clocked
    in: the clock-in and the clock-out that follows it leave the file with
    one more line, the closed token with both timestamps, directly behind
    the annotation lines the task had; the task is not clocked in any
    more, and no other file is touched. *)
Theorem clock_in_then_out
    (vault : Vault) (task : KanbanTask) (content : string) (i : nat)
    (m0 m1 : Js.Moment) :
  vault !! sourcePath task = Some content ->
  Locator.findTaskInLines (Js.split content) (description task) (lineNumber task)
  = Z.of_nat i ->
  hasOpenClock (drop (i + 1) (Js.split content)) = false ->
  let t0 := Js.formatStamp m0 in
  let t1 := Js.formatStamp m1 in
  let afterIn := manageClockAction clockStartType t0 vault task in
  let afterOut := manageClockAction clockEndType t1 (fst afterIn) (snd afterIn) in
  let run := annotationRun (drop (i + 1) (Js.split content)) in
  fst afterOut !! sourcePath task
  = Some (Js.join (take (i + 1) (Js.split content) ++ run
                   ++ ("      [clock::" +:+ t0 +:+ "--" +:+ t1 +:+ "]")
                   :: drop (i + 1 + length run) (Js.split content)))
  /\ checkIfTaskIsClockedIn (fst afterOut) (snd afterOut) = false
  /\ (forall p, p <> sourcePath task -> fst afterOut !! p = vault !! p).
Proof.
  intros Hfile Hfound Hno. cbv zeta.
  pose proof (validStamp_formatStamp m0) as Hv0.
  pose proof (validStamp_formatStamp m1) as Hv1.
  set (t0 := Js.formatStamp m0) in *. set (t1 := Js.formatStamp m1) in *.
  assert (Hsj : Js.split (Js.join (clockStart (Js.split content) i t0))
                = clockStart (Js.split content) i t0)
    by (now apply split_join_clockStart).
  pose proof (split_no_line_feed content) as Hlf.
  set (lines := Js.split content) in *.
  pose proof (found_in_range _ _ _ _ Hfound) as Hi.
  assert (Hlen : length (take (i + 1) lines) = (i + 1)%nat)
    by (apply length_take_le; lia).
  rewrite (manageClockAction_found clockStartType t0 _ _ _ i Hfile Hfound).
  cbn [fst snd]. fold lines.
  assert (Hfound1 :
    Locator.findTaskInLines (clockStart lines i t0) (description task) (Z.of_nat i)
    = Z.of_nat i).
  { apply (findTaskInLines_stable lines _ _ (lineNumber task) i Hfound).
    - rewrite (clockStart_run lines i t0). rewrite lookup_app_l by lia.
      apply lookup_take_lt. lia.
    - rewrite (clockStart_run lines i t0), length_app. lia. }
  rewrite (manageClockAction_found clockEndType t1 _ _
             (Js.join (clockStart lines i t0)) i).
  2: { cbn [sourcePath setLineNumber]. apply lookup_insert_eq. }
  2: { cbn [description lineNumber setLineNumber]. rewrite Hsj. exact Hfound1. }
  cbn [fst snd sourcePath setLineNumber]. rewrite Hsj.
  rewrite (clockEnd_clockStart lines i t0 t1 Hv0 Hi Hno).
  assert (Hall : Forall (fun l => isClockLine l = true)
                   (annotationRun (drop (i + 1) lines))) by apply annotationRun_all.
  assert (Hnone : Forall (fun l => openClockTest l = false)
                    (annotationRun (drop (i + 1) lines)))
    by (now apply hasOpenClock_false).
  assert (Hrunlf : Forall noLineFeed (annotationRun (drop (i + 1) lines))).
  { pose proof (Forall_drop _ (i + 1) _ Hlf) as Hd.
    rewrite (annotationRun_split (drop (i + 1) lines)) in Hd.
    now apply Forall_app in Hd as [Hd _]. }
  assert (Hrest : annotationRun
                    (drop (i + 1 + length (annotationRun (drop (i + 1) lines))) lines)
                  = []).
  { rewrite <- drop_drop. apply annotationRun_drop. }
  set (run := annotationRun (drop (i + 1) lines)) in *.
  set (rest := drop (i + 1 + length run) lines) in *.
  change ("      [clock::" +:+ t0 +:+ "--" +:+ t1 +:+ "]") with (closedLine t0 t1).
  split; [apply lookup_insert_eq|]. split.
  - unfold checkIfTaskIsClockedIn. cbn [sourcePath lineNumber setLineNumber].
    rewrite lookup_insert_eq. rewrite split_join.
    + rewrite !length_app, Hlen. cbn [length].
      replace ((Z.of_nat i <? 0)%Z) with false by (symmetry; apply Z.ltb_ge; lia).
      replace ((Z.of_nat (i + 1 + (length run + S (length rest))) <=? Z.of_nat i)%Z)
        with false by (symmetry; apply Z.leb_gt; lia).
      cbn [orb]. rewrite Nat2Z.id.
      rewrite (drop_app_length' _ _ _ (eq_sym Hlen)).
      rewrite (hasOpenClock_app _ _ Hall Hnone).
      cbn [hasOpenClock]. rewrite (isClockLine_closedLine _ _ Hv0 Hv1).
      rewrite openClockTest_closedLine.
      * apply hasOpenClock_false. rewrite Hrest. constructor.
      * now apply validStamp_no_bracket.
      * apply formatStamp_no_open_bracket.
      * apply formatStamp_no_open_bracket.
    + intros Hnil. apply (f_equal length) in Hnil.
      rewrite !length_app in Hnil. cbn [length] in Hnil. lia.
    + apply Forall_app. split; [now apply Forall_take|].
      apply Forall_app. split; [exact Hrunlf|].
      constructor; [now apply closedLine_no_line_feed|].
      now apply Forall_drop.
  - intros p Hp. rewrite !lookup_insert_ne by congruence. reflexivity.
Qed.

Lemma clock_in_then_out_witness :
  let content :=
    Js.join ["# Today"; "- [/] Buy milk";
             "      [clock::2026-01-01T08:00:00--2026-01-01T09:00:00]";
             "- [ ] Other"]%string in
  let vault := Scenario.vaultWith content in
  let m0 := {| Js.year := 2026; Js.month := 1; Js.day := 1;
               Js.hour := 10; Js.minute := 0; Js.second := 0 |} in
  let m1 := {| Js.year := 2026; Js.month := 1; Js.day := 1;
               Js.hour := 11; Js.minute := 30; Js.second := 0 |} in
  let afterIn :=
    manageClockAction clockStartType (Js.formatStamp m0) vault Scenario.workingTask in
  let afterOut :=
    manageClockAction clockEndType (Js.formatStamp m1) (fst afterIn) (snd afterIn) in
  vault !! sourcePath Scenario.workingTask = Some content
  /\ Locator.findTaskInLines (Js.split content)
       (description Scenario.workingTask) (lineNumber Scenario.workingTask)
     = Z.of_nat 1
  /\ hasOpenClock (drop (1 + 1) (Js.split content)) = false
  /\ fst afterOut !! sourcePath Scenario.workingTask
     = Some (Js.join ["# Today"; "- [/] Buy milk";
                      "      [clock::2026-01-01T08:00:00--2026-01-01T09:00:00]";
                      "      [clock::2026-01-01T10:00:00--2026-01-01T11:30:00]";
                      "- [ ] Other"]%string)
  /\ checkIfTaskIsClockedIn (fst afterOut) (snd afterOut) = false.
Proof.
  cbv zeta.
  split; [reflexivity|]. split; [vm_compute; reflexivity|].
  split; [vm_compute; reflexivity|].
  pose proof (clock_in_then_out
                (Scenario.vaultWith
                   (Js.join ["# Today"; "- [/] Buy milk";
                             "      [clock::2026-01-01T08:00:00--2026-01-01T09:00:00]";
                             "- [ ] Other"]%string))
                Scenario.workingTask _ 1
                {| Js.year := 2026; Js.month := 1; Js.day := 1;
                   Js.hour := 10; Js.minute := 0; Js.second := 0 |}
                {| Js.year := 2026; Js.month := 1; Js.day := 1;
                   Js.hour := 11; Js.minute := 30; Js.second := 0 |}
                eq_refl ltac:(vm_compute; reflexivity) ltac:(vm_compute; reflexivity))
    as H.
  cbv zeta in H. destruct H as (Hfile & Hcheck & _).
  split; [|exact Hcheck]. rewrite Hfile. vm_compute. reflexivity.
Defined.

End ClockInFacts.

(** ** The rewrite of the status symbol *)

Section StatusSymbolFacts.

Import Annotator Plugin.

(** What a match of the status expression at the head of a text says. *)
Lemma matchStatusAt_text (s : string) (c : ascii) :
  matchStatusAt s = Some c
  <-> Ascii.eqb c closeBracket = false
      /\ exists after, s = "- [" +:+ String c (String closeBracket after).
Proof.
  unfold matchStatusAt. split.
  - destruct (Js.startsWith s "- [") eqn:Hp; [|discriminate].
    apply startsWith_split in Hp. cbn [String.length] in Hp.
    destruct (Js.substringFrom 3 s) as [|c0 [|d after]] eqn:E; try discriminate.
    destruct (Ascii.eqb c0 closeBracket) eqn:Hc; [discriminate|].
    destruct (Ascii.eqb_spec d closeBracket) as [-> | Hd]; [|discriminate].
    cbn [negb andb]. intros [= <-]. split; [exact Hc|]. now exists after.
  - intros [Hc [after ->]]. rewrite startsWith_app.
    change 3%nat with (String.length "- ["). rewrite substringFrom_app.
    rewrite Hc. unfold closeBracket. now rewrite Ascii.eqb_refl.
Qed.

(** The first match: where it starts, and that none starts before. *)
Lemma findStatus_sound (s : string) (pos k : nat) (c : ascii) :
  findStatus s pos = Some (k, c) ->
  exists before after,
    s = before +:+ "- [" +:+ String c (String closeBracket after)
    /\ k = (pos + String.length before)%nat
    /\ Ascii.eqb c closeBracket = false
    /\ forall j, (j < String.length before)%nat ->
                 matchStatusAt (Js.substringFrom j s) = None.
Proof.
  revert pos. induction s as [|a s IH]; intros pos; cbn [findStatus].
  - destruct (matchStatusAt EmptyString) eqn:E; [|discriminate].
    apply matchStatusAt_text in E as [_ [after E]]. discriminate.
  - destruct (matchStatusAt (String a s)) as [c0|] eqn:E.
    + intros [= <- <-]. apply matchStatusAt_text in E as [Hc [after E]].
      exists EmptyString, after. cbn [String.append String.length].
      split; [exact E|]. split; [lia|]. split; [exact Hc|]. intros j Hj. lia.
    + intros H. apply IH in H as (before & after & Hs & Hk & Hc & Hno).
      exists (String a before), after. cbn [String.append String.length].
      split; [now rewrite Hs|]. split; [lia|]. split; [exact Hc|].
      intros [|j] Hj; [exact E|]. cbn [Js.substringFrom]. apply Hno. lia.
Qed.

Lemma findStatus_none (s : string) (pos : nat) :
  findStatus s pos = None ->
  forall j, matchStatusAt (Js.substringFrom j s) = None.
Proof.
  revert pos. induction s as [|a s IH]; intros pos; cbn [findStatus].
  - destruct (matchStatusAt EmptyString) eqn:E; [discriminate|].
    intros _ [|j]; exact E.
  - destruct (matchStatusAt (String a s)) eqn:E; [discriminate|].
    intros H [|j]; [exact E|]. cbn [Js.substringFrom]. now apply (IH (S pos)).
Qed.

Lemma findStatus_complete (before rest : string) (pos : nat) (c : ascii) :
  matchStatusAt rest = Some c ->
  (forall j, (j < String.length before)%nat ->
             matchStatusAt (Js.substringFrom j (before +:+ rest)) = None) ->
  findStatus (before +:+ rest) pos = Some ((pos + String.length before)%nat, c).
Proof.
  revert pos. induction before as [|a before IH]; intros pos Hm Hno.
  - cbn [String.append String.length]. destruct rest as [|r0 rest].
    + apply matchStatusAt_text in Hm as [_ [after E]]. discriminate.
    + cbn [findStatus]. rewrite Hm. f_equal. f_equal. lia.
  - cbn [String.append String.length findStatus].
    pose proof (Hno 0%nat ltac:(cbn; lia)) as H0.
    cbn [Js.substringFrom String.append] in H0. rewrite H0.
    rewrite (IH (S pos) Hm).
    + f_equal. f_equal. lia.
    + intros j Hj. apply (Hno (S j)). cbn. lia.
Qed.

(** A replacement string without [$] is put in as it is. *)
Lemma expand_plain (repl matched group before after : string) :
  Js.includes repl "$" = false ->
  expand repl matched group before after = repl.
Proof.
  induction repl as [|c r IH]; intros H; [reflexivity|].
  apply includes_cons_false in H as [H1 H2]. rewrite startsWith_single in H1.
  cbn [expand]. rewrite Ascii.eqb_sym, H1. now rewrite (IH H2).
Qed.

(** The replacement [- [c]] for a single code unit [c]: a [$] would need a
    code unit of the symbol behind it to be a pattern, and there is none. *)
Lemma expand_single (c : ascii) (matched group before after : string) :
  expand ("- [" +:+ String c "]") matched group before after = "- [" +:+ String c "]".
Proof.
  cbn [String.append expand].
  change (Ascii.eqb "-" "$") with false. change (Ascii.eqb " " "$") with false.
  change (Ascii.eqb "[" "$") with false. change (Ascii.eqb "]" "$") with false.
  cbv iota.
  destruct (Ascii.eqb c "$"); [|reflexivity].
  change (Ascii.eqb "]" "&") with false. change (Ascii.eqb "]" "`") with false.
  change (Ascii.eqb "]" "'") with false. change (Ascii.eqb "]" "1") with false.
  change (Ascii.eqb "]" "0") with false. reflexivity.
Qed.


(** A match that starts before the marker does not depend on the symbol
    the marker holds: it would have to end on the [-] or the blank of the
    marker. *)
Lemma matchStatusAt_before_marker (b c s : ascii) (before after : string) :
  matchStatusAt (String b before +:+ "- [" +:+ String c (String closeBracket after))
  = None ->
  matchStatusAt (String b before +:+ "- [" +:+ String s (String closeBracket after))
  = None.
Proof.
  destruct before as [|b1 [|b2 [|b3 [|b4 before]]]]; intros H.
  - unfold matchStatusAt. cbn [String.append Js.startsWith].
    destruct (Ascii.eqb "-" b); reflexivity.
  - unfold matchStatusAt. cbn [String.append Js.startsWith].
    destruct (Ascii.eqb "-" b); [|reflexivity].
    destruct (Ascii.eqb " " b1); reflexivity.
  - unfold matchStatusAt. cbn [String.append Js.startsWith].
    destruct (Ascii.eqb "-" b); [|reflexivity].
    destruct (Ascii.eqb " " b1); [|reflexivity].
    destruct (Ascii.eqb "[" b2); [|reflexivity].
    cbn [Js.substringFrom]. destruct (Ascii.eqb "-" closeBracket) eqn:E; [discriminate|].
    now rewrite andb_false_r.
  - unfold matchStatusAt. cbn [String.append Js.startsWith].
    destruct (Ascii.eqb "-" b); [|reflexivity].
    destruct (Ascii.eqb " " b1); [|reflexivity].
    destruct (Ascii.eqb "[" b2); [|reflexivity].
    cbn [Js.substringFrom]. destruct (Ascii.eqb "-" closeBracket) eqn:E; [discriminate|].
    now rewrite andb_false_r.
  - exact H.
Qed.

Lemma no_match_before_marker (c s : ascii) (before after : string) :
  (forall j, (j < String.length before)%nat ->
     matchStatusAt (Js.substringFrom j
                      (before +:+ "- [" +:+ String c (String closeBracket after)))
     = None) ->
  forall j, (j < String.length before)%nat ->
    matchStatusAt (Js.substringFrom j
                     (before +:+ "- [" +:+ String s (String closeBracket after)))
    = None.
Proof.
  induction before as [|b before IH]; intros Hno j Hj; [cbn in Hj; lia|].
  destruct j as [|j].
  - cbn [Js.substringFrom]. apply (matchStatusAt_before_marker b c s).
    apply (Hno 0%nat). cbn. lia.
  - cbn [String.append Js.substringFrom]. apply IH.
    + intros j' Hj'. apply (Hno (S j')). cbn. lia.
    + cbn in Hj. lia.
Qed.

(** [replaceStatus] on a line with a marker, for a symbol that holds no
    [$]. *)
Lemma replaceStatus_marker (before after sym : string) (c : ascii) :
  Ascii.eqb c closeBracket = false ->
  (forall j, (j < String.length before)%nat ->
     matchStatusAt (Js.substringFrom j
                      (before +:+ "- [" +:+ String c (String closeBracket after)))
     = None) ->
  expand ("- [" +:+ sym +:+ "]") ("- [" +:+ String c "]") (String c EmptyString)
    before after = "- [" +:+ sym +:+ "]" ->
  replaceStatus (before +:+ "- [" +:+ String c (String closeBracket after)) sym
  = before +:+ "- [" +:+ sym +:+ "]" +:+ after.
Proof.
  intros Hc Hno Hexp. unfold replaceStatus.
  rewrite (findStatus_complete before _ 0 c).
  - cbn [Nat.add]. rewrite substringTo_app.
    replace (String.length before + 5)%nat
      with (String.length (before +:+ "- [" +:+ String c "]"))
      by (rewrite !length_append; cbn; lia).
    replace (before +:+ "- [" +:+ String c (String closeBracket after))
      with ((before +:+ "- [" +:+ String c "]") +:+ after)
      by (rewrite !append_assoc; reflexivity).
    rewrite substringFrom_app. rewrite Hexp. now rewrite !append_assoc.
  - apply matchStatusAt_text. split; [exact Hc|]. now exists after.
  - exact Hno.
Qed.


(** The rewrite of the status symbol touches the first marker of the line
    only: for a symbol without [$], a line without a marker [- [c]] is left
    as it is, and in a line with one the code unit [c] of the first
    marker is replaced by the symbol, while the text before and after that
    marker stays as it is. *)
Theorem replaceStatus_first_marker (line sym : string) :
  Js.includes sym "$" = false ->
  ((forall j, matchStatusAt (Js.substringFrom j line) = None)
   /\ replaceStatus line sym = line)
  \/ (exists (before after : string) (c : ascii),
        line = before +:+ "- [" +:+ String c "]" +:+ after
        /\ c <> "]"%char
        /\ (forall j, (j < String.length before)%nat ->
                      matchStatusAt (Js.substringFrom j line) = None)
        /\ replaceStatus line sym = before +:+ "- [" +:+ sym +:+ "]" +:+ after).
Proof.
  intros Hsym. destruct (findStatus line 0) as [[k c]|] eqn:E.
  - right. apply findStatus_sound in E as (before & after & Hl & _ & Hc & Hno).
    exists before, after, c. split; [exact Hl|].
    split; [now apply Ascii.eqb_neq in Hc|]. split; [exact Hno|].
    rewrite Hl in Hno |- *. apply (replaceStatus_marker _ _ _ _ Hc Hno).
    apply expand_plain.
    change ("- [" +:+ sym +:+ "]")
      with (String "-" (String " " (String "[" (sym +:+ "]")))).
    cbn [Js.includes Js.startsWith].
    change (Ascii.eqb "$" "-") with false. change (Ascii.eqb "$" " ") with false.
    change (Ascii.eqb "$" "[") with false. cbn [orb].
    rewrite includes_single_app, Hsym. reflexivity.
  - left. split; [now apply (findStatus_none line 0)|].
    unfold replaceStatus. now rewrite E.
Qed.

Lemma replaceStatus_first_marker_witness :
  Js.includes "/" "$" = false
  /\ (((forall j, matchStatusAt (Js.substringFrom j "  - [ ] Buy milk - [x] later") = None)
       /\ replaceStatus "  - [ ] Buy milk - [x] later" "/" = "  - [ ] Buy milk - [x] later")
      \/ (exists (before after : string) (c : ascii),
            "  - [ ] Buy milk - [x] later" = before +:+ "- [" +:+ String c "]" +:+ after
            /\ c <> "]"%char
            /\ (forall j, (j < String.length before)%nat ->
                  matchStatusAt (Js.substringFrom j "  - [ ] Buy milk - [x] later") = None)
            /\ replaceStatus "  - [ ] Buy milk - [x] later" "/"
               = before +:+ "- [" +:+ "/" +:+ "]" +:+ after)).
Proof.
  split; [reflexivity|]. now apply replaceStatus_first_marker.
Defined.

(** Putting another symbol in and the old one back restores the line:
    when the first marker of the line holds [c], rewriting the status to a
    single code unit [s] other than [']'] leaves the marker where it was,
    now holding [s], and rewriting it to [c] again gives the line it was
    before. *)
Theorem replaceStatus_round_trip (line : string) (i : nat) (c s : ascii) :
  findStatus line 0 = Some (i, c) ->
  s <> "]"%char ->
  findStatus (replaceStatus line (String s EmptyString)) 0 = Some (i, s)
  /\ replaceStatus (replaceStatus line (String s EmptyString)) (String c EmptyString)
     = line.
Proof.
  intros E Hs. apply Ascii.eqb_neq in Hs.
  apply findStatus_sound in E as (before & after & Hl & Hi & Hc & Hno).
  cbn [Nat.add] in Hi. subst i. rewrite Hl in Hno |- *.
  pose proof (no_match_before_marker c s before after Hno) as Hno'.
  rewrite (replaceStatus_marker _ _ _ _ Hc Hno) by apply expand_single.
  change (before +:+ "- [" +:+ String s EmptyString +:+ "]" +:+ after)
    with (before +:+ "- [" +:+ String s (String closeBracket after)).
  split.
  - rewrite (findStatus_complete before _ 0 s); [reflexivity| |exact Hno'].
    apply matchStatusAt_text. split; [exact Hs|]. now exists after.
  - now rewrite (replaceStatus_marker _ _ _ _ Hs Hno') by apply expand_single.
Qed.

Lemma replaceStatus_round_trip_witness :
  findStatus "  - [ ] Buy milk" 0 = Some (2%nat, " "%char)
  /\ "/"%char <> "]"%char
  /\ findStatus (replaceStatus "  - [ ] Buy milk" "/") 0 = Some (2%nat, "/"%char)
  /\ replaceStatus (replaceStatus "  - [ ] Buy milk" "/") " " = "  - [ ] Buy milk".
Proof.
  split; [reflexivity|]. split; [discriminate|].
  apply (replaceStatus_round_trip "  - [ ] Buy milk" 2 " " "/");
    [reflexivity | discriminate].
Defined.

End StatusSymbolFacts.

(** ** What a move writes and what it leaves alone *)

Section FrameFacts.

Import Plugin Effect.

Open Scope list_scope.

Lemma writesOnly_refl (path : string) (v : Vault) : writesOnly path v v.
Proof. now left. Qed.

Lemma writesOnly_trans (path : string) (v1 v2 v3 : Vault) :
  writesOnly path v1 v2 -> writesOnly path v2 v3 -> writesOnly path v1 v3.
Proof.
  intros [-> | (o1 & n1 & H1 & ->)] [-> | (o2 & n2 & H2 & ->)].
  - now left.
  - right. now exists o2, n2.
  - right. now exists o1, n1.
  - right. exists o1, n2. split; [exact H1|]. now rewrite insert_insert_eq.
Qed.

Lemma writesOnly_other (path p : string) (v v' : Vault) :
  writesOnly path v v' -> p <> path -> v' !! p = v !! p.
Proof.
  intros [-> | (o & n & H & ->)] Hp; [reflexivity|].
  now rewrite lookup_insert_ne by congruence.
Qed.

Lemma writesOnly_is_Some (path p : string) (v v' : Vault) :
  writesOnly path v v' -> is_Some (v' !! p) <-> is_Some (v !! p).
Proof.
  intros [-> | (o & n & H & ->)]; [reflexivity|].
  destruct (decide (p = path)) as [-> | Hp].
  - rewrite lookup_insert_eq, H. split; eauto.
  - now rewrite lookup_insert_ne by congruence.
Qed.

Lemma relocated_refl (t : KanbanTask) : relocated t t.
Proof. exists (lineNumber t). now destruct t. Qed.

Lemma relocated_trans (t1 t2 t3 : KanbanTask) :
  relocated t1 t2 -> relocated t2 t3 -> relocated t1 t3.
Proof. intros [n ->] [k ->]. now exists k. Qed.

Lemma manageClockAction_effect
    (type : ClockType) (timestamp : string) (v : Vault) (t : KanbanTask) :
  writesOnly (sourcePath t) v (fst (manageClockAction type timestamp v t))
  /\ relocated t (snd (manageClockAction type timestamp v t)).
Proof.
  unfold manageClockAction, manageClockLines.
  destruct (v !! sourcePath t) as [content|] eqn:E;
    [|split; [apply writesOnly_refl | apply relocated_refl]].
  destruct (_ =? -1)%Z; [split; [apply writesOnly_refl | apply relocated_refl]|].
  cbn [fst snd]. split; [|now eexists].
  right. eexists _, _. split; [exact E | reflexivity].
Qed.

Lemma updateStatusAction_effect
    (settings : ClockKanbanSettings) (column : string) (v : Vault) (t : KanbanTask) :
  writesOnly (sourcePath t) v (fst (updateStatusAction settings column v t))
  /\ relocated t (snd (updateStatusAction settings column v t)).
Proof.
  unfold updateStatusAction.
  destruct (v !! sourcePath t) as [content|] eqn:E;
    [|split; [apply writesOnly_refl | apply relocated_refl]].
  destruct (_ =? -1)%Z; [split; [apply writesOnly_refl | apply relocated_refl]|].
  destruct (Js.split content !! _); [|split; [apply writesOnly_refl | now eexists]].
  destruct (String.eqb _ _); [split; [apply writesOnly_refl | now eexists]|].
  cbn [fst snd]. split; [|now eexists].
  right. eexists _, _. split; [exact E | reflexivity].
Qed.

(** [handleTaskMove], step by step. *)
Lemma handleTaskMove_steps
    (settings : ClockKanbanSettings) (timestamp shown : string)
    (sourceColumn targetColumn : string) (w : World) :
  let path := sourcePath (task w) in
  let interval :=
    if leaving settings sourceColumn targetColumn then
      let r := manageClockAction clockEndType timestamp (vault w) (task w) in
      (fst r, setEndTime shown (setIsClockedIn false (snd r)),
       [(path, ClockProperty clockEndType)])
    else if entering settings sourceColumn targetColumn then
      let r := manageClockAction clockStartType timestamp (vault w) (task w) in
      (fst r, setStartTime shown (setIsClockedIn true (snd r)),
       [(path, ClockProperty clockStartType)])
    else (vault w, task w, []) in
  let r := updateStatusAction settings targetColumn interval.1.1
             (setColumn targetColumn interval.1.2) in
  snd (handleTaskMove settings timestamp shown sourceColumn targetColumn w)
  = {| vault := fst r; task := snd r;
       queued := queued w ++ interval.2 ++ [(path, StatusSymbol targetColumn)] |}.
Proof.
  cbv zeta. unfold leaving, entering, handleTaskMove, clockOut, clockIn,
    manageClockProperty, updateTaskStatus, queueFileAction, updateTask, whenA,
    bind, ret.
  destruct (String.eqb sourceColumn (clockColumn settings)) eqn:Hs,
           (String.eqb targetColumn (clockColumn settings)) eqn:Ht,
           (autoClockInOut settings) eqn:Ha; cbn [negb andb].
  all: try (destruct w as [v t q]; cbn [vault task queued fst snd];
            destruct (updateStatusAction settings targetColumn v (setColumn targetColumn t));
            cbn [fst snd]; now rewrite ?app_nil_l).
  - destruct (manageClockAction clockEndType timestamp (vault w) (task w))
      as [v1 t1] eqn:E1.
    pose proof (manageClockAction_effect clockEndType timestamp (vault w) (task w))
      as [_ [n Hn]]. rewrite E1 in Hn. cbn [snd] in Hn. subst t1.
    cbn [vault task queued fst snd sourcePath setLineNumber setEndTime
         setIsClockedIn setColumn].
    destruct (updateStatusAction _ _ _ _). cbn [fst snd]. now rewrite <- app_assoc.
  - destruct (manageClockAction clockStartType timestamp (vault w) (task w))
      as [v1 t1] eqn:E1.
    pose proof (manageClockAction_effect clockStartType timestamp (vault w) (task w))
      as [_ [n Hn]]. rewrite E1 in Hn. cbn [snd] in Hn. subst t1.
    cbn [vault task queued fst snd sourcePath setLineNumber setStartTime
         setIsClockedIn setColumn].
    destruct (updateStatusAction _ _ _ _). cbn [fst snd]. now rewrite <- app_assoc.
Qed.


(** A move writes at most the file of the task, and only if that file is
    there: every other file of the vault keeps its content, no file comes
    into being and none disappears; the task object keeps its identity,
    description and path. *)
Theorem handleTaskMove_writes_own_file
    (settings : ClockKanbanSettings) (timestamp shown : string)
    (sourceColumn targetColumn : string) (w : World) :
  let w' := snd (handleTaskMove settings timestamp shown sourceColumn targetColumn w) in
  (forall p, p <> sourcePath (task w) -> vault w' !! p = vault w !! p)
  /\ (forall p, is_Some (vault w' !! p) <-> is_Some (vault w !! p))
  /\ id (task w') = id (task w)
  /\ description (task w') = description (task w)
  /\ sourcePath (task w') = sourcePath (task w).
Proof.
  cbv zeta. rewrite handleTaskMove_steps. cbv zeta. cbn [vault task].
  set (path := sourcePath (task w)).
  assert (H : exists v1 t1 q1,
             (if leaving settings sourceColumn targetColumn then
                (fst (manageClockAction clockEndType timestamp (vault w) (task w)),
                 setEndTime shown
                   (setIsClockedIn false
                      (snd (manageClockAction clockEndType timestamp (vault w) (task w)))),
                 [(path, ClockProperty clockEndType)])
              else if entering settings sourceColumn targetColumn then
                (fst (manageClockAction clockStartType timestamp (vault w) (task w)),
                 setStartTime shown
                   (setIsClockedIn true
                      (snd (manageClockAction clockStartType timestamp (vault w) (task w)))),
                 [(path, ClockProperty clockStartType)])
              else (vault w, task w, [])) = (v1, t1, q1)
             /\ writesOnly path (vault w) v1
             /\ id t1 = id (task w) /\ description t1 = description (task w)
             /\ sourcePath t1 = path).
  { destruct (leaving settings sourceColumn targetColumn);
      [|destruct (entering settings sourceColumn targetColumn)].
    - destruct (manageClockAction_effect clockEndType timestamp (vault w) (task w))
        as [Hv [n Hn]].
      eexists _, _, _. split; [reflexivity|]. split; [exact Hv|].
      rewrite Hn. repeat split.
    - destruct (manageClockAction_effect clockStartType timestamp (vault w) (task w))
        as [Hv [n Hn]].
      eexists _, _, _. split; [reflexivity|]. split; [exact Hv|].
      rewrite Hn. repeat split.
    - eexists _, _, _. split; [reflexivity|]. split; [apply writesOnly_refl|].
      repeat split. }
  destruct H as (v1 & t1 & q1 & -> & Hv1 & Hid & Hdesc & Hpath). cbn [fst snd].
  destruct (updateStatusAction_effect settings targetColumn v1 (setColumn targetColumn t1))
    as [Hv2 [n Hn]].
  cbn [sourcePath setColumn] in Hv2. rewrite Hpath in Hv2.
  pose proof (writesOnly_trans _ _ _ _ Hv1 Hv2) as Hv.
  rewrite Hn. cbn [id description sourcePath setLineNumber setColumn].
  split; [intros p Hp; now apply (writesOnly_other path)|].
  split; [intros p; now apply (writesOnly_is_Some path)|].
  now repeat split.
Qed.

(** What a move does to the task object, whether or not anything could be
    written: the column is the target; on leaving the clock column (with
    automatic intervals on) [isClockedIn] is cleared and [endTime] set, on
    entering it [isClockedIn] is set and [startTime] set; on every other
    move the three fields stay as they are. *)
Theorem handleTaskMove_task_state
    (settings : ClockKanbanSettings) (timestamp shown : string)
    (sourceColumn targetColumn : string) (w : World) :
  let t' := task (snd (handleTaskMove settings timestamp shown
                         sourceColumn targetColumn w)) in
  let leaves :=
    String.eqb sourceColumn (clockColumn settings)
    && negb (String.eqb targetColumn (clockColumn settings))
    && autoClockInOut settings in
  let enters :=
    String.eqb targetColumn (clockColumn settings)
    && negb (String.eqb sourceColumn (clockColumn settings))
    && autoClockInOut settings in
  column t' = targetColumn
  /\ isClockedIn t'
     = (if leaves then false else if enters then true else isClockedIn (task w))
  /\ endTime t' = (if leaves then Some shown else endTime (task w))
  /\ startTime t' = (if enters then Some shown else startTime (task w))
  /\ (leaves && enters = false).
Proof.
  cbv zeta. rewrite handleTaskMove_steps. cbv zeta. cbn [vault task].
  fold (leaving settings sourceColumn targetColumn).
  fold (entering settings sourceColumn targetColumn).
  assert (Hex : leaving settings sourceColumn targetColumn
                && entering settings sourceColumn targetColumn = false).
  { unfold leaving, entering.
    destruct (String.eqb sourceColumn (clockColumn settings)),
             (String.eqb targetColumn (clockColumn settings)),
             (autoClockInOut settings); reflexivity. }
  destruct (leaving settings sourceColumn targetColumn) eqn:Hl;
    [|destruct (entering settings sourceColumn targetColumn) eqn:He].
  - cbn [andb] in Hex. rewrite Hex.
    destruct (manageClockAction_effect clockEndType timestamp (vault w) (task w))
      as [_ [n Hn]].
    cbn [fst snd]. rewrite Hn.
    match goal with
    | |- context [updateStatusAction ?s ?c ?v ?t] =>
        destruct (updateStatusAction_effect s c v t) as [_ [k Hk]]; rewrite Hk
    end.
    now repeat split.
  - destruct (manageClockAction_effect clockStartType timestamp (vault w) (task w))
      as [_ [n Hn]].
    cbn [fst snd]. rewrite Hn.
    match goal with
    | |- context [updateStatusAction ?s ?c ?v ?t] =>
        destruct (updateStatusAction_effect s c v t) as [_ [k Hk]]; rewrite Hk
    end.
    now repeat split.
  - cbn [fst snd].
    match goal with
    | |- context [updateStatusAction ?s ?c ?v ?t] =>
        destruct (updateStatusAction_effect s c v t) as [_ [k Hk]]; rewrite Hk
    end.
    now repeat split.
Qed.


(** With automatic intervals off, or on a move that neither enters nor
    leaves the clock column (a move between two other columns, or one
    that starts and ends in the clock column), [handleTaskMove] calls
    [queueFileAction] once, for the rewrite of the status symbol: the
    vault and the task object are what that one action leaves, so no
    clock line is written. *)
Theorem handleTaskMove_without_interval
    (settings : ClockKanbanSettings) (timestamp shown : string)
    (sourceColumn targetColumn : string) (w : World) :
  autoClockInOut settings = false
  \/ (sourceColumn = clockColumn settings <-> targetColumn = clockColumn settings) ->
  let w' := snd (handleTaskMove settings timestamp shown sourceColumn targetColumn w) in
  let r := updateStatusAction settings targetColumn (vault w)
             (setColumn targetColumn (task w)) in
  vault w' = fst r
  /\ task w' = snd r
  /\ queued w' = queued w ++ [(sourcePath (task w), StatusSymbol targetColumn)].
Proof.
  intros H. cbv zeta. rewrite handleTaskMove_steps. cbv zeta.
  assert (Hl : leaving settings sourceColumn targetColumn = false
               /\ entering settings sourceColumn targetColumn = false).
  { unfold leaving, entering. destruct H as [-> | H].
    - now rewrite !andb_false_r.
    - destruct (String.eqb_spec sourceColumn (clockColumn settings)) as [Hs | Hs],
               (String.eqb_spec targetColumn (clockColumn settings)) as [Ht | Ht];
        cbn [negb andb]; try (split; reflexivity); exfalso; tauto. }
  destruct Hl as [-> ->]. cbn [fst snd vault task queued app]. now repeat split.
Qed.

Lemma handleTaskMove_without_interval_witness :
  let w' := snd (handleTaskMove Scenario.settings "2026-01-01T10:00:00" "10:00"
                   "TODO" "Done" Scenario.world) in
  (autoClockInOut Scenario.settings = false
   \/ ("TODO" = clockColumn Scenario.settings <-> "Done" = clockColumn Scenario.settings))
  /\ vault w' !! "a.md"
     = Some (Js.join ["# Today"; "- [x] Buy milk"; "- [ ] Other"]%string)
  /\ queued w' = [("a.md"%string, StatusSymbol "Done")].
Proof.
  cbv zeta.
  assert (H : autoClockInOut Scenario.settings = false
              \/ ("TODO" = clockColumn Scenario.settings
                  <-> "Done" = clockColumn Scenario.settings)).
  { right. split; discriminate. }
  split; [exact H|].
  pose proof (handleTaskMove_without_interval Scenario.settings
                "2026-01-01T10:00:00" "10:00" "TODO" "Done" Scenario.world H) as Hm.
  cbv zeta in Hm. destruct Hm as (Hv & _ & Hq).
  split; [rewrite Hv; vm_compute; reflexivity | exact Hq].
Defined.

End FrameFacts.

(** ** Moving a task to another column and back *)

Section MoveAndBackFacts.

Import Annotator Spec Plugin Effect.

Open Scope list_scope.

Lemma includes_app_r (a b sub : string) :
  Js.includes b sub = true -> Js.includes (a +:+ b) sub = true.
Proof.
  intros H. induction a as [|c a IH]; [exact H|].
  cbn [String.append Js.includes]. rewrite IH. apply orb_true_r.
Qed.

Lemma includes_startsWith (s sub : string) :
  Js.startsWith s sub = true -> Js.includes s sub = true.
Proof. intros H. destruct s; cbn [Js.includes]; now rewrite H. Qed.

Lemma includes_here (a b rest : string) : Js.includes (a +:+ b +:+ rest) b = true.
Proof. apply includes_app_r, includes_startsWith, startsWith_app. Qed.

Lemma noLineFeed_app (a b : string) :
  noLineFeed (a +:+ b) <-> noLineFeed a /\ noLineFeed b.
Proof.
  unfold noLineFeed. rewrite includes_single_app. apply orb_false_iff.
Qed.

Lemma noLineFeed_cons (c : ascii) (s : string) :
  noLineFeed (String c s) <-> c <> Js.LF /\ noLineFeed s.
Proof.
  unfold noLineFeed. cbn [Js.includes]. rewrite startsWith_single.
  rewrite orb_false_iff, Ascii.eqb_sym, Ascii.eqb_neq. reflexivity.
Qed.

(** The action of [updateTaskStatus] on a task found at line [i]. *)
Lemma updateStatusAction_found
    (settings : ClockKanbanSettings) (column : string) (v : Vault) (t : KanbanTask)
    (content : string) (i : nat) (line : string) :
  v !! sourcePath t = Some content ->
  Locator.findTaskInLines (Js.split content) (description t) (lineNumber t)
  = Z.of_nat i ->
  Js.split content !! i = Some line ->
  updateStatusAction settings column v t
  = (<[sourcePath t :=
         Js.join (<[i := replaceStatus line
                           (Js.orElse
                              (match Ingestion.findByName (columns settings) column with
                               | Some colConfig => symbol colConfig
                               | None => EmptyString
                               end) " ")]> (Js.split content))]> v,
     setLineNumber (Z.of_nat i) t).
Proof.
  intros Hfile Hfound Hline. unfold updateStatusAction. rewrite Hfile, Hfound.
  replace (Z.of_nat i =? -1)%Z with false by (symmetry; apply Z.eqb_neq; lia).
  rewrite Nat2Z.id, Hline.
  destruct (String.eqb_spec
              (replaceStatus line
                 (Js.orElse
                    (match Ingestion.findByName (columns settings) column with
                     | Some colConfig => symbol colConfig
                     | None => EmptyString
                     end) " ")) line) as [-> | Hne]; [|reflexivity].
  rewrite (list_insert_id _ _ _ Hline), join_split.
  now rewrite (insert_id _ _ _ Hfile).
Qed.


Lemma no_interval
    (settings : ClockKanbanSettings) (columnA columnB : string) :
  autoClockInOut settings = false
  \/ (columnA <> clockColumn settings /\ columnB <> clockColumn settings) ->
  leaving settings columnA columnB = false /\ entering settings columnA columnB = false.
Proof.
  unfold leaving, entering. intros [-> | [Ha Hb]].
  - now rewrite !andb_false_r.
  - apply String.eqb_neq in Ha, Hb. now rewrite Ha, Hb.
Qed.

(** A move without an interval action, on a task found at line [i]. *)
Lemma handleTaskMove_status_only
    (settings : ClockKanbanSettings) (timestamp shown : string)
    (sourceColumn targetColumn : string) (w : World)
    (content : string) (i : nat) (line : string) :
  leaving settings sourceColumn targetColumn = false ->
  entering settings sourceColumn targetColumn = false ->
  vault w !! sourcePath (task w) = Some content ->
  Locator.findTaskInLines (Js.split content) (description (task w))
    (lineNumber (task w)) = Z.of_nat i ->
  Js.split content !! i = Some line ->
  snd (handleTaskMove settings timestamp shown sourceColumn targetColumn w)
  = {| vault :=
         <[sourcePath (task w) :=
             Js.join (<[i := replaceStatus line
                               (Js.orElse
                                  (match Ingestion.findByName (columns settings)
                                           targetColumn with
                                   | Some colConfig => symbol colConfig
                                   | None => EmptyString
                                   end) " ")]> (Js.split content))]> (vault w);
       task := setLineNumber (Z.of_nat i) (setColumn targetColumn (task w));
       queued := queued w ++ [(sourcePath (task w), StatusSymbol targetColumn)] |}.
Proof.
  intros Hl He Hfile Hfound Hline. rewrite handleTaskMove_steps. cbv zeta.
  rewrite Hl, He. cbn [fst snd app].
  now rewrite (updateStatusAction_found settings targetColumn _ _ content i line).
Qed.

(** Moving a task to another column and back restores the vault.  The
    moves do not enter or leave the clock column (or automatic intervals
    are off); the task is found in its file, on a line whose first marker
    holds the symbol [c] of the column the task comes from, with the
    description behind the marker; the symbol [s] of the other column is a
    single code unit, neither [']'] nor a line feed.  Then the first move
    puts [s] into the marker, and the move back leaves every file of the
    vault with the content it had before the first move. *)
Theorem move_and_back
    (settings : ClockKanbanSettings) (timestamp1 shown1 timestamp2 shown2 : string)
    (columnA columnB : string) (w : World)
    (content line : string) (i k : nat) (c s : ascii)
    (colA colB : KanbanColumnConfig) :
  autoClockInOut settings = false
  \/ (columnA <> clockColumn settings /\ columnB <> clockColumn settings) ->
  vault w !! sourcePath (task w) = Some content ->
  Locator.findTaskInLines (Js.split content) (description (task w))
    (lineNumber (task w)) = Z.of_nat i ->
  Js.split content !! i = Some line ->
  findStatus line 0 = Some (k, c) ->
  Js.includes (Js.substringFrom (k + 5) line) (description (task w)) = true ->
  Ingestion.findByName (columns settings) columnA = Some colA ->
  symbol colA = String c EmptyString ->
  Ingestion.findByName (columns settings) columnB = Some colB ->
  symbol colB = String s EmptyString ->
  s <> "]"%char -> s <> Js.LF ->
  let w1 := snd (handleTaskMove settings timestamp1 shown1 columnA columnB w) in
  let w2 := snd (handleTaskMove settings timestamp2 shown2 columnB columnA w1) in
  vault w1 !! sourcePath (task w)
  = Some (Js.join (<[i := Js.substringTo k line +:+ "- [" +:+ String s "]"
                          +:+ Js.substringFrom (k + 5) line]> (Js.split content)))
  /\ vault w2 = vault w
  /\ column (task w2) = columnA.
Proof.
  intros Hcols Hfile Hfound Hline Hstatus Hdesc HA HsymA HB HsymB Hs Hlf. cbv zeta.
  destruct (no_interval settings columnA columnB Hcols) as [Hl1 He1].
  assert (Hcols' : autoClockInOut settings = false
                   \/ (columnB <> clockColumn settings /\ columnA <> clockColumn settings))
    by tauto.
  destruct (no_interval settings columnB columnA Hcols') as [Hl2 He2].
  apply Ascii.eqb_neq in Hs.
  apply findStatus_sound in Hstatus as (before & after & Hl & Hk & Hc & Hno).
  cbn [Nat.add] in Hk. subst k.
  assert (Hafter : Js.substringFrom (String.length before + 5) line = after).
  { rewrite Hl.
    replace (String.length before + 5)%nat
      with (String.length (before +:+ "- [" +:+ String c "]"))
      by (rewrite !length_append; cbn; lia).
    replace (before +:+ "- [" +:+ String c (String closeBracket after))
      with ((before +:+ "- [" +:+ String c "]") +:+ after)
      by (rewrite !append_assoc; reflexivity).
    apply substringFrom_app. }
  assert (Hbefore : Js.substringTo (String.length before) line = before)
    by (rewrite Hl; apply substringTo_app).
  rewrite Hafter in Hdesc |- *. rewrite Hbefore.
  set (line' := before +:+ "- [" +:+ String s "]" +:+ after).
  assert (Hline' : replaceStatus line (String s EmptyString) = line').
  { rewrite Hl. rewrite Hl in Hno.
    now rewrite (replaceStatus_marker _ _ _ _ Hc Hno) by apply expand_single. }
  assert (Hback : replaceStatus line' (String c EmptyString) = line).
  { rewrite Hl in Hno. pose proof (no_match_before_marker c s before after Hno) as Hno'.
    unfold line'.
    change (before +:+ "- [" +:+ String s "]" +:+ after)
      with (before +:+ "- [" +:+ String s (String closeBracket after)).
    rewrite (replaceStatus_marker _ _ _ _ Hs Hno') by apply expand_single.
    now rewrite Hl. }
  pose proof (found_in_range _ _ _ _ Hfound) as Hi.
  set (lines := Js.split content) in *.
  set (lines' := <[i := line']> lines).
  assert (Hsplit : Js.split (Js.join lines') = lines').
  { apply split_join.
    - intros Hnil. apply (f_equal length) in Hnil. unfold lines' in Hnil.
      rewrite length_insert in Hnil. cbn in Hnil. lia.
    - apply Forall_insert; [apply split_no_line_feed|].
      pose proof (split_no_line_feed content) as Hall. fold lines in Hall.
      rewrite Forall_lookup in Hall. specialize (Hall i line Hline).
      rewrite Hl in Hall. unfold line'.
      apply noLineFeed_app in Hall as [Hb Hall].
      change ("- [" +:+ String c (String closeBracket after))
        with (String "-" (String " " (String "[" (String c (String "]" after))))) in Hall.
      rewrite !noLineFeed_cons in Hall.
      destruct Hall as (_ & _ & _ & _ & _ & Ha).
      apply noLineFeed_app. split; [exact Hb|].
      change ("- [" +:+ String s "]" +:+ after)
        with (String "-" (String " " (String "[" (String s (String "]" after))))).
      rewrite !noLineFeed_cons.
      repeat split; try (exact Ha || exact Hlf || (intros Habs; discriminate Habs)). }
  rewrite (handleTaskMove_status_only settings timestamp1 shown1 columnA columnB w
             content i line Hl1 He1 Hfile Hfound Hline).
  rewrite HB, HsymB.
  change (Js.orElse (String s EmptyString) " ") with (String s EmptyString).
  rewrite Hline'. fold lines lines'.
  cbn [vault task queued].
  split; [apply lookup_insert_eq|].
  rewrite (handleTaskMove_status_only settings timestamp2 shown2 columnB columnA _
             (Js.join lines') i line' Hl2 He2).
  - cbn [vault task column setLineNumber setColumn].
    rewrite HA, HsymA.
    change (Js.orElse (String c EmptyString) " ") with (String c EmptyString).
    rewrite Hsplit, Hback. split; [|reflexivity].
    unfold lines'. rewrite list_insert_insert_eq.
    rewrite (list_insert_id _ _ _ Hline).
    cbn [sourcePath setLineNumber setColumn].
    rewrite insert_insert_eq. unfold lines. rewrite join_split.
    now apply insert_id.
  - cbn [vault task sourcePath setLineNumber setColumn]. apply lookup_insert_eq.
  - cbn [vault task description lineNumber setLineNumber setColumn].
    rewrite Hsplit. apply findTaskInLines_hit. split.
    + unfold lines'. rewrite length_insert. lia.
    + rewrite Nat2Z.id. exists line'. split.
      * unfold lines'. now apply list_lookup_insert_eq.
      * unfold Locator.isTaskLine, line'. apply andb_true_intro. split.
        -- rewrite <- !append_assoc.
           replace (((before +:+ "- [") +:+ String s "]") +:+ after)
             with ((before +:+ "- [" +:+ String s "]") +:+ after)
             by (now rewrite !append_assoc).
           now apply includes_app_r.
        -- apply includes_here.
  - rewrite Hsplit. unfold lines'. now apply list_lookup_insert_eq.
Qed.


Lemma move_and_back_witness :
  let content := Js.join ["# Today"; "- [ ] Buy milk"; "- [ ] Other"]%string in
  let w := Scenario.world in
  let w1 := snd (handleTaskMove Scenario.settings "2026-01-01T10:00:00" "10:00"
                   "TODO" "Done" w) in
  let w2 := snd (handleTaskMove Scenario.settings "2026-01-01T10:05:00" "10:05"
                   "Done" "TODO" w1) in
  (autoClockInOut Scenario.settings = false
   \/ ("TODO"%string <> clockColumn Scenario.settings
       /\ "Done"%string <> clockColumn Scenario.settings))
  /\ vault w !! sourcePath (task w) = Some content
  /\ Locator.findTaskInLines (Js.split content) (description (task w))
       (lineNumber (task w)) = Z.of_nat 1
  /\ Js.split content !! 1%nat = Some "- [ ] Buy milk"%string
  /\ findStatus "- [ ] Buy milk" 0 = Some (0%nat, " "%char)
  /\ Js.includes (Js.substringFrom (0 + 5) "- [ ] Buy milk") (description (task w)) = true
  /\ Ingestion.findByName (columns Scenario.settings) "TODO" = Some Scenario.todoColumn
  /\ Ingestion.findByName (columns Scenario.settings) "Done" = Some Scenario.doneColumn
  /\ vault w1 !! sourcePath (task w)
     = Some (Js.join ["# Today"; "- [x] Buy milk"; "- [ ] Other"]%string)
  /\ vault w2 = vault w
  /\ column (task w2) = "TODO"%string.
Proof.
  cbv zeta.
  assert (H0 : autoClockInOut Scenario.settings = false
               \/ ("TODO"%string <> clockColumn Scenario.settings
                   /\ "Done"%string <> clockColumn Scenario.settings))
    by (right; split; discriminate).
  split; [exact H0|]. split; [reflexivity|]. split; [vm_compute; reflexivity|].
  split; [vm_compute; reflexivity|]. split; [reflexivity|].
  split; [vm_compute; reflexivity|]. split; [reflexivity|]. split; [reflexivity|].
  pose proof (move_and_back Scenario.settings
                "2026-01-01T10:00:00" "10:00" "2026-01-01T10:05:00" "10:05"
                "TODO" "Done" Scenario.world
                (Js.join ["# Today"; "- [ ] Buy milk"; "- [ ] Other"]%string)
                "- [ ] Buy milk" 1 0 " " "x" Scenario.todoColumn Scenario.doneColumn
                H0 eq_refl ltac:(vm_compute; reflexivity) ltac:(vm_compute; reflexivity)
                eq_refl ltac:(vm_compute; reflexivity) eq_refl eq_refl eq_refl eq_refl
                ltac:(discriminate) ltac:(discriminate)) as H.
  cbv zeta in H. destruct H as (H1 & H2 & H3).
  split; [rewrite H1; vm_compute; reflexivity|]. split; [exact H2 | exact H3].
Defined.

End MoveAndBackFacts.

(** ** Identity of the ingested tasks, the status table, the entries of the queue *)

Section IdentityFacts.

Import Ingestion.

Open Scope list_scope.

Lemma orElse_not_empty (a b : string) :
  b <> EmptyString -> Js.orElse a b <> EmptyString.
Proof.
  intros Hb. unfold Js.orElse.
  destruct (String.eqb_spec a EmptyString) as [-> | Ha]; assumption.
Qed.

Lemma append_not_empty_r (a b : string) :
  b <> EmptyString -> a +:+ b <> EmptyString.
Proof. intros Hb. destruct a; [exact Hb | discriminate]. Qed.

Lemma forceClockColumn_identity
    (settings : ClockKanbanSettings) (vault : Vault) (t : KanbanTask) :
  id (forceClockColumn settings vault t) = id t
  /\ description (forceClockColumn settings vault t) = description t
  /\ sourcePath (forceClockColumn settings vault t) = sourcePath t
  /\ lineNumber (forceClockColumn settings vault t) = lineNumber t.
Proof.
  unfold forceClockColumn. now destruct (checkIfTaskIsClockedIn vault t).
Qed.

(** Every task [loadTasks] returns has an id and a description that are
    not empty: a record without description and text is called
    [Untitled Task], and a record without id gets one made of its path
    and its line number or index.  So the locator is never asked for the
    empty description, which every task line contains. *)
Theorem loadTasks_never_anonymous
    (settings : ClockKanbanSettings) (windowStatus : string) (vault : Vault)
    (tasksPlugin : option (list RawTask)) (t : KanbanTask) :
  t ∈ loadTasks settings windowStatus vault tasksPlugin ->
  id t <> EmptyString /\ description t <> EmptyString.
Proof.
  unfold loadTasks. destruct tasksPlugin as [rawTasks|].
  - intros H. apply list_elem_of_In, in_map_iff in H as (t0 & <- & H).
    apply list_elem_of_In, parseTasks_elem in H as [(i & raw & _ & ->) _].
    destruct (forceClockColumn_identity settings vault
                (parseTask settings windowStatus i raw)) as (-> & -> & _).
    cbn [id description parseTask]. split.
    + apply orElse_not_empty, append_not_empty_r. discriminate.
    + apply orElse_not_empty, orElse_not_empty. discriminate.
  - intros H. inversion H.
Qed.

Lemma loadTasks_never_anonymous_witness :
  let t := forceClockColumn Scenario.settings (Scenario.vaultWith Scenario.plainDocument)
             (parseTask Scenario.settings "" 0
                {| raw_id := None; raw_path := Some "a.md"; raw_sourcePath := None;
                   raw_lineNumber := Some 1%Z; raw_description := None;
                   raw_text := None; raw_status := StatusObject (Some "/");
                   raw_priority := None; raw_tags := None; raw_dueDate := None;
                   raw_isClockedIn := false; raw_startTime := None;
                   raw_endTime := None |}) in
  t ∈ loadTasks Scenario.settings "" (Scenario.vaultWith Scenario.plainDocument)
        (Some [{| raw_id := None; raw_path := Some "a.md"; raw_sourcePath := None;
                  raw_lineNumber := Some 1%Z; raw_description := None;
                  raw_text := None; raw_status := StatusObject (Some "/");
                  raw_priority := None; raw_tags := None; raw_dueDate := None;
                  raw_isClockedIn := false; raw_startTime := None;
                  raw_endTime := None |}])
  /\ id t <> EmptyString /\ description t <> EmptyString.
Proof.
  cbv zeta.
  assert (H : forceClockColumn Scenario.settings (Scenario.vaultWith Scenario.plainDocument)
                (parseTask Scenario.settings "" 0
                   {| raw_id := None; raw_path := Some "a.md"; raw_sourcePath := None;
                      raw_lineNumber := Some 1%Z; raw_description := None;
                      raw_text := None; raw_status := StatusObject (Some "/");
                      raw_priority := None; raw_tags := None; raw_dueDate := None;
                      raw_isClockedIn := false; raw_startTime := None;
                      raw_endTime := None |})
              ∈ loadTasks Scenario.settings "" (Scenario.vaultWith Scenario.plainDocument)
                  (Some [{| raw_id := None; raw_path := Some "a.md";
                            raw_sourcePath := None;
                            raw_lineNumber := Some 1%Z; raw_description := None;
                            raw_text := None; raw_status := StatusObject (Some "/");
                            raw_priority := None; raw_tags := None; raw_dueDate := None;
                            raw_isClockedIn := false; raw_startTime := None;
                            raw_endTime := None |}])).
  { vm_compute. apply list_elem_of_here. }
  split; [exact H|]. exact (loadTasks_never_anonymous _ _ _ _ _ H).
Defined.

(** The id of a record without one is made of its path and its line
    number, and of its index in the list when the line number is missing
    or 0 (the first line of a file).  So ids are not unique: a record on
    line 0 at index [k] and a record of the same file on line [k], at
    any index, get the same id. *)
Theorem parseTask_id_collision
    (settings : ClockKanbanSettings) (windowStatus : string)
    (first other : RawTask) (k j : nat) :
  str (raw_id first) = EmptyString ->
  str (raw_id other) = EmptyString ->
  raw_path first = raw_path other ->
  raw_lineNumber first = None \/ raw_lineNumber first = Some 0%Z ->
  raw_lineNumber other = Some (Z.of_nat k) ->
  k <> 0%nat ->
  id (parseTask settings windowStatus k first)
  = template (raw_path first) +:+ "-" +:+ numberToString (Z.of_nat k)
  /\ id (parseTask settings windowStatus j other)
     = id (parseTask settings windowStatus k first).
Proof.
  intros E1 E2 Hpath Hline1 Hline2 Hk.
  cbn [id parseTask]. rewrite E1, E2, Hline2, <- Hpath.
  replace (Z.of_nat k =? 0)%Z with false by (symmetry; apply Z.eqb_neq; lia).
  destruct Hline1 as [-> | ->]; cbn [Z.eqb]; split; reflexivity.
Qed.

Lemma parseTask_id_collision_witness :
  str (raw_id (Records.onLine 0 "Buy milk")) = EmptyString
  /\ str (raw_id (Records.onLine 1 "Call Ann")) = EmptyString
  /\ raw_path (Records.onLine 0 "Buy milk") = raw_path (Records.onLine 1 "Call Ann")
  /\ (raw_lineNumber (Records.onLine 0 "Buy milk") = None
      \/ raw_lineNumber (Records.onLine 0 "Buy milk") = Some 0%Z)
  /\ raw_lineNumber (Records.onLine 1 "Call Ann") = Some (Z.of_nat 1)
  /\ 1%nat <> 0%nat
  /\ id <$> parseTasks Scenario.settings ""
              [Records.onLine 1 "Call Ann"; Records.onLine 0 "Buy milk"]
     = ["a.md-1"; "a.md-1"]%string
  /\ id (parseTask Scenario.settings "" 1 (Records.onLine 0 "Buy milk"))
     = template (raw_path (Records.onLine 0 "Buy milk")) +:+ "-"
       +:+ numberToString (Z.of_nat 1)
  /\ id (parseTask Scenario.settings "" 0 (Records.onLine 1 "Call Ann"))
     = id (parseTask Scenario.settings "" 1 (Records.onLine 0 "Buy milk")).
Proof.
  split; [reflexivity|]. split; [reflexivity|]. split; [reflexivity|].
  split; [now right|]. split; [reflexivity|]. split; [discriminate|].
  split; [vm_compute; reflexivity|].
  apply parseTask_id_collision; try reflexivity; [now right | discriminate].
Defined.

End IdentityFacts.

Section StatusTableFacts.

Import Ingestion.

Lemma upperChar_X (c : ascii) :
  Js.upperChar c = "X"%char <-> c = "x"%char \/ c = "X"%char.
Proof.
  destruct c as [[] [] [] [] [] [] [] []]; vm_compute;
    split; intros H; try discriminate; try (destruct H; discriminate);
    auto.
Qed.

Lemma upperChar_fixed (c k : ascii) :
  (nat_of_ascii k < 65 \/ 122 < nat_of_ascii k)%nat ->
  Js.upperChar c = k <-> c = k.
Proof.
  intros Hk. unfold Js.upperChar.
  destruct ((97 <=? nat_of_ascii c)%nat && (nat_of_ascii c <=? 122)%nat) eqn:E;
    [|reflexivity].
  apply andb_prop in E as [E1 E2]. apply Nat.leb_le in E1, E2. split.
  - intros <-. rewrite nat_ascii_embedding in Hk by lia. lia.
  - intros ->. lia.
Qed.

Lemma toUpperCase_X (s : string) :
  Js.toUpperCase s = "X" <-> s = "x" \/ s = "X".
Proof.
  destruct s as [|c [|d s]]; cbn [Js.toUpperCase Js.mapChars].
  - split; [discriminate | intros [H | H]; discriminate].
  - split.
    + intros [= H]. apply upperChar_X in H as [-> | ->]; auto.
    + intros [[= ->] | [= ->]]; reflexivity.
  - split; [discriminate | intros [H | H]; discriminate].
Qed.

Lemma toUpperCase_fixed (s : string) (k : ascii) :
  (nat_of_ascii k < 65 \/ 122 < nat_of_ascii k)%nat ->
  Js.toUpperCase s = String k EmptyString <-> s = String k EmptyString.
Proof.
  intros Hk. destruct s as [|c [|d s]]; cbn [Js.toUpperCase Js.mapChars].
  - reflexivity.
  - split.
    + intros [= H]. apply (upperChar_fixed c k Hk) in H. now subst.
    + intros [= ->]. f_equal. now apply upperChar_fixed.
  - split; discriminate.
Qed.

(** The table of [mapStatus], for the symbol it is given as a string:
    [done] exactly for [x] and [X], [cancelled] exactly for [-],
    [in_progress] exactly for [/] and for the symbol of the clock column,
    as long as that symbol is none of [x], [X] and [-], and [todo] for
    every other symbol. *)
Theorem mapStatus_table (settings : ClockKanbanSettings) (sym : string) :
  let clockSymbol :=
    exists c, findByName (columns settings) (clockColumn settings) = Some c
              /\ symbol c = sym in
  (mapStatus settings sym = done <-> sym = "x" \/ sym = "X")
  /\ (mapStatus settings sym = cancelled <-> sym = "-")
  /\ (mapStatus settings sym = in_progress
      <-> sym = "/" \/ (sym <> "x" /\ sym <> "X" /\ sym <> "-" /\ clockSymbol))
  /\ (mapStatus settings sym = todo
      <-> sym <> "x" /\ sym <> "X" /\ sym <> "-" /\ sym <> "/" /\ ~ clockSymbol).
Proof.
  cbv zeta. unfold mapStatus.
  pose proof (toUpperCase_X sym) as HX.
  pose proof (toUpperCase_fixed sym "/" ltac:(vm_compute; lia)) as HS.
  pose proof (toUpperCase_fixed sym "-" ltac:(vm_compute; lia)) as HD.
  destruct (String.eqb_spec (Js.toUpperCase sym) "X") as [EX | EX].
  { apply HX in EX. clear HX HS HD.
    repeat split; try intros ?; try discriminate; try tauto;
      repeat match goal with
             | G : _ /\ _ |- _ => destruct G
             | G : _ \/ _ |- _ => destruct G
             end; subst; try discriminate; try congruence; tauto. }
  assert (Hx : sym <> "x" /\ sym <> "X") by tauto. clear HX EX.
  destruct (String.eqb_spec (Js.toUpperCase sym) "/") as [ES | ES].
  { apply HS in ES. subst sym. clear HS HD.
    repeat split; try intros ?; try discriminate; try tauto;
      repeat match goal with
             | G : _ /\ _ |- _ => destruct G
             | G : _ \/ _ |- _ => destruct G
             end; try discriminate; try congruence; tauto. }
  assert (Hs : sym <> "/") by tauto. clear HS ES.
  destruct (String.eqb_spec (Js.toUpperCase sym) "-") as [ED | ED].
  { apply HD in ED. subst sym. clear HD.
    repeat split; try intros ?; try discriminate; try tauto;
      repeat match goal with
             | G : _ /\ _ |- _ => destruct G
             | G : _ \/ _ |- _ => destruct G
             end; try discriminate; try congruence; tauto. }
  assert (Hd : sym <> "-") by tauto. clear HD ED. destruct Hx as [Hx HX].
  destruct (findByName (columns settings) (clockColumn settings)) as [clockCol|] eqn:E.
  - destruct (String.eqb_spec sym (symbol clockCol)) as [Hc | Hc].
    + assert (Hclock : exists c, Some clockCol = Some c /\ symbol c = sym)
        by (now exists clockCol).
      repeat split; try intros ?; try discriminate; try tauto;
        repeat match goal with
               | G : _ /\ _ |- _ => destruct G
               | G : _ \/ _ |- _ => destruct G
               end; try discriminate; try congruence; tauto.
    + assert (Hclock : ~ exists c, Some clockCol = Some c /\ symbol c = sym).
      { intros (c & [= <-] & H). congruence. }
      repeat split; try intros ?; try discriminate; try tauto;
        repeat match goal with
               | G : _ /\ _ |- _ => destruct G
               | G : _ \/ _ |- _ => destruct G
               end; try discriminate; try congruence; tauto.
  - assert (Hclock : ~ exists c : KanbanColumnConfig, None = Some c /\ symbol c = sym).
    { intros (c & H & _). discriminate. }
    repeat split; try intros ?; try discriminate; try tauto;
      repeat match goal with
             | G : _ /\ _ |- _ => destruct G
             | G : _ \/ _ |- _ => destruct G
             end; try discriminate; try congruence; tauto.
Qed.

End StatusTableFacts.

Section QueueEntryFacts.

Import Queue QueueInv.

(** The map [modificationQueue] holds an entry for exactly the paths an
    action has been queued for: in no reachable state has an entry been
    removed, however many actions of the path have finished. *)
Theorem modificationQueue_entries (rt : Runtime) (path : string) :
  reachable rt ->
  is_Some (modificationQueue rt !! path) <-> path ∈ submitted rt.
Proof.
  intros Hrt. destruct (full_reachable rt Hrt) as [roles [HI _]].
  pose proof (inv_queue _ _ HI path) as Hq. unfold queueOk in Hq.
  destruct (modificationQueue rt !! path) as [p|].
  - destruct Hq as (b & _ & Hb & _). split; [|eauto].
    intros _. apply list_elem_of_lookup. now exists b.
  - split; [intros [x Hx]; discriminate|].
    intros H. apply list_elem_of_lookup in H as [c Hc]. now apply Hq in Hc.
Qed.

Lemma modificationQueue_entries_witness :
  let rt := snd (queueFileAction "b.md" (snd (queueFileAction "a.md" initial))) in
  reachable rt
  /\ (is_Some (modificationQueue rt !! "a.md") <-> "a.md"%string ∈ submitted rt).
Proof.
  cbv zeta.
  assert (H : reachable (snd (queueFileAction "b.md" (snd (queueFileAction "a.md" initial))))).
  { apply reachable_step with (snd (queueFileAction "a.md" initial));
      [apply reachable_step with initial; [apply reachable_initial|]|];
      apply step_queue. }
  split; [exact H|]. now apply modificationQueue_entries.
Defined.

End QueueEntryFacts.

(** ** The view: drag and drop and the commands *)

Section ViewFacts.

Import Annotator Spec Plugin Effect.

Open Scope list_scope.

Lemma truthy_Some (s : string) : s <> EmptyString -> View.truthy (Some s) = Some s.
Proof.
  intros H. unfold View.truthy. apply String.eqb_neq in H. now rewrite H.
Qed.

(** The first task with a given id is found again after the task object
    at its index has been changed without changing its id. *)
Lemma findById_insert (taskId : string) (ts : list KanbanTask) (k : nat)
    (t t' : KanbanTask) :
  View.findById taskId ts = Some (k, t) -> id t' = id t ->
  View.findById taskId (<[k := t']> ts) = Some (k, t').
Proof.
  unfold View.findById. intros H Hid.
  apply list_find_Some in H as (Hk & Ht & Hbefore).
  apply list_find_Some. split; [|split].
  - apply list_lookup_insert_eq. now apply lookup_lt_Some in Hk.
  - congruence.
  - intros j y Hj Hlt. rewrite list_lookup_insert_ne in Hj by lia.
    now apply (Hbefore j).
Qed.


(** A drop moves the first task of the list that has the id of the
    dragged task, from the column the dragged task was in when the drag
    started.  With the element of the task at index [j] dragged onto a
    column of another type, [handleTaskMove] runs on the task at the first
    index [k] whose task has the id of task [j]; the list changes at index
    [k] only.  When no two tasks of the list share an id, that is the
    dragged task itself. *)
Theorem drop_moves_first_task_with_id
    (settings : ClockKanbanSettings) (timestamp shown columnType : string)
    (s : View.State) (view : View.KanbanView) (j k : nat) (tj tk : KanbanTask) :
  View.kanbanView s = Some view ->
  View.tasks view !! j = Some tj ->
  id tj <> EmptyString -> column tj <> EmptyString -> column tj <> columnType ->
  View.tasks view !! k = Some tk -> id tk = id tj ->
  (forall k' t', (k' < k)%nat -> View.tasks view !! k' = Some t' -> id t' <> id tj) ->
  let s' := View.drop settings timestamp shown columnType (View.dragStart j s) in
  let w' := snd (handleTaskMove settings timestamp shown (column tj) columnType
                   {| vault := View.vault s; task := tk; queued := View.queued s |}) in
  View.vault s' = vault w'
  /\ View.queued s' = queued w'
  /\ View.tasks <$> View.kanbanView s' = Some (<[k := task w']> (View.tasks view))
  /\ (NoDup (id <$> View.tasks view) -> k = j /\ tk = tj).
Proof.
  intros Hview Hj Hid Hcol Hne Hk Hsame Hfirst. cbv zeta.
  assert (Hfind : View.findById (id tj) (View.tasks view) = Some (k, tk)).
  { apply list_find_Some. split; [exact Hk|]. split; [exact Hsame|].
    intros i y Hi Hlt. now apply (Hfirst i). }
  unfold View.dragStart. rewrite Hview, Hj.
  unfold View.drop. cbn [View.kanbanView View.draggedTaskId View.draggedSourceColumn
                         View.tasks View.vault View.queued].
  rewrite (truthy_Some _ Hid), (truthy_Some _ Hcol).
  apply String.eqb_neq in Hne. rewrite Hne, Hfind.
  unfold View.onTask. cbn [View.kanbanView View.tasks View.vault View.queued fmap
                           option_fmap option_map].
  split; [reflexivity|]. split; [reflexivity|]. split; [reflexivity|].
  intros Hnodup.
  assert (Hkj : k = j).
  { apply (NoDup_lookup (id <$> View.tasks view) k j (id tj) Hnodup).
    - rewrite list_lookup_fmap, Hk. cbn. now rewrite Hsame.
    - now rewrite list_lookup_fmap, Hj. }
  subst k. split; [reflexivity | congruence].
Qed.


Lemma drop_moves_first_task_with_id_witness :
  let s := Boards.twins in
  let view := {| View.tasks :=
                   Ingestion.parseTasks Scenario.settings ""
                     [Records.onLine 1 "Call Ann"; Records.onLine 0 "Buy milk"];
                 View.draggedTaskId := None;
                 View.draggedSourceColumn := None |} in
  let callAnn := Ingestion.parseTask Scenario.settings "" 0 (Records.onLine 1 "Call Ann") in
  let buyMilk := Ingestion.parseTask Scenario.settings "" 1 (Records.onLine 0 "Buy milk") in
  let s' := View.drop Scenario.settings "2026-01-01T10:00:00" "10:00" "Done"
              (View.dragStart 1 s) in
  View.kanbanView s = Some view
  /\ View.tasks view !! 1%nat = Some buyMilk
  /\ id buyMilk <> EmptyString /\ column buyMilk <> EmptyString
  /\ column buyMilk <> "Done"%string
  /\ View.tasks view !! 0%nat = Some callAnn /\ id callAnn = id buyMilk
  /\ (forall k' t', (k' < 0)%nat -> View.tasks view !! k' = Some t' ->
                    id t' <> id buyMilk)
  /\ View.vault s'
     = Scenario.vaultWith (Js.join ["- [ ] Buy milk"; "- [x] Call Ann"]%string)
  /\ (fun v => column <$> View.tasks v) <$> View.kanbanView s'
     = Some ["Done"; "TODO"]%string.
Proof.
  cbv zeta.
  split; [reflexivity|]. split; [vm_compute; reflexivity|].
  split; [vm_compute; discriminate|]. split; [vm_compute; discriminate|].
  split; [vm_compute; discriminate|]. split; [vm_compute; reflexivity|].
  split; [vm_compute; reflexivity|]. split; [intros k' t' Hk; lia|].
  pose proof (drop_moves_first_task_with_id Scenario.settings
                "2026-01-01T10:00:00" "10:00" "Done" Boards.twins
                {| View.tasks :=
                     Ingestion.parseTasks Scenario.settings ""
                       [Records.onLine 1 "Call Ann"; Records.onLine 0 "Buy milk"];
                   View.draggedTaskId := None;
                   View.draggedSourceColumn := None |}
                1 0
                (Ingestion.parseTask Scenario.settings "" 1 (Records.onLine 0 "Buy milk"))
                (Ingestion.parseTask Scenario.settings "" 0 (Records.onLine 1 "Call Ann"))
                eq_refl ltac:(vm_compute; reflexivity)
                ltac:(vm_compute; discriminate) ltac:(vm_compute; discriminate)
                ltac:(vm_compute; discriminate) ltac:(vm_compute; reflexivity)
                ltac:(vm_compute; reflexivity) ltac:(intros k' t' Hk; lia)) as H.
  cbv zeta in H. destruct H as (Hv & _ & Ht & _).
  split.
  - rewrite Hv. vm_compute. reflexivity.
  - destruct (View.kanbanView _) as [v'|]; [|discriminate].
    cbn [fmap option_fmap option_map] in Ht |- *. injection Ht as ->.
    vm_compute. reflexivity.
Defined.

(** Calling [moveTaskToColumn] again for the column the first call moved
    the task to finds the same task, in that column, and so never opens or
    closes an interval: the second call queues the rewrite of the status
    symbol and nothing else. *)
Theorem moveTaskToColumn_again
    (settings : ClockKanbanSettings)
    (timestamp1 shown1 timestamp2 shown2 taskId targetColumn : string)
    (s s1 : View.State) :
  View.moveTaskToColumn settings timestamp1 shown1 taskId targetColumn s = (true, s1) ->
  exists (view : View.KanbanView) (k : nat) (t : KanbanTask) (s2 : View.State),
    View.kanbanView s = Some view
    /\ View.findById taskId (View.tasks view) = Some (k, t)
    /\ View.moveTaskToColumn settings timestamp2 shown2 taskId targetColumn s1
       = (true, s2)
    /\ View.queued s2
       = View.queued s1 ++ [(sourcePath t, StatusSymbol targetColumn)].
Proof.
  unfold View.moveTaskToColumn at 1.
  destruct (View.kanbanView s) as [view|] eqn:Hview; [|discriminate].
  destruct (View.findById taskId (View.tasks view)) as [[k t]|] eqn:Hfind;
    [|discriminate].
  intros [= <-]. exists view, k, t.
  pose proof (handleTaskMove_steps settings timestamp1 shown1 (column t) targetColumn
                {| vault := View.vault s; task := t; queued := View.queued s |}) as H1.
  cbv zeta in H1. cbn [vault task queued] in H1.
  set (w1 := snd (handleTaskMove settings timestamp1 shown1 (column t) targetColumn
                    {| vault := View.vault s; task := t; queued := View.queued s |}))
    in *.
  assert (Ht1 : id (task w1) = id t /\ sourcePath (task w1) = sourcePath t
                /\ column (task w1) = targetColumn).
  { rewrite H1. cbn [task].
    match goal with
    | |- context [updateStatusAction ?st ?c ?v ?x] =>
        destruct (updateStatusAction_effect st c v x) as [_ [n Hn]]; rewrite Hn
    end.
    cbn [id sourcePath column setLineNumber].
    destruct (leaving settings (column t) targetColumn);
      [|destruct (entering settings (column t) targetColumn)]; cbn [fst snd].
    - destruct (manageClockAction_effect clockEndType timestamp1 (View.vault s) t)
        as [_ [m Hm]]. rewrite Hm. now repeat split.
    - destruct (manageClockAction_effect clockStartType timestamp1 (View.vault s) t)
        as [_ [m Hm]]. rewrite Hm. now repeat split.
    - now repeat split. }
  destruct Ht1 as (Hid & Hpath & Hcol).
  unfold View.moveTaskToColumn, View.onTask. fold w1.
  cbn [View.kanbanView View.tasks View.vault View.queued].
  rewrite (findById_insert taskId _ k t (task w1) Hfind Hid).
  eexists. split; [reflexivity|]. split; [exact Hfind|]. split; [reflexivity|].
  unfold View.onTask. cbn [View.queued View.vault View.tasks].
  rewrite handleTaskMove_steps. cbv zeta. cbn [vault task queued].
  rewrite Hcol, Hpath.
  assert (Hl : leaving settings targetColumn targetColumn = false
               /\ entering settings targetColumn targetColumn = false).
  { unfold leaving, entering.
    destruct (String.eqb targetColumn (clockColumn settings)); now cbn. }
  destruct Hl as [-> ->]. reflexivity.
Qed.


Lemma moveTaskToColumn_again_witness :
  let s1 := snd (View.moveTaskToColumn Scenario.settings "2026-01-01T10:00:00" "10:00"
                   "a.md-1" "Working" Boards.todo) in
  View.moveTaskToColumn Scenario.settings "2026-01-01T10:00:00" "10:00"
    "a.md-1" "Working" Boards.todo = (true, s1)
  /\ exists (view : View.KanbanView) (k : nat) (t : KanbanTask) (s2 : View.State),
       View.kanbanView Boards.todo = Some view
       /\ View.findById "a.md-1" (View.tasks view) = Some (k, t)
       /\ View.moveTaskToColumn Scenario.settings "2026-01-01T10:05:00" "10:05"
            "a.md-1" "Working" s1 = (true, s2)
       /\ View.queued s2
          = View.queued s1 ++ [(sourcePath t, StatusSymbol "Working")].
Proof.
  cbv zeta.
  assert (H : View.moveTaskToColumn Scenario.settings "2026-01-01T10:00:00" "10:00"
                "a.md-1" "Working" Boards.todo
              = (true,
                 snd (View.moveTaskToColumn Scenario.settings "2026-01-01T10:00:00"
                        "10:00" "a.md-1" "Working" Boards.todo)))
    by (vm_compute; reflexivity).
  split; [exact H|].
  exact (moveTaskToColumn_again Scenario.settings "2026-01-01T10:00:00" "10:00"
           "2026-01-01T10:05:00" "10:05" "a.md-1" "Working" Boards.todo _ H).
Defined.

Lemma firstWorking_insert (ts : list KanbanTask) (k : nat) (t t' : KanbanTask) :
  View.firstWorking ts = Some (k, t) -> column t' = column t ->
  View.firstWorking (<[k := t']> ts) = Some (k, t').
Proof.
  unfold View.firstWorking. intros H Hcol.
  apply list_find_Some in H as (Hk & Ht & Hbefore).
  apply list_find_Some. split; [|split].
  - apply list_lookup_insert_eq. now apply lookup_lt_Some in Hk.
  - congruence.
  - intros j y Hj Hlt. rewrite list_lookup_insert_ne in Hj by lia.
    now apply (Hbefore j).
Qed.

(** The second loop on a run whose last line has an open token. *)
Lemma lastOpenClockLine_ends_open
    (run rest : list string) (l : string) (k : nat) (acc : option nat) :
  Forall (fun l => isClockLine l = true) run ->
  isClockLine l = true -> openClockTest l = true ->
  annotationRun rest = [] ->
  lastOpenClockLine (run ++ l :: rest) k acc = Some (k + length run)%nat.
Proof.
  intros Hall Hl Ho Hrest. revert k acc.
  induction run as [|l0 run IH]; intros k acc.
  - cbn [app lastOpenClockLine length]. rewrite Hl, Ho.
    rewrite lastOpenClockLine_none by (rewrite Hrest; constructor).
    f_equal. lia.
  - apply Forall_cons in Hall as [H0 Hall].
    cbn [app lastOpenClockLine length]. rewrite H0, (IH Hall). f_equal. lia.
Qed.

(** The two edits on a document given by its parts: the lines up to the
    task line, the annotation run, and the lines behind it. *)
Lemma clockStart_shape (pre run rest : list string) (i : nat) (t : string) :
  length pre = (i + 1)%nat ->
  Forall (fun l => isClockLine l = true) run ->
  annotationRun rest = [] ->
  clockStart (pre ++ run ++ rest) i t = pre ++ run ++ openLine t :: rest.
Proof.
  intros Hpre Hall Hrest. rewrite (clockStart_run (pre ++ run ++ rest) i t).
  rewrite (drop_app_length' _ _ _ (eq_sym Hpre)).
  rewrite (annotationRun_app _ _ Hall), Hrest, app_nil_r.
  rewrite (take_app_length' _ _ _ (eq_sym Hpre)).
  replace (i + 1 + length run)%nat with (length (pre ++ run))
    by (rewrite length_app; lia).
  rewrite (app_assoc pre run rest), drop_app_length. reflexivity.
Qed.

Lemma clockEnd_shape (pre run rest : list string) (l : string) (i : nat) (t : string) :
  length pre = (i + 1)%nat ->
  Forall (fun l => isClockLine l = true) run ->
  isClockLine l = true -> openClockTest l = true ->
  annotationRun rest = [] ->
  clockEnd (pre ++ run ++ l :: rest) i t = pre ++ run ++ closeLastToken l t :: rest.
Proof.
  intros Hpre Hall Hl Ho Hrest. unfold clockEnd.
  rewrite (drop_app_length' _ _ _ (eq_sym Hpre)).
  rewrite (lastOpenClockLine_ends_open _ _ _ _ _ Hall Hl Ho Hrest).
  assert (Hlook : (pre ++ run ++ l :: rest) !! (i + 1 + length run)%nat = Some l).
  { rewrite lookup_app_r by lia. rewrite Hpre.
    rewrite lookup_app_r by lia.
    replace (i + 1 + length run - (i + 1) - length run)%nat with 0%nat by lia.
    reflexivity. }
  rewrite Hlook.
  rewrite insert_app_r_alt by lia. rewrite Hpre.
  rewrite insert_app_r_alt by lia.
  replace (i + 1 + length run - (i + 1) - length run)%nat with 0%nat by lia.
  reflexivity.
Qed.

(** An action of [manageClockProperty] on a file given by its lines. *)
Lemma manageClockAction_lines
    (type : ClockType) (timestamp : string) (v : Vault) (t : KanbanTask)
    (lines : list string) (i : nat) :
  v !! sourcePath t = Some (Js.join lines) ->
  lines <> [] -> Forall noLineFeed lines ->
  Locator.findTaskInLines lines (description t) (lineNumber t) = Z.of_nat i ->
  manageClockAction type timestamp v t
  = (<[sourcePath t :=
         Js.join (match type with
                  | clockStartType => clockStart lines i timestamp
                  | clockEndType => clockEnd lines i timestamp
                  end)]> v,
     setLineNumber (Z.of_nat i) t).
Proof.
  intros Hfile Hne Hlf Hfound.
  rewrite (manageClockAction_found type timestamp v t (Js.join lines) i Hfile);
    rewrite (split_join lines Hne Hlf); [reflexivity | exact Hfound].
Qed.

(** A manual clock-in or clock-out on the first task of the column
    [Working], found at line [i] of its file. *)
Lemma manual_step
    (settings : ClockKanbanSettings) (type : ClockType) (timestamp : string)
    (active : string) (s : View.State) (view : View.KanbanView)
    (k : nat) (t : KanbanTask) (lines : list string) (i : nat) :
  autoClockInOut settings = true ->
  View.kanbanView s = Some view ->
  View.firstWorking (View.tasks view) = Some (k, t) ->
  View.vault s !! sourcePath t = Some (Js.join lines) ->
  lines <> [] -> Forall noLineFeed lines ->
  Locator.findTaskInLines lines (description t) (lineNumber t) = Z.of_nat i ->
  match type with
  | clockStartType => View.manualClockIn settings timestamp (Some active) s
  | clockEndType => View.manualClockOut settings timestamp s
  end
  = {| View.vault :=
         <[sourcePath t :=
             Js.join (match type with
                      | clockStartType => clockStart lines i timestamp
                      | clockEndType => clockEnd lines i timestamp
                      end)]> (View.vault s);
       View.queued := View.queued s ++ [(sourcePath t, ClockProperty type)];
       View.kanbanView :=
         Some {| View.tasks := <[k := setLineNumber (Z.of_nat i) t]> (View.tasks view);
                 View.draggedTaskId := View.draggedTaskId view;
                 View.draggedSourceColumn := View.draggedSourceColumn view |} |}.
Proof.
  intros Hauto Hview Hfirst Hfile Hne Hlf Hfound.
  pose proof (manageClockAction_lines type timestamp _ _ _ _ Hfile Hne Hlf Hfound) as H.
  destruct type; unfold View.manualClockIn, View.manualClockOut;
    rewrite Hview, Hfirst; unfold View.onTask, clockIn, clockOut;
    rewrite Hauto; cbn [negb];
    unfold manageClockProperty, queueFileAction; cbn [vault task queued];
    rewrite H; reflexivity.
Qed.


(** The manual commands do not look at [isClockedIn], at the clock column
    of the settings or at the active file's name: they act on the first
    task of the list whose column is called [Working].  So two manual
    clock-ins in a row leave that task with two open tokens, and the manual
    clock-out that follows closes the later one only; the task objects of
    the list keep their columns and flags (the line number the locator
    found is all that is stored). *)
Theorem manual_clock_in_twice_then_out
    (settings : ClockKanbanSettings) (m0 m1 m2 : Js.Moment) (active1 active2 : string)
    (s : View.State) (view : View.KanbanView) (k : nat) (t : KanbanTask)
    (content : string) (i : nat) :
  autoClockInOut settings = true ->
  View.kanbanView s = Some view ->
  View.firstWorking (View.tasks view) = Some (k, t) ->
  View.vault s !! sourcePath t = Some content ->
  Locator.findTaskInLines (Js.split content) (description t) (lineNumber t)
  = Z.of_nat i ->
  let t0 := Js.formatStamp m0 in
  let t1 := Js.formatStamp m1 in
  let t2 := Js.formatStamp m2 in
  let s1 := View.manualClockIn settings t0 (Some active1) s in
  let s2 := View.manualClockIn settings t1 (Some active2) s1 in
  let s3 := View.manualClockOut settings t2 s2 in
  let lines := Js.split content in
  let run := annotationRun (drop (i + 1) lines) in
  View.vault s3 !! sourcePath t
  = Some (Js.join (take (i + 1) lines ++ run
                   ++ ("      [clock::" +:+ t0 +:+ "]")
                   :: ("      [clock::" +:+ t1 +:+ "--" +:+ t2 +:+ "]")
                   :: drop (i + 1 + length run) lines))
  /\ View.tasks <$> View.kanbanView s3
     = Some (<[k := setLineNumber (Z.of_nat i) t]> (View.tasks view))
  /\ View.queued s3
     = View.queued s
       ++ [(sourcePath t, ClockProperty clockStartType);
           (sourcePath t, ClockProperty clockStartType);
           (sourcePath t, ClockProperty clockEndType)].
Proof.
  intros Hauto Hview Hfirst Hfile Hfound. cbv zeta.
  pose proof (validStamp_formatStamp m0) as Hv0.
  pose proof (validStamp_formatStamp m1) as Hv1.
  set (t0 := Js.formatStamp m0) in *. set (t1 := Js.formatStamp m1) in *.
  set (t2 := Js.formatStamp m2).
  pose proof (split_no_line_feed content) as Hlf.
  pose proof (split_not_nil content) as Hne.
  rewrite <- (join_split content) in Hfile.
  set (lines := Js.split content) in *.
  pose proof (found_in_range _ _ _ _ Hfound) as Hi.
  set (pre := take (i + 1) lines).
  set (run := annotationRun (drop (i + 1) lines)).
  set (rest := drop (i + 1 + length run) lines).
  assert (Hpre : length pre = (i + 1)%nat) by (apply length_take_le; lia).
  assert (Hall : Forall (fun l => isClockLine l = true) run) by apply annotationRun_all.
  assert (Hrest : annotationRun rest = []).
  { unfold rest.
    replace (drop (i + 1 + length run) lines)
      with (drop (length run) (drop (i + 1) lines)) by apply drop_drop.
    apply annotationRun_drop. }
  assert (Hlines : lines = pre ++ run ++ rest).
  { unfold pre, rest.
    replace (drop (i + 1 + length run) lines)
      with (drop (length run) (drop (i + 1) lines)) by apply drop_drop.
    unfold run. rewrite <- (annotationRun_split (drop (i + 1) lines)).
    now rewrite take_drop. }
  assert (Hprelf : Forall noLineFeed pre) by (now apply Forall_take).
  assert (Hrunlf : Forall noLineFeed run).
  { pose proof (Forall_drop _ (i + 1) _ Hlf) as Hd.
    rewrite (annotationRun_split (drop (i + 1) lines)) in Hd.
    now apply Forall_app in Hd as [Hd _]. }
  assert (Hrestlf : Forall noLineFeed rest) by (now apply Forall_drop).
  assert (Hprei : forall more, (pre ++ more) !! i = lines !! i).
  { intros more. rewrite lookup_app_l by lia. apply lookup_take_lt. lia. }
  set (lines1 := pre ++ run ++ openLine t0 :: rest).
  set (lines2 := pre ++ (run ++ [openLine t0]) ++ openLine t1 :: rest).
  set (view' := {| View.tasks := <[k := setLineNumber (Z.of_nat i) t]> (View.tasks view);
                   View.draggedTaskId := View.draggedTaskId view;
                   View.draggedSourceColumn := View.draggedSourceColumn view |}).
  assert (Hfirst' : View.firstWorking (View.tasks view')
                    = Some (k, setLineNumber (Z.of_nat i) t))
    by (now apply (firstWorking_insert (View.tasks view) k t)).
  assert (Hview' : forall v q,
            {| View.vault := v; View.queued := q;
               View.kanbanView :=
                 Some {| View.tasks :=
                           <[k := setLineNumber (Z.of_nat i) (setLineNumber (Z.of_nat i) t)]>
                             (View.tasks view');
                         View.draggedTaskId := View.draggedTaskId view';
                         View.draggedSourceColumn := View.draggedSourceColumn view' |} |}
            = {| View.vault := v; View.queued := q; View.kanbanView := Some view' |}).
  { intros v q. unfold view'. cbn [View.tasks View.draggedTaskId View.draggedSourceColumn
                                   setLineNumber].
    now rewrite list_insert_insert_eq. }
  assert (Hall1 : Forall (fun l => isClockLine l = true) (run ++ [openLine t0])).
  { apply Forall_app. split; [exact Hall|].
    constructor; [now apply isClockLine_openLine | constructor]. }
  (* the first clock-in *)
  assert (E1 : View.manualClockIn settings t0 (Some active1) s
               = {| View.vault := <[sourcePath t := Js.join lines1]> (View.vault s);
                    View.queued :=
                      View.queued s ++ [(sourcePath t, ClockProperty clockStartType)];
                    View.kanbanView := Some view' |}).
  { pose proof (manual_step settings clockStartType t0 active1 s view k t lines i
                  Hauto Hview Hfirst Hfile Hne Hlf Hfound) as H1.
    cbv iota in H1. rewrite H1. unfold lines1.
    rewrite Hlines at 1. now rewrite (clockStart_shape _ _ _ _ t0 Hpre Hall Hrest). }
  assert (Hfound1 : Locator.findTaskInLines lines1 (description t) (Z.of_nat i)
                    = Z.of_nat i).
  { apply (findTaskInLines_stable lines _ _ (lineNumber t) i Hfound).
    - apply Hprei.
    - unfold lines1. rewrite length_app. lia. }
  assert (Hlf1 : Forall noLineFeed lines1).
  { apply Forall_app. split; [exact Hprelf|]. apply Forall_app. split; [exact Hrunlf|].
    constructor; [now apply openLine_no_line_feed | exact Hrestlf]. }
  assert (Hne1 : lines1 <> []).
  { intros Hnil. apply (f_equal length) in Hnil. unfold lines1 in Hnil.
    rewrite length_app in Hnil. cbn in Hnil. lia. }
  (* the second clock-in *)
  assert (E2 : View.manualClockIn settings t1 (Some active2)
                 {| View.vault := <[sourcePath t := Js.join lines1]> (View.vault s);
                    View.queued :=
                      View.queued s ++ [(sourcePath t, ClockProperty clockStartType)];
                    View.kanbanView := Some view' |}
               = {| View.vault := <[sourcePath t := Js.join lines2]> (View.vault s);
                    View.queued :=
                      View.queued s
                      ++ [(sourcePath t, ClockProperty clockStartType);
                          (sourcePath t, ClockProperty clockStartType)];
                    View.kanbanView := Some view' |}).
  { match goal with
    | |- View.manualClockIn settings t1 (Some active2) ?st = _ =>
        pose proof (manual_step settings clockStartType t1 active2 st view'
                      k (setLineNumber (Z.of_nat i) t) lines1 i Hauto eq_refl
                      Hfirst' (lookup_insert_eq _ _ _) Hne1 Hlf1 Hfound1) as H2
    end.
    cbv iota in H2. rewrite H2.
    cbn [View.vault View.queued sourcePath setLineNumber].
    rewrite Hview', insert_insert_eq, <- app_assoc. unfold lines1, lines2.
    replace (pre ++ run ++ openLine t0 :: rest)
      with (pre ++ (run ++ [openLine t0]) ++ rest)
      by (now rewrite <- (app_assoc run)).
    now rewrite (clockStart_shape _ _ _ _ t1 Hpre Hall1 Hrest). }
  assert (Hfound2 : Locator.findTaskInLines lines2 (description t) (Z.of_nat i)
                    = Z.of_nat i).
  { apply (findTaskInLines_stable lines _ _ (lineNumber t) i Hfound).
    - apply Hprei.
    - unfold lines2. rewrite length_app. lia. }
  assert (Hlf2 : Forall noLineFeed lines2).
  { apply Forall_app. split; [exact Hprelf|]. apply Forall_app. split.
    - apply Forall_app. split; [exact Hrunlf|].
      constructor; [now apply openLine_no_line_feed | constructor].
    - constructor; [now apply openLine_no_line_feed | exact Hrestlf]. }
  assert (Hne2 : lines2 <> []).
  { intros Hnil. apply (f_equal length) in Hnil. unfold lines2 in Hnil.
    rewrite length_app in Hnil. cbn in Hnil. lia. }
  (* the clock-out *)
  assert (E3 : View.manualClockOut settings t2
                 {| View.vault := <[sourcePath t := Js.join lines2]> (View.vault s);
                    View.queued :=
                      View.queued s
                      ++ [(sourcePath t, ClockProperty clockStartType);
                          (sourcePath t, ClockProperty clockStartType)];
                    View.kanbanView := Some view' |}
               = {| View.vault :=
                      <[sourcePath t :=
                          Js.join (pre ++ (run ++ [openLine t0])
                                   ++ closedLine t1 t2 :: rest)]> (View.vault s);
                    View.queued :=
                      View.queued s
                      ++ [(sourcePath t, ClockProperty clockStartType);
                          (sourcePath t, ClockProperty clockStartType);
                          (sourcePath t, ClockProperty clockEndType)];
                    View.kanbanView := Some view' |}).
  { match goal with
    | |- View.manualClockOut settings t2 ?st = _ =>
        pose proof (manual_step settings clockEndType t2 active1 st view'
                      k (setLineNumber (Z.of_nat i) t) lines2 i Hauto eq_refl
                      Hfirst' (lookup_insert_eq _ _ _) Hne2 Hlf2 Hfound2) as H3
    end.
    cbv iota in H3. rewrite H3.
    cbn [View.vault View.queued sourcePath setLineNumber].
    rewrite Hview', insert_insert_eq, <- app_assoc. unfold lines2.
    rewrite (clockEnd_shape _ _ _ _ _ t2 Hpre Hall1
               (isClockLine_openLine _ Hv1) (openClockTest_openLine _ Hv1) Hrest).
    now rewrite (closeLastToken_openLine _ _ Hv1). }
  rewrite E1, E2, E3.
  cbn [View.vault View.queued View.kanbanView fmap option_fmap option_map].
  split; [|split; reflexivity].
  rewrite lookup_insert_eq. do 2 f_equal. now rewrite <- (app_assoc run).
Qed.

Lemma manual_clock_in_twice_then_out_witness :
  let m0 := {| Js.year := 2026; Js.month := 1; Js.day := 1;
               Js.hour := 10; Js.minute := 0; Js.second := 0 |} in
  let m1 := {| Js.year := 2026; Js.month := 1; Js.day := 1;
               Js.hour := 10; Js.minute := 5; Js.second := 0 |} in
  let m2 := {| Js.year := 2026; Js.month := 1; Js.day := 1;
               Js.hour := 11; Js.minute := 30; Js.second := 0 |} in
  let s3 :=
    View.manualClockOut Scenario.settings (Js.formatStamp m2)
      (View.manualClockIn Scenario.settings (Js.formatStamp m1) (Some "b.md")
         (View.manualClockIn Scenario.settings (Js.formatStamp m0) (Some "a.md")
            Boards.working)) in
  autoClockInOut Scenario.settings = true
  /\ View.kanbanView Boards.working
     = Some {| View.tasks := [Scenario.workingTask];
               View.draggedTaskId := None; View.draggedSourceColumn := None |}
  /\ View.firstWorking [Scenario.workingTask] = Some (0%nat, Scenario.workingTask)
  /\ View.vault Boards.working !! sourcePath Scenario.workingTask
     = Some Scenario.plainDocument
  /\ Locator.findTaskInLines (Js.split Scenario.plainDocument)
       (description Scenario.workingTask) (lineNumber Scenario.workingTask)
     = Z.of_nat 1
  /\ View.vault s3 !! sourcePath Scenario.workingTask
     = Some (Js.join ["# Today"; "- [/] Buy milk";
                      "      [clock::2026-01-01T10:00:00]";
                      "      [clock::2026-01-01T10:05:00--2026-01-01T11:30:00]";
                      "- [ ] Other"]%string).
Proof.
  cbv zeta. split; [reflexivity|]. split; [reflexivity|].
  split; [vm_compute; reflexivity|]. split; [reflexivity|].
  split; [vm_compute; reflexivity|].
  pose proof (manual_clock_in_twice_then_out Scenario.settings
                {| Js.year := 2026; Js.month := 1; Js.day := 1;
                   Js.hour := 10; Js.minute := 0; Js.second := 0 |}
                {| Js.year := 2026; Js.month := 1; Js.day := 1;
                   Js.hour := 10; Js.minute := 5; Js.second := 0 |}
                {| Js.year := 2026; Js.month := 1; Js.day := 1;
                   Js.hour := 11; Js.minute := 30; Js.second := 0 |}
                "a.md" "b.md" Boards.working _ 0 Scenario.workingTask
                Scenario.plainDocument 1
                eq_refl eq_refl ltac:(vm_compute; reflexivity) eq_refl
                ltac:(vm_compute; reflexivity)) as H.
  cbv zeta in H. destruct H as (H & _). rewrite H. vm_compute. reflexivity.
Defined.

End ViewFacts.

(** ** Edge cases of the locator, the annotation run as an invariant, reloading *)

Section LocatorEdgeFacts.

Import Annotator Spec Plugin Effect Ingestion.

Open Scope list_scope.

(** When one line only contains the marker and the description, the
    locator returns it whatever line number it is given: a stale,
    negative or out-of-range hint does no harm. *)
Theorem findTaskInLines_unique
    (lines : list string) (description : string) (i : nat) (startIndex : Z) :
  matchesAt lines description i ->
  (forall j, matchesAt lines description j -> j = i) ->
  Locator.findTaskInLines lines description startIndex = Z.of_nat i.
Proof.
  intros Hi Huniq.
  destruct (hintHolds_dec description lines startIndex) as [Hh | Hh].
  - rewrite (findTaskInLines_hit _ _ _ Hh). destruct Hh as [Hb Hm].
    apply Huniq in Hm. lia.
  - rewrite (findTaskInLines_miss _ _ _ Hh).
    destruct (scanFrom_cases description lines 0) as [[_ Hnone] | (k & -> & Hk & _)].
    + exfalso. exact (Hnone i Hi).
    + apply Huniq in Hk. lia.
Qed.

Lemma findTaskInLines_unique_witness :
  matchesAt ["# Today"; "- [ ] Buy milk"; "- [ ] Other"]%string "Buy milk" 1
  /\ (forall j, matchesAt ["# Today"; "- [ ] Buy milk"; "- [ ] Other"]%string
                  "Buy milk" j -> j = 1%nat)
  /\ Locator.findTaskInLines ["# Today"; "- [ ] Buy milk"; "- [ ] Other"]%string
       "Buy milk" 7 = Z.of_nat 1.
Proof.
  assert (H1 : matchesAt ["# Today"; "- [ ] Buy milk"; "- [ ] Other"]%string "Buy milk" 1).
  { eexists. split; [reflexivity | vm_compute; reflexivity]. }
  assert (H2 : forall j, matchesAt ["# Today"; "- [ ] Buy milk"; "- [ ] Other"]%string
                           "Buy milk" j -> j = 1%nat).
  { intros [|[|[|j]]] (l & Hl & Hm); try reflexivity; cbn in Hl;
      try discriminate; injection Hl as <-; vm_compute in Hm; discriminate. }
  split; [exact H1|]. split; [exact H2|].
  now apply findTaskInLines_unique.
Defined.

Lemma findTaskInLines_no_match (lines : list string) (description : string) (hint : Z) :
  Forall (fun l => Locator.isTaskLine description l = false) lines ->
  Locator.findTaskInLines lines description hint = (-1)%Z.
Proof.
  intros Hnone.
  destruct (findTaskInLines_found description lines hint) as [Hr | [_ (l & Hl & Hm)]];
    [exact Hr|].
  rewrite Forall_lookup in Hnone. rewrite (Hnone _ _ Hl) in Hm. discriminate.
Qed.

(** A move of a task that cannot be found, because its file is not in
    the vault or because no line of the file holds both the marker and
    the description, writes nothing; the actions are queued all the same,
    and the task object gets the target column and the flags of the move
    as if the file had been edited. *)
Theorem handleTaskMove_task_not_found
    (settings : ClockKanbanSettings) (timestamp shown : string)
    (sourceColumn targetColumn : string) (w : World) :
  (forall content,
     vault w !! sourcePath (task w) = Some content ->
     Forall (fun l => Locator.isTaskLine (description (task w)) l = false)
            (Js.split content)) ->
  let w' := snd (handleTaskMove settings timestamp shown sourceColumn targetColumn w) in
  vault w' = vault w
  /\ task w'
     = setColumn targetColumn
         (if leaving settings sourceColumn targetColumn
          then setEndTime shown (setIsClockedIn false (task w))
          else if entering settings sourceColumn targetColumn
               then setStartTime shown (setIsClockedIn true (task w))
               else task w)
  /\ queued w'
     = queued w
       ++ (if leaving settings sourceColumn targetColumn
           then [(sourcePath (task w), ClockProperty clockEndType)]
           else if entering settings sourceColumn targetColumn
                then [(sourcePath (task w), ClockProperty clockStartType)]
                else [])
       ++ [(sourcePath (task w), StatusSymbol targetColumn)].
Proof.
  intros Hnone. cbv zeta. rewrite handleTaskMove_steps. cbv zeta.
  assert (Hclock : forall type,
             manageClockAction type timestamp (vault w) (task w) = (vault w, task w)).
  { intros type. unfold manageClockAction, manageClockLines.
    destruct (vault w !! sourcePath (task w)) as [content|] eqn:E; [|reflexivity].
    now rewrite (findTaskInLines_no_match _ _ _ (Hnone content eq_refl)). }
  assert (Hstatus : forall t,
             sourcePath t = sourcePath (task w) ->
             description t = description (task w) ->
             updateStatusAction settings targetColumn (vault w) t = (vault w, t)).
  { intros t Hp Hd. unfold updateStatusAction. rewrite Hp, Hd.
    destruct (vault w !! sourcePath (task w)) as [content|] eqn:E; [|reflexivity].
    now rewrite (findTaskInLines_no_match _ _ _ (Hnone content eq_refl)). }
  rewrite !Hclock. cbn [fst snd].
  destruct (leaving settings sourceColumn targetColumn);
    [|destruct (entering settings sourceColumn targetColumn)];
    cbn [fst snd]; rewrite Hstatus by reflexivity; cbn [fst snd vault task queued];
    now repeat split.
Qed.

Lemma handleTaskMove_task_not_found_witness :
  let w := {| vault := ∅; task := Scenario.workingTask; queued := [] |} in
  let w' := snd (handleTaskMove Scenario.settings "2026-01-01T10:00:00" "10:00"
                   "TODO" "Working" w) in
  (forall content,
     vault w !! sourcePath (task w) = Some content ->
     Forall (fun l => Locator.isTaskLine (description (task w)) l = false)
            (Js.split content))
  /\ vault w' = vault w
  /\ isClockedIn (task w') = true
  /\ queued w' = [("a.md"%string, ClockProperty clockStartType);
                  ("a.md"%string, StatusSymbol "Working")].
Proof.
  cbv zeta.
  assert (H : forall content,
             (∅ : Vault) !! sourcePath Scenario.workingTask = Some content ->
             Forall (fun l => Locator.isTaskLine (description Scenario.workingTask) l = false)
                    (Js.split content)).
  { intros content Hc. rewrite lookup_empty in Hc. discriminate. }
  split; [exact H|].
  pose proof (handleTaskMove_task_not_found Scenario.settings "2026-01-01T10:00:00"
                "10:00" "TODO" "Working"
                {| vault := ∅; task := Scenario.workingTask; queued := [] |} H) as Hm.
  cbv zeta in Hm. destruct Hm as (Hv & Ht & _).
  split; [exact Hv|]. split; [rewrite Ht; reflexivity|].
  vm_compute. reflexivity.
Defined.

End LocatorEdgeFacts.

Section RunInvariantFacts.

Import Annotator Spec.

Open Scope list_scope.

Lemma clockToken_length (s rest : string) :
  clockToken s = Some rest -> (String.length rest < String.length s)%nat.
Proof. intros H. now apply token_length, clockToken_matches. Qed.

Lemma skipSpaces_length (s : string) :
  (String.length (skipSpaces s) <= String.length s)%nat.
Proof. apply iter_space_length, skipSpaces_iter. Qed.

(** Fuel beyond the length of the text changes nothing. *)
Lemma clockTokens_fuel (fuel : nat) (s : string) :
  clockTokens fuel s = true ->
  forall fuel', (String.length s <= fuel')%nat -> clockTokens fuel' s = true.
Proof.
  revert s. induction fuel as [|fuel IH]; intros s H fuel' Hlen; [discriminate|].
  cbn [clockTokens] in H.
  destruct (clockToken s) as [rest|] eqn:E; [|discriminate].
  pose proof (clockToken_length _ _ E) as Hrest.
  destruct fuel' as [|fuel']; [lia|].
  cbn [clockTokens]. rewrite E.
  pose proof (skipSpaces_length rest) as Hskip.
  destruct (skipSpaces rest) as [|c r] eqn:Es; [reflexivity|].
  apply (IH _ H). lia.
Qed.

Lemma isClockLine_fuel (line : string) (fuel : nat) :
  clockTokens fuel (skipSpaces line) = true -> isClockLine line = true.
Proof.
  intros H. unfold isClockLine. apply (clockTokens_fuel fuel _ H).
  apply skipSpaces_length.
Qed.

Lemma afterBracket_split (s rest : string) :
  afterBracket s = Some rest ->
  exists body, s = body +:+ String closeBracket rest /\ Js.includes body "]" = false.
Proof.
  induction s as [|c s IH]; cbn [afterBracket]; [discriminate|].
  destruct (Ascii.eqb_spec c closeBracket) as [-> | Hc].
  - intros [= ->]. now exists EmptyString.
  - intros H. destruct (IH H) as (body & -> & Hb).
    exists (String c body). split; [reflexivity|].
    cbn [Js.includes]. rewrite startsWith_single, Hb.
    apply Ascii.eqb_neq in Hc. unfold closeBracket in Hc.
    now rewrite Ascii.eqb_sym, Hc.
Qed.

(** A token, as text. *)
Lemma clockToken_text (s rest : string) :
  clockToken s = Some rest ->
  exists body, s = "[clock::" +:+ body +:+ String closeBracket rest
               /\ body <> EmptyString /\ Js.includes body "]" = false.
Proof.
  unfold clockToken. destruct (Js.startsWith s "[clock::") eqn:Hp; [|discriminate].
  apply startsWith_split in Hp. cbn [String.length] in Hp.
  destruct (Js.substringFrom 8 s) as [|c s'] eqn:E; [discriminate|].
  destruct (Ascii.eqb c closeBracket) eqn:Hc; [discriminate|].
  intros H. destruct (afterBracket_split _ _ H) as (body & -> & Hb).
  exists (String c body). split; [exact Hp|]. split; [discriminate|].
  cbn [Js.includes]. rewrite startsWith_single, Hb.
  unfold closeBracket in Hc. now rewrite Ascii.eqb_sym, Hc.
Qed.

(** Where the first [']'] of a text is. *)
Lemma first_bracket (a r u v : string) :
  Js.includes a "]" = false ->
  a +:+ String closeBracket r = u +:+ String closeBracket v ->
  (u = a /\ v = r)
  \/ (exists u', u = a +:+ String closeBracket u' /\ r = u' +:+ String closeBracket v).
Proof.
  revert u. induction a as [|c a IH]; intros u Ha H.
  - destruct u as [|d u]; cbn [String.append] in H.
    + injection H as ->. now left.
    + injection H as <- ->. right. now exists u.
  - apply includes_cons_false in Ha as [Hc Ha]. rewrite startsWith_single in Hc.
    destruct u as [|d u]; cbn [String.append] in H.
    + injection H as -> _. unfold closeBracket in Hc.
      now rewrite Ascii.eqb_refl in Hc.
    + injection H as <- H. destruct (IH u Ha H) as [[-> ->] | (u' & -> & ->)].
      * now left.
      * right. now exists u'.
Qed.

Lemma skipSpaces_bracket (u v : string) :
  skipSpaces (u +:+ String closeBracket v) = skipSpaces u +:+ String closeBracket v.
Proof.
  induction u as [|c u IH]; [reflexivity|].
  cbn [String.append skipSpaces]. destruct (isSpace c); [exact IH | reflexivity].
Qed.

Lemma skipSpaces_app (u w : string) :
  skipSpaces u <> EmptyString -> skipSpaces (u +:+ w) = skipSpaces u +:+ w.
Proof.
  induction u as [|c u IH]; intros H; [now cbn in H|].
  cbn [String.append skipSpaces] in *. destruct (isSpace c); [now apply IH | reflexivity].
Qed.

Lemma clockTokens_bracket (fuel : nat) (v : string) :
  clockTokens fuel (String closeBracket v) = false.
Proof. destruct fuel; reflexivity. Qed.

(** Text without [']'] put in directly before a [']'] of a sequence of
    tokens lengthens the body of one token. *)
Lemma clockTokens_insert (fuel : nat) (u v x : string) :
  Js.includes x "]" = false ->
  clockTokens fuel (u +:+ String closeBracket v) = true ->
  exists fuel', clockTokens fuel' (u +:+ x +:+ String closeBracket v) = true.
Proof.
  intros Hx. revert u. induction fuel as [|fuel IH]; intros u H; [discriminate|].
  cbn [clockTokens] in H.
  destruct (clockToken (u +:+ String closeBracket v)) as [rest|] eqn:E; [|discriminate].
  destruct (clockToken_text _ _ E) as (body & Hs & Hne & Hb).
  assert (Ha : Js.includes ("[clock::" +:+ body) "]" = false).
  { rewrite includes_single_app, Hb. reflexivity. }
  rewrite <- append_assoc in Hs. symmetry in Hs.
  destruct (first_bracket _ _ _ _ Ha Hs) as [[Hu Hv] | (u' & Hu & Hr)];
    subst u; subst rest.
  - exists (S fuel). cbn [clockTokens].
    replace (("[clock::" +:+ body) +:+ x +:+ String closeBracket v)
      with ("[clock::" +:+ (body +:+ x) +:+ String closeBracket v)
      by (now rewrite !append_assoc).
    rewrite clockToken_body.
    + exact H.
    + destruct body; [congruence | discriminate].
    + rewrite includes_single_app, Hb, Hx. reflexivity.
  - rewrite skipSpaces_bracket in H.
    destruct (skipSpaces u') as [|c r] eqn:Eu.
    + cbn [String.append] in H. now rewrite clockTokens_bracket in H.
    + cbn [String.append] in H. cbv iota in H.
      change (String c (r +:+ String closeBracket v))
        with (String c r +:+ String closeBracket v) in H.
      destruct (IH _ H) as [fuel' Hf].
      exists (S fuel'). cbn [clockTokens].
      replace ((("[clock::" +:+ body) +:+ String closeBracket u') +:+ x
               +:+ String closeBracket v)
        with ("[clock::" +:+ body +:+ String closeBracket (u' +:+ x +:+ String closeBracket v))
        by (now rewrite !append_assoc).
      rewrite (clockToken_body _ _ Hne Hb).
      rewrite skipSpaces_app by (rewrite Eu; discriminate).
      rewrite Eu. cbn [String.append]. cbv iota.
      change (String c (r +:+ x +:+ String closeBracket v))
        with (String c r +:+ x +:+ String closeBracket v).
      exact Hf.
Qed.

Lemma isClockLine_insert (u v x : string) :
  Js.includes x "]" = false ->
  isClockLine (u +:+ String closeBracket v) = true ->
  isClockLine (u +:+ x +:+ String closeBracket v) = true.
Proof.
  intros Hx H. unfold isClockLine in H. rewrite skipSpaces_bracket in H.
  destruct (skipSpaces u) as [|c r] eqn:Eu.
  - cbn [String.append] in H. now rewrite clockTokens_bracket in H.
  - destruct (clockTokens_insert _ _ _ x Hx H) as [fuel' Hf].
    apply (isClockLine_fuel _ fuel').
    rewrite skipSpaces_app by (rewrite Eu; discriminate). now rewrite Eu.
Qed.

(** The rewrite of a clock-out keeps an annotation-only line one. *)
Lemma isClockLine_closeLastToken (line timestamp : string) :
  Js.includes timestamp "]" = false ->
  isClockLine line = true -> isClockLine (closeLastToken line timestamp) = true.
Proof.
  intros Ht Hl. destruct (openClockTest line) eqn:Ho.
  - destruct (closeLastToken_open line timestamp Ho)
      as (before & start & after & Hline & Hclose & _).
    rewrite Hclose. rewrite Hline in Hl.
    replace (before +:+ "[clock::" +:+ start +:+ "--" +:+ timestamp
             +:+ String closeBracket after)
      with ((before +:+ "[clock::" +:+ start) +:+ ("--" +:+ timestamp)
            +:+ String closeBracket after)
      by (now rewrite !append_assoc).
    apply isClockLine_insert.
    + change ("--" +:+ timestamp) with (String "-" (String "-" timestamp)).
      cbn [Js.includes]. rewrite !startsWith_single, Ht. reflexivity.
    + now rewrite !append_assoc.
  - now rewrite (closeLastToken_not_open _ _ Ho).
Qed.


(** The annotation run below a task line is kept by both edits of
    [manageClockProperty], for every timestamp the plugin writes: a
    clock-in lengthens the run by the new line and by nothing else; a
    clock-out leaves the run as long as it was and changes no line
    outside it.  So the tokens already written stay within reach of the
    next clock-in, clock-out and [checkIfTaskIsClockedIn]. *)
Theorem annotation_run_kept (lines : list string) (currentLine : nat) (m : Js.Moment) :
  let t := Js.formatStamp m in
  let run := annotationRun (drop (currentLine + 1) lines) in
  ((currentLine < length lines)%nat ->
   annotationRun (drop (currentLine + 1) (clockStart lines currentLine t))
   = run ++ ["      [clock::" +:+ t +:+ "]"])
  /\ length (annotationRun (drop (currentLine + 1) (clockEnd lines currentLine t)))
     = length run
  /\ (forall j, (j <= currentLine \/ currentLine + length run < j)%nat ->
                clockEnd lines currentLine t !! j = lines !! j).
Proof.
  cbv zeta. pose proof (validStamp_formatStamp m) as Hv.
  set (t := Js.formatStamp m) in *.
  set (run := annotationRun (drop (currentLine + 1) lines)).
  assert (Hall : Forall (fun l => isClockLine l = true) run) by apply annotationRun_all.
  assert (Hsplit : drop (currentLine + 1) lines
                   = run ++ drop (length run) (drop (currentLine + 1) lines))
    by apply annotationRun_split.
  assert (Hrest : annotationRun (drop (length run) (drop (currentLine + 1) lines)) = [])
    by apply annotationRun_drop.
  split; [|].
  - intros Hi. rewrite (clockStart_run lines currentLine t). fold run.
    rewrite drop_app_length' by (symmetry; apply length_take_le; lia).
    replace (run ++ openLine t :: drop (currentLine + 1 + length run) lines)
      with ((run ++ [openLine t]) ++ drop (currentLine + 1 + length run) lines)
      by (now rewrite <- app_assoc).
    rewrite annotationRun_app.
    + replace (drop (currentLine + 1 + length run) lines)
        with (drop (length run) (drop (currentLine + 1) lines)) by apply drop_drop.
      rewrite Hrest. now rewrite app_nil_r.
    + apply Forall_app. split; [exact Hall|].
      constructor; [now apply isClockLine_openLine | constructor].
  - destruct (Ingestion.hasOpenClock (drop (currentLine + 1) lines)) eqn:Ho.
    + destruct (clockEnd_on_open_run lines currentLine t Ho)
        as (j & l & Hrun & Hl & _ & _ & ->).
      fold run in Hrun.
      pose proof (lookup_lt_Some _ _ _ Hrun) as Hj.
      rewrite Forall_lookup in Hall. pose proof (Hall _ _ Hrun) as Hcl.
      split.
      * rewrite drop_insert_ge by lia.
        replace (currentLine + 1 + j - (currentLine + 1))%nat with j by lia.
        rewrite Hsplit. rewrite insert_app_l by lia.
        rewrite annotationRun_app.
        -- now rewrite Hrest, app_nil_r, length_insert.
        -- apply Forall_insert; [now apply Forall_lookup|].
           apply isClockLine_closeLastToken; [|exact Hcl].
           now apply validStamp_no_bracket.
      * intros k Hk. apply list_lookup_insert_ne. lia.
    + apply hasOpenClock_false in Ho. unfold clockEnd.
      rewrite (lastOpenClockLine_none _ _ _ Ho). now split.
Qed.

End RunInvariantFacts.

Section ReloadFacts.

Import Annotator Spec Plugin Ingestion.

Open Scope list_scope.

(** [checkIfTaskIsClockedIn] looks at the path and the line number of the
    task only. *)
Lemma checkIfTaskIsClockedIn_same (v : Vault) (t t' : KanbanTask) :
  sourcePath t' = sourcePath t -> lineNumber t' = lineNumber t ->
  checkIfTaskIsClockedIn v t' = checkIfTaskIsClockedIn v t.
Proof. intros Hp Hl. unfold checkIfTaskIsClockedIn. now rewrite Hp, Hl. Qed.

Lemma clocked_in_after_start
    (vault : Vault) (task : KanbanTask) (content : string) (i : nat) (t : string) :
  validStamp t = true ->
  vault !! sourcePath task = Some content ->
  Locator.findTaskInLines (Js.split content) (description task) (lineNumber task)
  = Z.of_nat i ->
  checkIfTaskIsClockedIn (fst (manageClockAction clockStartType t vault task))
    (setLineNumber (Z.of_nat i) task) = true.
Proof.
  intros Hv Hfile Hfound.
  pose proof (found_in_range _ _ _ _ Hfound) as Hlt.
  rewrite (manageClockAction_found clockStartType _ _ _ _ i Hfile Hfound).
  cbn [fst]. unfold checkIfTaskIsClockedIn.
  cbn [sourcePath lineNumber setLineNumber]. rewrite lookup_insert_eq.
  rewrite (split_join_clockStart _ _ _ Hv).
  assert (Hlen : length (clockStart (Js.split content) i t)
                 = S (length (Js.split content))).
  { unfold clockStart, splice. rewrite length_app. cbn [length].
    rewrite length_take, length_drop. lia. }
  rewrite Hlen.
  replace ((Z.of_nat i <? 0)%Z) with false by (symmetry; apply Z.ltb_ge; lia).
  replace ((Z.of_nat (S (length (Js.split content))) <=? Z.of_nat i)%Z) with false
    by (symmetry; apply Z.leb_gt; lia).
  cbn [orb]. rewrite Nat2Z.id. now apply hasOpenClock_clockStart.
Qed.

(** A clock-in shows after a reload.  When the action of a clock-in has
    found the task at line [i] of its file and the Tasks plugin then
    reports a record with that path and line number, [loadTasks] returns
    the task of that record in the clock column with [isClockedIn] set,
    whatever its status symbol says, provided the filter of [parseTasks]
    keeps it. *)
Theorem clock_in_survives_reload
    (settings : ClockKanbanSettings) (windowStatus : string)
    (vault : Vault) (task : KanbanTask) (content : string) (i : nat) (m : Js.Moment)
    (rawTasks : list RawTask) (index : nat) (raw : RawTask) :
  vault !! sourcePath task = Some content ->
  Locator.findTaskInLines (Js.split content) (description task) (lineNumber task)
  = Z.of_nat i ->
  rawTasks !! index = Some raw ->
  sourcePath (parseTask settings windowStatus index raw) = sourcePath task ->
  lineNumber (parseTask settings windowStatus index raw) = Z.of_nat i ->
  keepTask settings (parseTask settings windowStatus index raw) = true ->
  let vault' := fst (manageClockAction clockStartType (Js.formatStamp m) vault task) in
  exists t,
    t ∈ loadTasks settings windowStatus vault' (Some rawTasks)
    /\ id t = id (parseTask settings windowStatus index raw)
    /\ description t = description (parseTask settings windowStatus index raw)
    /\ column t = clockColumn settings
    /\ isClockedIn t = true.
Proof.
  intros Hfile Hfound Hraw Hpath Hline Hkeep. cbv zeta.
  set (loaded := parseTask settings windowStatus index raw) in *.
  set (vault' := fst (manageClockAction clockStartType (Js.formatStamp m) vault task)).
  assert (Hcheck : checkIfTaskIsClockedIn vault' loaded = true).
  { rewrite (checkIfTaskIsClockedIn_same vault' (setLineNumber (Z.of_nat i) task) loaded)
      by (cbn [sourcePath lineNumber setLineNumber]; assumption).
    apply (clocked_in_after_start vault task content i);
      [apply validStamp_formatStamp | exact Hfile | exact Hfound]. }
  exists (forceClockColumn settings vault' loaded). split.
  - unfold loadTasks. apply list_elem_of_In, in_map, list_elem_of_In.
    apply parseTasks_elem. split; [|exact Hkeep]. now exists index, raw.
  - unfold forceClockColumn. rewrite Hcheck. now repeat split.
Qed.

Lemma clock_in_survives_reload_witness :
  let m := {| Js.year := 2026; Js.month := 1; Js.day := 1;
              Js.hour := 10; Js.minute := 0; Js.second := 0 |} in
  let vault := Scenario.vaultWith Scenario.plainDocument in
  let vault' :=
    fst (manageClockAction clockStartType (Js.formatStamp m) vault Scenario.workingTask) in
  vault !! sourcePath Scenario.workingTask = Some Scenario.plainDocument
  /\ Locator.findTaskInLines (Js.split Scenario.plainDocument)
       (description Scenario.workingTask) (lineNumber Scenario.workingTask)
     = Z.of_nat 1
  /\ [Scenario.buyMilk " "] !! 0%nat = Some (Scenario.buyMilk " ")
  /\ sourcePath (parseTask Scenario.settings "" 0 (Scenario.buyMilk " "))
     = sourcePath Scenario.workingTask
  /\ lineNumber (parseTask Scenario.settings "" 0 (Scenario.buyMilk " ")) = Z.of_nat 1
  /\ keepTask Scenario.settings (parseTask Scenario.settings "" 0 (Scenario.buyMilk " "))
     = true
  /\ exists t,
       t ∈ loadTasks Scenario.settings "" vault' (Some [Scenario.buyMilk " "])
       /\ id t = id (parseTask Scenario.settings "" 0 (Scenario.buyMilk " "))
       /\ description t
          = description (parseTask Scenario.settings "" 0 (Scenario.buyMilk " "))
       /\ column t = clockColumn Scenario.settings
       /\ isClockedIn t = true.
Proof.
  cbv zeta. split; [reflexivity|]. split; [vm_compute; reflexivity|].
  split; [reflexivity|]. split; [reflexivity|]. split; [reflexivity|].
  split; [vm_compute; reflexivity|].
  apply (clock_in_survives_reload Scenario.settings "" _ _ Scenario.plainDocument 1);
    try reflexivity; vm_compute; reflexivity.
Defined.

End ReloadFacts.

(** ** The board and the settings tab *)

Section BoardFacts.

Import Ingestion Plugin Effect.

Open Scope list_scope.

Lemma find_elem (test : KanbanColumnConfig -> bool) (cols : list KanbanColumnConfig)
    (c : KanbanColumnConfig) :
  List.find test cols = Some c -> c ∈ cols.
Proof. intros H. apply find_some in H as [H _]. now apply list_elem_of_In. Qed.

(** The column of a symbol is the name of a configured column as soon as
    the first column has a name. *)
Lemma symbolToColumn_configured (cols : list KanbanColumnConfig) (sym : string) :
  (exists c0 rest, cols = c0 :: rest /\ name c0 <> EmptyString) ->
  exists c, c ∈ cols /\ symbolToColumn cols sym = name c.
Proof.
  intros (c0 & rest & -> & Hn). unfold symbolToColumn.
  destruct (findBySymbol (c0 :: rest) sym) as [c|] eqn:E.
  - exists c. split; [exact (find_elem _ _ _ E) | reflexivity].
  - assert (Hfirst : exists c, c ∈ c0 :: rest
                               /\ Js.orElse (name c0) "TODO" = name c).
    { exists c0. split; [apply list_elem_of_here|]. unfold Js.orElse.
      apply String.eqb_neq in Hn. now rewrite Hn. }
    destruct (isX sym); [|exact Hfirst].
    destruct (findDone (c0 :: rest)) as [d|] eqn:Ed; [|exact Hfirst].
    exists d. split; [exact (find_elem _ _ _ Ed) | reflexivity].
Qed.

Lemma loadTasks_column (settings : ClockKanbanSettings) (windowStatus : string)
    (vault : Vault) (rawTasks : list RawTask) (t : KanbanTask) :
  t ∈ loadTasks settings windowStatus vault (Some rawTasks) ->
  column t = clockColumn settings
  \/ exists sym, column t = symbolToColumn (columns settings) sym.
Proof.
  unfold loadTasks. intros H.
  apply list_elem_of_In, in_map_iff in H as (t0 & <- & H).
  apply list_elem_of_In, parseTasks_elem in H as [(i & raw & _ & ->) _].
  unfold forceClockColumn. destruct (checkIfTaskIsClockedIn _ _).
  - now left.
  - right. now eexists.
Qed.

(** With names that are unique, two columns of the list with the same
    name are the same column, at the same place. *)
Lemma same_name_same_index (cols : list KanbanColumnConfig) (k k' : nat)
    (c c' : KanbanColumnConfig) :
  NoDup (name <$> cols) ->
  cols !! k = Some c -> cols !! k' = Some c' -> name c = name c' -> k = k'.
Proof.
  intros Hnd Hk Hk' Hn.
  apply (NoDup_lookup (name <$> cols) k k' (name c) Hnd).
  - now rewrite list_lookup_fmap, Hk.
  - rewrite list_lookup_fmap, Hk'. cbn. now rewrite Hn.
Qed.

(** Every task [loadTasks] returns is shown in exactly one column of the
    board, the column that has the name the task holds in [column], as
    long as the settings are what the settings tab keeps them to be when
    no column is renamed or removed behind the back of the clock column:
    the type of every column is its name, the names are different from
    each other, the first column has a name, and the clock column is one
    of the columns. *)
Theorem loaded_task_shown_once
    (settings : ClockKanbanSettings) (windowStatus : string) (vault : Vault)
    (rawTasks : list RawTask) (t : KanbanTask) :
  (forall c, c ∈ columns settings -> colType c = name c) ->
  NoDup (name <$> columns settings) ->
  (exists c0 rest, columns settings = c0 :: rest /\ name c0 <> EmptyString) ->
  clockColumn settings ∈ name <$> columns settings ->
  t ∈ loadTasks settings windowStatus vault (Some rawTasks) ->
  exists (k : nat) (c : KanbanColumnConfig),
    columns settings !! k = Some c
    /\ column t = name c
    /\ forall k' c' shown,
         Render.render (columns settings)
           (loadTasks settings windowStatus vault (Some rawTasks)) !! k'
         = Some (c', shown) ->
         (t ∈ shown <-> k' = k).
Proof.
  intros Hsync Hnd Hfirst Hclock Ht.
  assert (Hcol : exists c, c ∈ columns settings /\ column t = name c).
  { destruct (loadTasks_column _ _ _ _ _ Ht) as [-> | [sym ->]].
    - apply list_elem_of_fmap in Hclock as (c & -> & Hc). now exists c.
    - destruct (symbolToColumn_configured (columns settings) sym Hfirst) as (c & Hc & ->).
      now exists c. }
  destruct Hcol as (c & Hc & Hname).
  apply list_elem_of_lookup in Hc as [k Hk].
  exists k, c. split; [exact Hk|]. split; [exact Hname|].
  intros k' c' shown Hshown. unfold Render.render in Hshown.
  rewrite list_lookup_fmap in Hshown.
  destruct (columns settings !! k') as [c''|] eqn:Hk'; [|discriminate].
  cbn in Hshown. injection Hshown as <- <-.
  unfold Render.columnTasks. rewrite list_elem_of_In, filter_In, <- list_elem_of_In.
  rewrite String.eqb_eq, (Hsync c'') by (apply list_elem_of_lookup; eauto).
  split.
  - intros [_ Heq]. symmetry. apply (same_name_same_index _ _ _ _ _ Hnd Hk Hk').
    congruence.
  - intros ->. split; [exact Ht|]. congruence.
Qed.

Lemma scenario_in_sync (c : KanbanColumnConfig) :
  c ∈ columns Scenario.settings -> colType c = name c.
Proof.
  intros Hc. cbn in Hc.
  repeat (apply elem_of_cons in Hc as [-> | Hc]; [reflexivity|]).
  now apply elem_of_nil in Hc.
Defined.

Lemma scenario_names : NoDup (name <$> columns Scenario.settings).
Proof.
  cbn. apply NoDup_ListNoDup. repeat constructor; cbn; intuition discriminate.
Defined.

Lemma loaded_task_shown_once_witness :
  let vault := Scenario.vaultWith Scenario.clockedDocument in
  let t := forceClockColumn Scenario.settings vault
             (parseTask Scenario.settings "" 0 (Scenario.buyMilk " ")) in
  let tasks := loadTasks Scenario.settings "" vault (Some [Scenario.buyMilk " "]) in
  t ∈ tasks
  /\ exists (k : nat) (c : KanbanColumnConfig),
       columns Scenario.settings !! k = Some c
       /\ column t = name c
       /\ forall k' c' shown,
            Render.render (columns Scenario.settings) tasks !! k' = Some (c', shown) ->
            (t ∈ shown <-> k' = k).
Proof.
  cbv zeta.
  assert (Ht : forceClockColumn Scenario.settings
                 (Scenario.vaultWith Scenario.clockedDocument)
                 (parseTask Scenario.settings "" 0 (Scenario.buyMilk " "))
               ∈ loadTasks Scenario.settings ""
                   (Scenario.vaultWith Scenario.clockedDocument)
                   (Some [Scenario.buyMilk " "])).
  { apply list_elem_of_In. vm_compute. left. reflexivity. }
  split; [exact Ht|].
  apply (loaded_task_shown_once Scenario.settings "" _ [Scenario.buyMilk " "]).
  - exact scenario_in_sync.
  - exact scenario_names.
  - eexists _, _. split; [reflexivity | discriminate].
  - apply list_elem_of_In. vm_compute. tauto.
  - exact Ht.
Defined.

(** *** The settings tab *)

Lemma handle_keeps_type_in_sync (e : SettingsTab.Event) (s : ClockKanbanSettings) :
  (forall c, c ∈ columns s -> colType c = name c) ->
  forall c, c ∈ columns (SettingsTab.handle e s) -> colType c = name c.
Proof.
  intros H.
  destruct e as [index val | index val | index val | index | | value];
    cbn [SettingsTab.handle SettingsTab.onNameChange SettingsTab.onColorChange
         SettingsTab.onSymbolChange SettingsTab.onRemove SettingsTab.onAdd
         SettingsTab.onClockColumnChange SettingsTab.setColumns columns];
    intros c Hc.
  1-3: apply list_elem_of_lookup in Hc as [k Hk];
       destruct (decide (k = index)) as [-> | Hne];
       [ rewrite list_lookup_alter_eq in Hk;
         destruct (columns s !! index) as [c0|] eqn:E; cbn in Hk; [|discriminate];
         injection Hk as <-; cbn;
         try reflexivity; apply H; apply list_elem_of_lookup; eauto
       | rewrite list_lookup_alter_ne in Hk by congruence;
         apply H; apply list_elem_of_lookup; eauto ].
  - apply H. apply list_elem_of_lookup in Hc as [k Hk].
    destruct (decide (k < index)%nat).
    + rewrite list_lookup_delete_lt in Hk by lia. apply list_elem_of_lookup; eauto.
    + rewrite list_lookup_delete_ge in Hk by lia. apply list_elem_of_lookup; eauto.
  - apply elem_of_app in Hc as [Hc | Hc]; [now apply H|].
    apply list_elem_of_singleton in Hc as ->. reflexivity.
  - now apply H.
Qed.

(** Whatever the user does in the settings tab, and in whatever order,
    the type of every column stays the same string as its name once it
    is so: the board, which looks tasks up by type, and the loader, which
    gives them the name, keep speaking of the same strings. *)
Theorem settings_tab_keeps_type_in_sync
    (events : list SettingsTab.Event) (s : ClockKanbanSettings) :
  (forall c, c ∈ columns s -> colType c = name c) ->
  forall c, c ∈ columns (SettingsTab.run events s) -> colType c = name c.
Proof.
  revert s. induction events as [|e events IH]; intros s H; [exact H|].
  cbn [SettingsTab.run fold_left]. apply IH. now apply handle_keeps_type_in_sync.
Qed.

Lemma settings_tab_keeps_type_in_sync_witness :
  Forall (fun c => colType c = name c)
    (columns (SettingsTab.run
                [SettingsTab.Add; SettingsTab.NameChange 3 "Review";
                 SettingsTab.Remove 0; SettingsTab.SymbolChange 0 "w"]
                Scenario.settings)).
Proof.
  apply Forall_forall.
  apply (settings_tab_keeps_type_in_sync _ Scenario.settings).
  exact scenario_in_sync.
Defined.

(** After the column that is the clock column got another name, the
    setting [clockColumn] still holds the old one, which is the type of
    no column any more. *)
Lemma renamed_clock_column_dangles
    (s : ClockKanbanSettings) (index : nat) (col : KanbanColumnConfig) (val : string) :
  (forall c, c ∈ columns s -> colType c = name c) ->
  NoDup (name <$> columns s) ->
  columns s !! index = Some col ->
  name col = clockColumn s ->
  val <> clockColumn s ->
  let s' := SettingsTab.onNameChange index val s in
  clockColumn s' = clockColumn s
  /\ forall c', c' ∈ columns s' -> colType c' <> clockColumn s.
Proof.
  intros Hsync Hnd Hk Hclock Hval. cbv zeta. split; [reflexivity|].
  cbn [SettingsTab.onNameChange SettingsTab.setColumns columns].
  intros c' Hc'. apply list_elem_of_lookup in Hc' as [k Hc'].
  destruct (decide (k = index)) as [-> | Hne].
  - rewrite list_lookup_alter_eq, Hk in Hc'. cbn in Hc'. injection Hc' as <-. exact Hval.
  - rewrite list_lookup_alter_ne in Hc' by congruence.
    rewrite (Hsync c') by (apply list_elem_of_lookup; eauto).
    intros Heq. apply Hne.
    apply (same_name_same_index _ _ _ _ _ Hnd Hc' Hk). congruence.
Qed.

(** Giving the clock column another name in the settings tab hides the
    tasks that are clocked in.  The setting [clockColumn] keeps the old
    name, [loadTasks] still gives a task with an open clock line that old
    name as its column, and the board, drawn from the new columns, shows
    such a task in none of them. *)
Theorem renamed_clock_column_hides_clocked_in_tasks
    (s : ClockKanbanSettings) (index : nat) (col : KanbanColumnConfig) (val : string)
    (windowStatus : string) (vault : Vault) (rawTasks : list RawTask) (t : KanbanTask) :
  (forall c, c ∈ columns s -> colType c = name c) ->
  NoDup (name <$> columns s) ->
  columns s !! index = Some col ->
  name col = clockColumn s ->
  val <> clockColumn s ->
  let s' := SettingsTab.onNameChange index val s in
  let tasks := loadTasks s' windowStatus vault (Some rawTasks) in
  t ∈ tasks ->
  checkIfTaskIsClockedIn vault t = true ->
  column t = clockColumn s
  /\ forall k c' shown,
       Render.render (columns s') tasks !! k = Some (c', shown) -> t ∉ shown.
Proof.
  intros Hsync Hnd Hk Hclock Hval. cbv zeta. intros Ht Hopen.
  destruct (renamed_clock_column_dangles s index col val Hsync Hnd Hk Hclock Hval)
    as [_ Hdangle].
  assert (Hcol : column t = clockColumn s).
  { unfold loadTasks in Ht.
    apply list_elem_of_In, in_map_iff in Ht as (t0 & <- & _).
    unfold forceClockColumn in *.
    destruct (checkIfTaskIsClockedIn vault t0) eqn:E; [reflexivity|].
    rewrite E in Hopen. discriminate. }
  split; [exact Hcol|].
  intros k c' shown Hshown Hin. unfold Render.render in Hshown.
  rewrite list_lookup_fmap in Hshown.
  destruct (_ !! k) as [c''|] eqn:Hk'; [|discriminate].
  cbn in Hshown. injection Hshown as <- <-.
  unfold Render.columnTasks in Hin.
  apply list_elem_of_In, filter_In in Hin as [_ Heq].
  apply String.eqb_eq in Heq.
  apply (Hdangle c''); [apply list_elem_of_lookup; eauto | congruence].
Qed.

Lemma renamed_clock_column_hides_clocked_in_tasks_witness :
  let vault := Scenario.vaultWith Scenario.clockedDocument in
  let s' := SettingsTab.onNameChange 1 "Doing" Scenario.settings in
  let tasks := loadTasks s' "" vault (Some [Scenario.buyMilk " "]) in
  let t := forceClockColumn s' vault (parseTask s' "" 0 (Scenario.buyMilk " ")) in
  t ∈ tasks
  /\ checkIfTaskIsClockedIn vault t = true
  /\ column t = "Working"
  /\ forall k c' shown,
       Render.render (columns s') tasks !! k = Some (c', shown) -> t ∉ shown.
Proof.
  cbv zeta.
  assert (Ht : forceClockColumn (SettingsTab.onNameChange 1 "Doing" Scenario.settings)
                 (Scenario.vaultWith Scenario.clockedDocument)
                 (parseTask (SettingsTab.onNameChange 1 "Doing" Scenario.settings) "" 0
                    (Scenario.buyMilk " "))
               ∈ loadTasks (SettingsTab.onNameChange 1 "Doing" Scenario.settings) ""
                   (Scenario.vaultWith Scenario.clockedDocument)
                   (Some [Scenario.buyMilk " "])).
  { apply list_elem_of_In. vm_compute. left. reflexivity. }
  split; [exact Ht|]. split; [vm_compute; reflexivity|].
  apply (renamed_clock_column_hides_clocked_in_tasks Scenario.settings 1
           Scenario.workingColumn "Doing" "" _ [Scenario.buyMilk " "]).
  - exact scenario_in_sync.
  - exact scenario_names.
  - reflexivity.
  - reflexivity.
  - discriminate.
  - exact Ht.
  - vm_compute. reflexivity.
Defined.

(** Giving the clock column another name also ends the automatic
    clock-in.  On a board drawn from the new columns, a task that is not
    held in the old clock column and is dropped on any column, the
    renamed one included, only gets its status symbol rewritten: no clock
    line is written for it. *)
Theorem renamed_clock_column_never_entered
    (s : ClockKanbanSettings) (index : nat) (col : KanbanColumnConfig) (val : string)
    (timestamp shown : string) (sourceColumn : string) (c' : KanbanColumnConfig)
    (w : World) :
  (forall c, c ∈ columns s -> colType c = name c) ->
  NoDup (name <$> columns s) ->
  columns s !! index = Some col ->
  name col = clockColumn s ->
  val <> clockColumn s ->
  let s' := SettingsTab.onNameChange index val s in
  c' ∈ columns s' ->
  sourceColumn <> clockColumn s ->
  let w' := snd (handleTaskMove s' timestamp shown sourceColumn (colType c') w) in
  let r := updateStatusAction s' (colType c') (vault w)
             (setColumn (colType c') (task w)) in
  vault w' = fst r
  /\ task w' = snd r
  /\ queued w' = queued w ++ [(sourcePath (task w), StatusSymbol (colType c'))].
Proof.
  intros Hsync Hnd Hk Hclock Hval. cbv zeta. intros Hc' Hsrc.
  destruct (renamed_clock_column_dangles s index col val Hsync Hnd Hk Hclock Hval)
    as [_ Hdangle].
  rewrite handleTaskMove_steps. cbv zeta.
  destruct (no_interval (SettingsTab.onNameChange index val s) sourceColumn (colType c'))
    as [-> ->].
  { right. split; [exact Hsrc | exact (Hdangle c' Hc')]. }
  cbn [fst snd vault task queued app]. now repeat split.
Qed.

Lemma renamed_clock_column_never_entered_witness :
  let s' := SettingsTab.onNameChange 1 "Doing" Scenario.settings in
  let doing := {| colType := "Doing"; name := "Doing";
                  color := "#3b82f6"; symbol := "/" |} in
  let w' := snd (handleTaskMove s' "2026-01-01T10:00:00" "10:00" "TODO" "Doing"
                   Scenario.world) in
  doing ∈ columns s'
  /\ vault w' = Scenario.vaultWith (Js.join ["# Today"; "- [/] Buy milk"; "- [ ] Other"])
  /\ isClockedIn (task w') = false
  /\ queued w' = [("a.md", StatusSymbol "Doing")].
Proof.
  cbv zeta.
  assert (Hin : {| colType := "Doing"; name := "Doing";
                   color := "#3b82f6"; symbol := "/" |}
                ∈ columns (SettingsTab.onNameChange 1 "Doing" Scenario.settings)).
  { apply list_elem_of_In. vm_compute. tauto. }
  split; [exact Hin|].
  destruct (renamed_clock_column_never_entered Scenario.settings 1
              Scenario.workingColumn "Doing" "2026-01-01T10:00:00" "10:00" "TODO"
              {| colType := "Doing"; name := "Doing"; color := "#3b82f6"; symbol := "/" |}
              Scenario.world scenario_in_sync scenario_names eq_refl eq_refl
              ltac:(discriminate) Hin ltac:(discriminate))
    as (Hv & Ht & Hq).
  cbn [colType] in Hv, Ht, Hq.
  rewrite Hv, Ht, Hq. split; [|split]; vm_compute; reflexivity.
Defined.

End BoardFacts.
